(** * bvzdisplaylib: a shallow embedding of [displaylib.py]

    The development follows the layout of the Python module:
    - the palette of ANSI escape codes,
    - [format_string] (the template colorizer), on top of a model of
      [str.replace] and [str.format],
    - [format_boolean],
    - [multiple_choice_user_input] (the prompt loop),
    - [display_progress] (the progress bar), on top of a model of Python's
      float arithmetic (IEEE 754 binary64, round to nearest, ties to even),
    - [display_error], [display_message] and the refreshable messages
      ([display_refreshable_message], [flush_refreshable_message],
      [finish_refreshable_message]).

    Python [str] values are modelled by [string]; the characters are the
    ASCII ones. Python [int] values are modelled by [Z]. An exception that
    leaves a function is a [Raise] result. *)

From Stdlib Require Import ZArith QArith Qround Qabs Qpower Lia Lqa List Bool.
From Stdlib Require Import Ascii String DecimalString.
Import ListNotations.

Local Open Scope string_scope.
Local Open Scope bool_scope.

(** ** Exceptions and results *)

Inductive exn : Type :=
| KeyError (key : string)
| IndexError
| ValueError
| TypeError
| ZeroDivisionError
| OverflowError
| AssertionError
| EOFError
| SystemExit.

Inductive result (A : Type) : Type :=
| Ok (a : A)
| Raise (e : exn).

Arguments Ok {A} a.
Arguments Raise {A} e.

Definition bind {A B : Type} (r : result A) (k : A -> result B) : result B :=
  match r with
  | Ok a => k a
  | Raise e => Raise e
  end.

Notation "'do' x <- r ;; k" := (bind r (fun x => k))
  (at level 10, x name, r at level 100, k at level 200).

(** ** Characters and strings *)

Definition ESC : ascii := "027"%char.
Definition BS : ascii := "008"%char.
Definition LF : ascii := "010"%char.
Definition BACKSLASH : ascii := "092"%char.

Definition chr (c : ascii) : string := String c EmptyString.

(** [s * n] for a Python string [s] and an int [n]: empty when [n <= 0]. *)
Fixpoint repeat_nat (s : string) (n : nat) : string :=
  match n with
  | O => EmptyString
  | S k => s ++ repeat_nat s k
  end.

Definition str_mul (s : string) (n : Z) : string := repeat_nat s (Z.to_nat n).

Definition is_lower (c : ascii) : bool :=
  let n := nat_of_ascii c in (97 <=? n)%nat && (n <=? 122)%nat.

Definition upper_char (c : ascii) : ascii :=
  if is_lower c then ascii_of_nat (nat_of_ascii c - 32) else c.

(** [s.upper()] *)
Fixpoint upper (s : string) : string :=
  match s with
  | EmptyString => EmptyString
  | String c t => String (upper_char c) (upper t)
  end.

(** [x in xs] for a list of strings *)
Definition str_in (x : string) (xs : list string) : bool :=
  existsb (String.eqb x) xs.

(** [sep.join(xs)] *)
Definition join (sep : string) (xs : list string) : string := String.concat sep xs.

(** [str(n)] for an int *)
Definition str_of_int (n : Z) : string := NilZero.string_of_int (Z.to_int n).

Definition len (s : string) : Z := Z.of_nat (String.length s).

(** [s[:i]] and [s[i:]] for a slice bound [i]; a negative bound counts from
    the end, and bounds are clipped to the string. *)
Definition clip_index (s : string) (i : Z) : nat :=
  let n := len s in
  let j := if (i <? 0)%Z then (i + n)%Z else i in
  Z.to_nat (Z.max 0 (Z.min j n)).

Definition slice_to (s : string) (i : Z) : string :=
  String.substring 0 (clip_index s i) s.

Definition slice_from (s : string) (i : Z) : string :=
  let k := clip_index s i in String.substring k (String.length s - k) s.

(** [s.replace(old, new)] for a non-empty [old]: the occurrences are found
    from left to right and do not overlap. [skip] counts the characters of
    a matched occurrence that are still to be dropped. *)
Fixpoint replace_from (old new : string) (skip : nat) (s : string) : string :=
  match s with
  | EmptyString => EmptyString
  | String c t =>
      match skip with
      | S k => replace_from old new k t
      | O =>
          if String.prefix old s
          then new ++ replace_from old new (String.length old - 1) t
          else String c (replace_from old new O t)
      end
  end.

Definition str_replace (old new : string) (s : string) : string :=
  replace_from old new O s.

(** ** The palette *)

Definition sgr (code : string) : string := String ESC ("[" ++ code ++ "m").

Definition BLACK := sgr "30".
Definition RED := sgr "31".
Definition GREEN := sgr "32".
Definition YELLOW := sgr "33".
Definition BLUE := sgr "34".
Definition MAGENTA := sgr "35".
Definition CYAN := sgr "36".
Definition WHITE := sgr "37".
Definition BRIGHT_RED := sgr "91".
Definition BRIGHT_GREEN := sgr "92".
Definition BRIGHT_YELLOW := sgr "93".
Definition BRIGHT_BLUE := sgr "94".
Definition BRIGHT_MAGENTA := sgr "95".
Definition BRIGHT_CYAN := sgr "96".
Definition BRIGHT_WHITE := sgr "97".
Definition ENDC := sgr "0".
Definition BG_RED := sgr "41".
Definition BLINK := sgr "5".

(** The keyword arguments that [format_string] passes to [str.format]. *)
Definition palette : list (string * string) :=
  [ ("BLACK", BLACK); ("RED", RED); ("GREEN", GREEN); ("YELLOW", YELLOW);
    ("BLUE", BLUE); ("MAGENTA", MAGENTA); ("CYAN", CYAN); ("WHITE", WHITE);
    ("BRIGHT_RED", BRIGHT_RED); ("BRIGHT_GREEN", BRIGHT_GREEN);
    ("BRIGHT_YELLOW", BRIGHT_YELLOW); ("BRIGHT_BLUE", BRIGHT_BLUE);
    ("BRIGHT_MAGENTA", BRIGHT_MAGENTA); ("BRIGHT_CYAN", BRIGHT_CYAN);
    ("BRIGHT_WHITE", BRIGHT_WHITE); ("COLOR_NONE", ENDC);
    ("BG_RED", BG_RED); ("BLINK", BLINK) ].

Fixpoint lookup (k : string) (kw : list (string * string)) : option string :=
  match kw with
  | [] => None
  | (k', v) :: rest => if String.eqb k k' then Some v else lookup k rest
  end.

(** ** A model of [str.format]

    [output.format] is called with keyword arguments only. The model
    follows CPython's scanner for format strings (the markup iterator and
    its field parser) one character at a time:
    - [SLit]: in literal text;
    - [SOpen], [SClose]: one brace of literal text has been read and the
      next character decides between an escaped brace, a field, and an error;
    - [SName]: in the field name ([inbr]: between [[] and []], where no
      character is looked at);
    - [SConv], [SConvEnd]: after [!], and after the conversion character;
    - [SSpec]: in the format specification, with the depth of nested braces. *)

Inductive scan_state : Type :=
| SLit
| SOpen
| SClose
| SName (name : string) (inbr : bool)
| SConv (name : string)
| SConvEnd (name : string) (conv : ascii)
| SSpec (name : string) (conv : option ascii) (spec : string) (depth : nat).

Definition is_digit (c : ascii) : bool :=
  let n := nat_of_ascii c in (48 <=? n)%nat && (n <=? 57)%nat.

(** The largest index of a sequence ([sys.maxsize] on a 64-bit build). *)
Definition PY_SSIZE_T_MAX : Z := 2 ^ 63 - 1.

(** CPython's [get_integer] on the first part of a field name, one character
    at a time: a character that is not a digit ends the reading with "not an
    index" ([None]); a digit that takes the value read so far beyond the
    largest index raises [ValueError] there and then, whatever follows it;
    digits to the end give the index. *)
Fixpoint get_integer_from (accumulator : Z) (s : string) : result (option Z) :=
  match s with
  | EmptyString => Ok (Some accumulator)
  | String c t =>
      if is_digit c then
        let digitval := Z.of_nat (nat_of_ascii c - 48) in
        if ((PY_SSIZE_T_MAX - digitval) / 10 <? accumulator)%Z then Raise ValueError
        else get_integer_from (accumulator * 10 + digitval) t
      else Ok None
  end.

(** The empty string is not an index either. *)
Definition get_integer (s : string) : result (option Z) :=
  match s with
  | EmptyString => Ok None
  | String _ _ => get_integer_from 0 s
  end.

(** The field name up to its first [.] or [[], and what follows. *)
Fixpoint split_first (s : string) : string * string :=
  match s with
  | EmptyString => (EmptyString, EmptyString)
  | String c t =>
      if (Ascii.eqb c "." || Ascii.eqb c "[")%char then (EmptyString, s)
      else let (a, b) := split_first t in (String c a, b)
  end.

Section Format.

(** What [str.format] does with a field once its argument has been found,
    when the field has more than a name: attribute and index lookups
    ([rest]), a conversion, a format specification. The result depends on
    the attributes of Python's [str] objects and is kept abstract. *)
Variable render_ext :
  forall (value rest : string) (conv : option ascii) (spec : string), result string.

(** The keyword arguments. *)
Variable kw : list (string * string).

(** A complete field: read the first part of the name as an index, look
    the argument up, then render it. There are no positional arguments, so
    an index is out of range, and so is the empty name, which stands for the
    next index. *)
Definition output_markup (name : string) (conv : option ascii) (spec : string)
  : result string :=
  let (first, rest) := split_first name in
  do index <- get_integer first ;;
  match index, first with
  | Some _, _ | None, EmptyString => Raise IndexError
  | None, String _ _ =>
      match lookup first kw with
      | None => Raise (KeyError first)
      | Some v =>
          match rest, conv, spec with
          | EmptyString, None, EmptyString => Ok v
          | _, _, _ => render_ext v rest conv spec
          end
      end
  end.

Definition snoc (s : string) (c : ascii) : string := s ++ chr c.

(** A character of the field name outside brackets. *)
Definition name_step (out name : string) (c : ascii) : result (scan_state * string) :=
  if Ascii.eqb c "{" then Raise ValueError
  else if Ascii.eqb c "[" then Ok (SName (snoc name c) true, out)
  else if Ascii.eqb c "}" then
    do v <- output_markup name None EmptyString ;; Ok (SLit, out ++ v)
  else if Ascii.eqb c ":" then Ok (SSpec name None EmptyString 1, out)
  else if Ascii.eqb c "!" then Ok (SConv name, out)
  else Ok (SName (snoc name c) false, out).

Definition scan_step (st : scan_state) (out : string) (c : ascii)
  : result (scan_state * string) :=
  match st with
  | SLit =>
      if Ascii.eqb c "{" then Ok (SOpen, out)
      else if Ascii.eqb c "}" then Ok (SClose, out)
      else Ok (SLit, snoc out c)
  | SOpen =>
      if Ascii.eqb c "{" then Ok (SLit, snoc out c)
      else name_step out EmptyString c
  | SClose =>
      if Ascii.eqb c "}" then Ok (SLit, snoc out c)
      else Raise ValueError
  | SName name true =>
      Ok (SName (snoc name c) (negb (Ascii.eqb c "]")), out)
  | SName name false => name_step out name c
  | SConv name => Ok (SConvEnd name c, out)
  | SConvEnd name conv =>
      if Ascii.eqb c "}" then
        do v <- output_markup name (Some conv) EmptyString ;; Ok (SLit, out ++ v)
      else if Ascii.eqb c ":" then Ok (SSpec name (Some conv) EmptyString 1, out)
      else Raise ValueError
  | SSpec name conv spec depth =>
      if Ascii.eqb c "{" then Ok (SSpec name conv (snoc spec c) (S depth), out)
      else if Ascii.eqb c "}" then
        match depth with
        | 1%nat | O =>
            do v <- output_markup name conv spec ;; Ok (SLit, out ++ v)
        | S d => Ok (SSpec name conv (snoc spec c) d, out)
        end
      else Ok (SSpec name conv (snoc spec c) depth, out)
  end.

(** At the end of the format string only literal text may be open. *)
Definition scan_end (st : scan_state) (out : string) : result string :=
  match st with
  | SLit => Ok out
  | _ => Raise ValueError
  end.

Fixpoint scan (st : scan_state) (out : string) (s : string) : result string :=
  match s with
  | EmptyString => scan_end st out
  | String c t =>
      do r <- scan_step st out c ;;
      scan (fst r) (snd r) t
  end.

(** [s.format] with the keyword arguments [kw] *)
Definition str_format (s : string) : result string := scan SLit EmptyString s.

End Format.

(** A stand-in for [render_ext], to run the model on templates whose fields
    carry a name only: it is never called on them. *)
Definition name_only_ext (value rest : string) (conv : option ascii) (spec : string)
  : result string := Raise TypeError.

(** ** The template colorizer and the boolean formatter *)

(** The values [format_boolean] accepts: a bool or a string. *)
Inductive pyvalue : Type :=
| VBool (b : bool)
| VStr (s : string).

Definition str_of_value (v : pyvalue) : string :=
  match v with
  | VBool true => "True"
  | VBool false => "False"
  | VStr s => s
  end.

Section Colorizer.

Variable render_ext :
  forall (value rest : string) (conv : option ascii) (spec : string), result string.

(** The three [replace] calls of [format_string]. *)
Definition collapse (msg : string) : string :=
  let output := str_replace (String BACKSLASH "n") (chr LF) msg in
  let output := str_replace "{{" "{" output in
  str_replace "}}" "}" output.

Definition format_string (msg : string) : result string :=
  let output := collapse msg in
  do output <-
    match str_format render_ext palette output with
    | Ok formatted => Ok formatted
    | Raise (KeyError _) => Ok output
    | Raise e => Raise e
    end ;;
  Ok (output ++ ENDC).

Definition format_boolean (value : pyvalue) (colorize invert_color : bool)
  : result string :=
  let legal :=
    match value with
    | VBool _ => true
    | VStr s => str_in (upper s) ["TRUE"; "FALSE"]
    end in
  if negb legal then Raise AssertionError
  else
    let (color, return_value) :=
      if String.eqb (upper (str_of_value value)) "TRUE"
      then ("BRIGHT_GREEN", "Yes")
      else ("BRIGHT_RED", "No") in
    if colorize
    then format_string ("{{" ++ color ++ "}}" ++ return_value)
    else Ok return_value.

End Colorizer.

(** ** The prompt loop *)

(** What [input] finds on standard input: a line, or an interrupt from the
    keyboard. At the end of the input, [input] raises [EOFError]. *)
Inductive stdin_event : Type :=
| Line (s : string)
| Interrupt.

(** [d[k] = v] on a dict kept in insertion order. *)
Fixpoint dict_set (k v : string) (d : list (string * string)) : list (string * string) :=
  match d with
  | [] => [(k, v)]
  | (k', v') :: rest =>
      if String.eqb k k' then (k, v) :: rest else (k', v') :: dict_set k v rest
  end.

Section Prompt.

Variable render_ext :
  forall (value rest : string) (conv : option ascii) (spec : string), result string.

(** [display_message]: the text that [print] writes for the messages. *)
Definition display_message (msgs : list string) : result string :=
  do msg <- format_string render_ext (join " " msgs) ;;
  Ok (msg ++ chr LF).

Section Loop.

Variables (msgs legal_answers alternate_options : list string).
Variables (options_str : string) (default : option string).

Definition accepted (result : string) : bool :=
  str_in (upper result) legal_answers || str_in (upper result) alternate_options.

(** The [while] loop: the answer so far, the text written so far, and
    what is left on standard input. *)
Fixpoint prompt_loop (stdin : list stdin_event) (answer out : string)
  : result string * string :=
  if accepted answer then (Ok answer, out)
  else
    match display_message (msgs ++ [options_str]) with
    | Raise e => (Raise e, out)
    | Ok shown =>
        let out := out ++ shown in
        match
          match default with
          | None => Ok "> "
          | Some d =>
              format_string render_ext
                ("({BRIGHT_YELLOW}" ++ upper d ++ "{COLOR_NONE}) > ")
          end
        with
        | Raise e => (Raise e, out)
        | Ok prompt =>
            let out := out ++ prompt in
            match stdin with
            | [] => (Raise EOFError, out)
            | Interrupt :: _ => (Raise SystemExit, out)
            | Line typed :: rest =>
                let answer :=
                  match default with
                  | Some d => if String.eqb typed "" then upper d else typed
                  | None => typed
                  end in
                prompt_loop rest answer out
            end
        end
    end.

End Loop.

Definition multiple_choice_user_input
    (msgs legal_answers : list string)
    (alternate_legal_answers : option (list (string * string)))
    (default : option string) (blank_lines : Z)
    (stdin : list stdin_event) : result string * string :=
  let options := map upper legal_answers in
  let aliases := match alternate_legal_answers with Some d => d | None => [] end in
  if negb (forallb (fun kv => str_in (upper (snd kv)) options) aliases)
  then (Raise AssertionError, "")
  else if negb (match default with Some d => str_in (upper d) options | None => true end)
  then (Raise AssertionError, "")
  else
    let alternate_options := map (fun kv => upper (fst kv)) aliases in
    let alternate_legal_answers_upper :=
      fold_left (fun d kv => dict_set (upper (fst kv)) (snd kv) d) aliases [] in
    let options_str := "(" ++ join "," options ++ ")" in
    match
      if (0 <? blank_lines)%Z
      then display_message [str_mul (chr LF) blank_lines]
      else Ok ""
    with
    | Raise e => (Raise e, "")
    | Ok blank =>
        match prompt_loop msgs legal_answers alternate_options options_str default
                stdin "" blank with
        | (Raise e, out) => (Raise e, out)
        | (Ok answer, out) =>
            let answer :=
              if str_in (upper answer) alternate_options
              then match lookup (upper answer) alternate_legal_answers_upper with
                   | Some target => target
                   | None => answer
                   end
              else answer in
            (Ok (upper answer), out)
        end
    end.

End Prompt.

(** ** Python floats

    A Python float is an IEEE 754 binary64 number. A finite one is kept as
    its sign and the exact rational value of its magnitude ([Fin true 0] is
    [-0.0]). Every operation computes the exact rational result and rounds
    it to the nearest binary64 number, ties to even. *)

Inductive pyfloat : Type :=
| Fin (neg : bool) (mag : Q)
| Inf (neg : bool)
| NaN.

Local Open Scope Q_scope.

Definition pow2 (e : Z) : Q := Qpower 2 e.
Definition pow10 (e : Z) : Q := Qpower 10 e.

(** Rounding a rational to the nearest integer, ties to the even one. *)
Definition rne (q : Q) : Z :=
  let f := Qfloor q in
  match Qcompare (q - inject_Z f) (1 # 2) with
  | Lt => f
  | Gt => (f + 1)%Z
  | Eq => if Z.even f then f else (f + 1)%Z
  end.

(** The binary exponent of a positive rational: [2^(ilog2 x) <= x < 2^(ilog2 x + 1)]. *)
Definition ilog2 (x : Q) : Z :=
  let l := (Z.log2 (Qnum x) - Z.log2 (Zpos (Qden x)))%Z in
  if Qle_bool (pow2 l) x then l else (l - 1)%Z.

(** The exponent of the last bit of the 53-bit significand of [x]; it stops
    at [-1074] for the subnormal numbers. *)
Definition ulp_exp (x : Q) : Z := Z.max (ilog2 x - 52) (-1074).

(** The binary64 magnitude nearest to [x >= 0], the exponent unbounded above. *)
Definition round_mag (x : Q) : Q :=
  let e := ulp_exp x in
  Qred (inject_Z (rne (x / pow2 e)) * pow2 e).

(** Rounding with overflow to infinity. *)
Definition round_float (neg : bool) (x : Q) : pyfloat :=
  let y := round_mag x in
  if Qle_bool (pow2 1024) y then Inf neg else Fin neg y.

Definition is_zero (x : pyfloat) : bool :=
  match x with
  | Fin _ m => Qeq_bool m 0
  | _ => false
  end.

Definition signed (neg : bool) (m : Q) : Q := if neg then - m else m.

Definition fmul (x y : pyfloat) : pyfloat :=
  match x, y with
  | NaN, _ | _, NaN => NaN
  | Inf s, Inf t => Inf (xorb s t)
  | Inf s, Fin t m | Fin t m, Inf s => if Qeq_bool m 0 then NaN else Inf (xorb s t)
  | Fin s m, Fin t n => round_float (xorb s t) (m * n)
  end.

(** Division by a non-zero float. *)
Definition fdiv (x y : pyfloat) : pyfloat :=
  match x, y with
  | NaN, _ | _, NaN => NaN
  | Inf _, Inf _ => NaN
  | Inf s, Fin t _ => Inf (xorb s t)
  | Fin s _, Inf t => Fin (xorb s t) 0
  | Fin s m, Fin t n => round_float (xorb s t) (m / n)
  end.

Definition fadd (x y : pyfloat) : pyfloat :=
  match x, y with
  | NaN, _ | _, NaN => NaN
  | Inf s, Inf t => if Bool.eqb s t then Inf s else NaN
  | Inf s, Fin _ _ | Fin _ _, Inf s => Inf s
  | Fin s m, Fin t n =>
      let v := signed s m + signed t n in
      if Qeq_bool v 0 then Fin (s && t) 0
      else round_float (negb (Qle_bool 0 v)) (Qabs v)
  end.

Definition fneg (x : pyfloat) : pyfloat :=
  match x with
  | Fin s m => Fin (negb s) m
  | Inf s => Inf (negb s)
  | NaN => NaN
  end.

Definition fsub (x y : pyfloat) : pyfloat := fadd x (fneg y).

(** [x == y] on floats *)
Definition float_eqb (x y : pyfloat) : bool :=
  match x, y with
  | Fin s m, Fin t n => Qeq_bool (signed s m) (signed t n)
  | Inf s, Inf t => Bool.eqb s t
  | _, _ => false
  end.

(** The conversion of an int in mixed arithmetic, and [float(n)]. *)
Definition py_float (n : Z) : result pyfloat :=
  match round_float (n <? 0)%Z (inject_Z (Z.abs n)) with
  | Inf _ => Raise OverflowError
  | f => Ok f
  end.

(** [x / y] on floats *)
Definition py_truediv (x y : pyfloat) : result pyfloat :=
  if is_zero y then Raise ZeroDivisionError else Ok (fdiv x y).

(** [a / b] on ints: the exact quotient, rounded once. *)
Definition py_int_truediv (a b : Z) : result pyfloat :=
  if (b =? 0)%Z then Raise ZeroDivisionError
  else
    match round_float (xorb (a <? 0)%Z (b <? 0)%Z)
            (inject_Z (Z.abs a) / inject_Z (Z.abs b)) with
    | Inf _ => Raise OverflowError
    | f => Ok f
    end.

(** [round(x, ndigits)] for [ndigits >= 0]: the decimal with [ndigits]
    digits after the point nearest to the exact value of [x], ties to even,
    read back as a float. *)
Definition py_round_ndigits (x : pyfloat) (ndigits : Z) : pyfloat :=
  match x with
  | Fin s m => Fin s (round_mag (inject_Z (rne (m * pow10 ndigits)) / pow10 ndigits))
  | _ => x
  end.

(** [round(x)]: an int *)
Definition py_round (x : pyfloat) : result Z :=
  match x with
  | Fin s m => Ok (if s then - rne m else rne m)%Z
  | Inf _ => Raise OverflowError
  | NaN => Raise ValueError
  end.

(** [int(x)]: truncation towards zero *)
Definition py_int (x : pyfloat) : result Z :=
  match x with
  | Fin s m => Ok (if s then - Qfloor m else Qfloor m)%Z
  | Inf _ => Raise OverflowError
  | NaN => Raise ValueError
  end.

(** [math.floor(x)] and [math.ceil(x)] *)
Definition math_floor (x : pyfloat) : result Z :=
  match x with
  | Fin s m => Ok (Qfloor (signed s m))
  | Inf _ => Raise OverflowError
  | NaN => Raise ValueError
  end.

Definition math_ceil (x : pyfloat) : result Z :=
  match x with
  | Fin s m => Ok (Qceiling (signed s m))
  | Inf _ => Raise OverflowError
  | NaN => Raise ValueError
  end.

Local Close Scope Q_scope.

(** *** [repr] of a float

    Python prints the shortest decimal that reads back as the same float
    and, among the decimals of that length, the one nearest to it. *)

Local Open Scope Q_scope.

(** The decimal exponent [k] of a positive rational: [10^(k-1) <= x < 10^k].
    The binary exponent gives it up to one unit. *)
Definition decpt_of (x : Q) : Z :=
  let k := (ilog2 x * 30103 / 100000)%Z in
  if Qle_bool (pow10 k) x then
    if Qle_bool (pow10 (k + 1)) x then (k + 2)%Z else (k + 1)%Z
  else
    if Qle_bool (pow10 (k - 1)) x then k else (k - 1)%Z.

(** The integer [c] with [c * 10^(k-n)] the [n]-digit decimal for [x], when
    one of the two [n]-digit decimals around [x] reads back as [x]. *)
Definition digits_at (x : Q) (k n : Z) : option Z :=
  let s := pow10 (k - n) in
  let lo := Qfloor (x / s) in
  let c1 := rne (x / s) in
  let c2 := if (c1 =? lo)%Z then (lo + 1)%Z else lo in
  if Qeq_bool (round_mag (inject_Z c1 * s)) x then Some c1
  else if Qeq_bool (round_mag (inject_Z c2 * s)) x then Some c2
  else None.

(** The search from [n] digits on; 17 digits always identify a binary64 number. *)
Fixpoint shortest_from (x : Q) (k n : Z) (fuel : nat) : Z * Z :=
  match fuel with
  | O => (rne (x / pow10 (k - n)), n)
  | S f =>
      match digits_at x k n with
      | Some c => (c, n)
      | None => shortest_from x k (n + 1) f
      end
  end.

Local Close Scope Q_scope.

Fixpoint strip_zeros_rev (s : list ascii) : list ascii :=
  match s with
  | "0"%char :: t => strip_zeros_rev t
  | _ => s
  end.

(** Trailing zeros removed. *)
Definition strip_trailing_zeros (s : string) : string :=
  string_of_list_ascii (rev (strip_zeros_rev (rev (list_ascii_of_string s)))).

(** The exponent of the scientific notation: a sign and two digits at least. *)
Definition exp_suffix (e : Z) : string :=
  let d := str_of_int (Z.abs e) in
  "e" ++ (if (e <? 0)%Z then "-" else "+")
      ++ (if (String.length d <? 2)%nat then "0" ++ d else d).

(** The digits [c] ([n] of them, for the decimal exponent [k]) as Python
    lays them out: in scientific notation below [1e-4] and from [1e16] on,
    with a point and at least one digit after it otherwise. *)
Definition format_repr (k n c : Z) : string :=
  let all := str_of_int c in
  let ds := strip_trailing_zeros all in
  let nd := len ds in
  let decpt := (k - n + len all)%Z in
  if ((decpt <=? -4) || (16 <? decpt))%Z then
    String.substring 0 1 ds
      ++ (if (1 <? nd)%Z then "." ++ slice_from ds 1 else "")
      ++ exp_suffix (decpt - 1)
  else if (decpt <=? 0)%Z then
    "0." ++ str_mul "0" (- decpt) ++ ds
  else if (nd <=? decpt)%Z then
    ds ++ str_mul "0" (decpt - nd) ++ ".0"
  else
    slice_to ds decpt ++ "." ++ slice_from ds decpt.

(** [repr] of a positive finite magnitude *)
Definition repr_mag (x : Q) : string :=
  let k := decpt_of x in
  let (c, n) := shortest_from x k 1 16 in
  format_repr k n c.

(** [str(x)] for a float *)
Definition str_of_float (x : pyfloat) : string :=
  match x with
  | NaN => "nan"
  | Inf s => if s then "-inf" else "inf"
  | Fin s m =>
      (if s then "-" else "") ++ (if Qeq_bool m 0 then "0.0" else repr_mag m)
  end.

(** ** The progress bar *)

(** What a function does to standard output. *)
Inductive stdout_event : Type :=
| Write (s : string)
| Flush.

(** [round((count * 1.0) / total * 100, 1)] *)
Definition compute_percent (count total : Z) : result pyfloat :=
  do c <- py_float count ;;
  let c := fmul c (Fin false 1) in
  do t <- py_float total ;;
  do ratio <- py_truediv c t ;;
  do hundred <- py_float 100 ;;
  Ok (py_round_ndigits (fmul ratio hundred) 1).

(** [percent / (100 / width)] *)
Definition segments (percent : pyfloat) (width : Z) : result pyfloat :=
  do per_segment <- py_int_truediv 100 width ;;
  py_truediv percent per_segment.

(** [completed_char * int(round(percent / (100 / width), 0))] *)
Definition build_done_str (percent : pyfloat) (width : Z) (completed_char : string)
  : result string :=
  do q <- segments percent width ;;
  do filled <- py_int (py_round_ndigits q 0) ;;
  Ok (str_mul completed_char filled).

(** [empty_char * (width - int(round(percent / (100 / width))))] *)
Definition build_empty_str (percent : pyfloat) (width : Z) (empty_char : string)
  : result string :=
  do q <- segments percent width ;;
  do filled <- py_round q ;;
  Ok (str_mul empty_char (width - filled)).

(** [" (" + BRIGHT_WHITE + str(count) + ENDC + " of " + ... + ")"] *)
Definition build_count_str (count total : Z) : string :=
  " (" ++ BRIGHT_WHITE ++ str_of_int count ++ ENDC ++ " of "
       ++ BRIGHT_WHITE ++ str_of_int total ++ ENDC ++ ")".

(** The percentage label. *)
Definition build_percent_str (percent : pyfloat) : result string :=
  do whole <- math_floor percent ;;
  Ok (str_mul " " (4 - len (str_of_int whole)) ++ str_of_float percent ++ "%" ++ " ").

(** The two slices of the bar around the label. *)
Definition build_progress_left (bar percent_str : string) : result string :=
  do half <- py_int_truediv (len bar) 2 ;;
  do label_half <- py_int_truediv (len percent_str) 2 ;;
  do label_floor <- math_floor label_half ;;
  do label_floor <- py_float label_floor ;;
  do i <- py_int (fsub half label_floor) ;;
  Ok (slice_to bar (i + 2)).

Definition build_progress_right (bar percent_str : string) : result string :=
  do half <- py_int_truediv (len bar) 2 ;;
  do label_half <- py_int_truediv (len percent_str) 2 ;;
  do label_ceil <- math_ceil label_half ;;
  do label_ceil <- py_float label_ceil ;;
  do j <- py_int (fadd half label_ceil) ;;
  Ok (slice_from bar (j + 2)).

(** [if width % 2 != 0: width -= 1] *)
Definition even_width (width : Z) : Z :=
  if negb (width mod 2 =? 0)%Z then (width - 1)%Z else width.

Definition display_progress
    (count total : Z) (old_percent : option pyfloat) (width : Z)
    (completed_char empty_char postpend_str : string)
  : result (pyfloat * list stdout_event) :=
  let width := even_width width in
  do percent <- compute_percent count total ;;
  if match old_percent with
     | Some old => float_eqb percent old
     | None => false
     end && negb (float_eqb percent (Fin false 0))
  then Ok (percent, [])
  else
    do done_str <- build_done_str percent width completed_char ;;
    do empty_str <- build_empty_str percent width empty_char ;;
    let count_str := build_count_str count total in
    do percent_str <- build_percent_str percent ;;
    let progress_bar_str := "[" ++ done_str ++ empty_str ++ "]" in
    do progress_left <- build_progress_left progress_bar_str percent_str ;;
    do progress_right <- build_progress_right progress_bar_str percent_str ;;
    let progress_bar_str := progress_left in
    let progress_bar_str := progress_bar_str ++ BRIGHT_YELLOW ++ percent_str ++ ENDC in
    let progress_bar_str := progress_bar_str ++ progress_right in
    let progress_bar_str := progress_bar_str ++ count_str in
    let progress_bar_str := progress_bar_str ++ postpend_str in
    Ok (percent,
        [Write progress_bar_str; Flush; Write (str_mul (chr BS) (len progress_bar_str))]).

(** ** The other writers *)

(** [s.lstrip(" ")] *)
Fixpoint lstrip_spaces (s : string) : string :=
  match s with
  | EmptyString => EmptyString
  | String c t => if Ascii.eqb c " " then lstrip_spaces t else s
  end.

(** [display_error]: the text that [print] writes to standard error, for
    the messages as [str] gives them. *)
Definition display_error (msgs : list string) : string :=
  let output := fold_left (fun output msg => output ++ " " ++ msg) msgs "" in
  lstrip_spaces output ++ chr LF.

Section Refreshable.

Variable render_ext :
  forall (value rest : string) (conv : option ascii) (spec : string), result string.

Definition display_refreshable_message (msgs : list string)
  : result (list stdout_event) :=
  do message <- format_string render_ext (join " " msgs) ;;
  Ok [Write message; Flush; Write (str_mul (chr BS) (len message))].

End Refreshable.


(** [print()] *)
Definition finish_refreshable_message : list stdout_event := [Write (chr LF)].

(** ** The terminal

    What the claims call the visible characters of a line and the column of
    the cursor: a printable character takes one column, a backspace moves
    one column back and stops at the left margin, a line feed returns to the
    margin, and an escape sequence ([ESC [] up to its final letter, or [ESC]
    and one character) takes no column. *)

Inductive term_mode : Type :=
| TText
| TEscape
| TCsi.

Definition printable (c : ascii) : bool :=
  let n := nat_of_ascii c in (32 <=? n)%nat && (n <? 127)%nat.

Definition csi_final (c : ascii) : bool :=
  let n := nat_of_ascii c in (64 <=? n)%nat && (n <=? 126)%nat.

Definition term_step (st : term_mode * nat) (c : ascii) : term_mode * nat :=
  let (mode, col) := st in
  match mode with
  | TText =>
      if Ascii.eqb c ESC then (TEscape, col)
      else if Ascii.eqb c BS then (TText, Nat.pred col)
      else if Ascii.eqb c LF then (TText, O)
      else if printable c then (TText, S col)
      else (TText, col)
  | TEscape => if Ascii.eqb c "[" then (TCsi, col) else (TText, col)
  | TCsi => if csi_final c then (TText, col) else (TCsi, col)
  end.

Fixpoint term_run (st : term_mode * nat) (s : string) : term_mode * nat :=
  match s with
  | EmptyString => st
  | String c t => term_run (term_step st c) t
  end.

(** The column of the cursor after the events, from column [col]. *)
Fixpoint cursor_after (st : term_mode * nat) (out : list stdout_event) : term_mode * nat :=
  match out with
  | [] => st
  | Write s :: rest => cursor_after (term_run st s) rest
  | Flush :: rest => cursor_after st rest
  end.

(** The number of characters of [s] that take a column. *)
Fixpoint visible_from (mode : term_mode) (s : string) : nat :=
  match s with
  | EmptyString => O
  | String c t =>
      match mode with
      | TText =>
          if Ascii.eqb c ESC then visible_from TEscape t
          else if printable c then S (visible_from TText t)
          else visible_from TText t
      | TEscape => visible_from (if Ascii.eqb c "[" then TCsi else TText) t
      | TCsi => visible_from (if csi_final c then TText else TCsi) t
      end
  end.

Definition visible_length (s : string) : nat := visible_from TText s.

(** ** Templates

    The shape of a format string made of literal text without braces and of
    fields that carry a name only. *)

Definition is_brace (c : ascii) : bool := Ascii.eqb c "{" || Ascii.eqb c "}".

Fixpoint has_brace (s : string) : bool :=
  match s with
  | EmptyString => false
  | String c t => is_brace c || has_brace t
  end.

(** A character of a field name that the scanner does not act on. *)
Definition name_char (c : ascii) : bool :=
  negb (is_brace c || Ascii.eqb c "[" || Ascii.eqb c "]" || Ascii.eqb c "."
        || Ascii.eqb c "!" || Ascii.eqb c ":").

Fixpoint all_name_chars (s : string) : bool :=
  match s with
  | EmptyString => true
  | String c t => name_char c && all_name_chars t
  end.

(** A keyword name: not empty, and not read as an index by [get_integer],
    which a number is, nor refused by it, which leading digits beyond the
    largest index are. *)
Definition keyword_name (s : string) : bool :=
  all_name_chars s
  && match s, get_integer s with
     | String _ _, Ok None => true
     | _, _ => false
     end.

Inductive piece : Type :=
| Text (s : string)
| Field (name : string).

Definition piece_src (p : piece) : string :=
  match p with
  | Text s => s
  | Field name => "{" ++ name ++ "}"
  end.

Fixpoint pieces_src (ps : list piece) : string :=
  match ps with
  | [] => EmptyString
  | p :: rest => piece_src p ++ pieces_src rest
  end.

(** Text without braces, and fields that [kw] knows. *)
Definition resolved_piece (kw : list (string * string)) (p : piece) : bool :=
  match p with
  | Text s => negb (has_brace s)
  | Field name =>
      keyword_name name && match lookup name kw with Some _ => true | None => false end
  end.

(** What [str.format] makes of a piece. *)
Definition piece_value (kw : list (string * string)) (p : piece) : string :=
  match p with
  | Text s => s
  | Field name => match lookup name kw with Some v => v | None => EmptyString end
  end.

Fixpoint pieces_value (kw : list (string * string)) (ps : list piece) : string :=
  match ps with
  | [] => EmptyString
  | p :: rest => piece_value kw p ++ pieces_value kw rest
  end.

(** ** Auxiliary definitions for the statements *)

(** [c in s] for a character. *)
Fixpoint has_char (c : ascii) (s : string) : bool :=
  match s with
  | EmptyString => false
  | String x t => Ascii.eqb x c || has_char c t
  end.

(** The percent value with [t] tenths, as [round(x, 1)] returns it. *)
Definition percent_of_tenths (t : Z) : pyfloat :=
  Fin false (round_mag (inject_Z t / pow10 1)).

(** The label of a percent value is 8 characters wide. *)
Definition label_width_ok (t : Z) : bool :=
  match build_percent_str (percent_of_tenths t) with
  | Ok s => Nat.eqb (String.length s) 8
  | Raise _ => false
  end.

(** The line written for 50 of 100 at width 10. *)
Definition line_50_of_100 : string :=
  "[###" ++ BRIGHT_YELLOW ++ "  50.0% " ++ ENDC ++ build_count_str 50 100.

(** [s] starts with the character [c]. *)
Definition starts_with (c : ascii) (s : string) : bool :=
  match s with
  | EmptyString => false
  | String x _ => Ascii.eqb x c
  end.

(** The characters [a], [b] occur next to each other in [s]. *)
Fixpoint has_pair (a b : ascii) (s : string) : bool :=
  match s with
  | EmptyString => false
  | String x t => (Ascii.eqb x a && starts_with b t) || has_pair a b t
  end.

Definition pair_str (a b : ascii) : string := String a (String b EmptyString).

(** [s] has a lower-case letter. *)
Fixpoint has_lower (s : string) : bool :=
  match s with
  | EmptyString => false
  | String c t => is_lower c || has_lower t
  end.

(** The number of decimal digits of an integer from 1 to 9999. *)
Definition digits_4 (c : Z) : Z :=
  if (c <? 10)%Z then 1 else if (c <? 100)%Z then 2 else if (c <? 1000)%Z then 3 else 4.

(** The layout of up to four digits with at most one of them after the
    point: [k] digits before the point (one for [k = 0]), the point, and one
    digit. *)
Definition short_repr_ok (c : Z) : bool :=
  let n := digits_4 c in
  (len (str_of_int c) =? n)%Z
  && forallb (fun k => (len (format_repr k n c) =? Z.max k 1 + 2)%Z)
       (filter (fun k => (n <=? k + 1)%Z) [0; 1; 2; 3]%Z).

(** [f] holds from [from] on, [count] times. *)
Fixpoint forall_from (f : Z -> bool) (from : Z) (count : nat) : bool :=
  match count with
  | O => true
  | S n => f from && forall_from f (from + 1) n
  end.

(** A template with its fields between the delimiters [o] and [c]. *)
Definition piece_with (o c : string) (p : piece) : string :=
  match p with
  | Text s => s
  | Field name => o ++ name ++ c
  end.

Fixpoint pieces_with (o c : string) (ps : list piece) : string :=
  match ps with
  | [] => EmptyString
  | p :: rest => piece_with o c p ++ pieces_with o c rest
  end.

(** A template as it is written for [format_string]: the fields between
    doubled braces. *)
Definition pieces_tags (ps : list piece) : string := pieces_with "{{" "}}" ps.

(** The magnitude of the percent of a count between 0 and the total: the
    roundings of [compute_percent], one after the other. *)
Definition percent_mag (count total : Z) : Q :=
  let c := round_mag (round_mag (inject_Z count) * 1) in
  let ratio := round_mag (c / round_mag (inject_Z total)) in
  let p := round_mag (ratio * 100) in
  round_mag (inject_Z (rne (p * pow10 1)) / pow10 1).

(** Every character of [s] takes a column. *)
Fixpoint all_printable (s : string) : bool :=
  match s with
  | EmptyString => true
  | String c t => printable c && all_printable t
  end.

(** * Properties *)

(** ** The boolean formatter *)

Lemma format_boolean_true_green :
  forall ext invert_color,
    format_boolean ext (VBool true) true invert_color
    = Ok (BRIGHT_GREEN ++ "Yes" ++ ENDC).
Proof. intros ext invert_color. reflexivity. Qed.

Lemma format_boolean_invert_color_unused :
  forall ext value colorize invert_color,
    format_boolean ext value colorize invert_color
    = format_boolean ext value colorize false.
Proof. intros ext value colorize invert_color. reflexivity. Qed.

(** C1: [format_boolean(True)] is "Yes" between the bright green code and the
    reset code, but [format_boolean(False, invert_color=True)] is "No" between
    the bright RED code and the reset code, not the green one: the function
    never reads [invert_color]. *)
Theorem format_boolean_false_inverted_is_red :
  forall ext,
    format_boolean ext (VBool true) true false = Ok (BRIGHT_GREEN ++ "Yes" ++ ENDC)
    /\ format_boolean ext (VBool false) true true = Ok (BRIGHT_RED ++ "No" ++ ENDC)
    /\ format_boolean ext (VBool false) true true <> Ok (BRIGHT_GREEN ++ "No" ++ ENDC).
Proof.
  intros ext. repeat split; try reflexivity.
  cbv. discriminate.
Qed.

(** ** The colorizer: errors of the substitution step *)

Lemma format_string_reraises :
  forall ext msg e,
    str_format ext palette (collapse msg) = Raise e ->
    (forall key, e <> KeyError key) ->
    format_string ext msg = Raise e.
Proof.
  intros ext msg e Hfmt Hkey. unfold format_string. rewrite Hfmt.
  destruct e; try reflexivity. exfalso. apply (Hkey key). reflexivity.
Qed.

(** C10: the colorizer suppresses the [KeyError] of the substitution step
    only. An unmatched single brace makes [str.format] raise [ValueError] and
    a positional placeholder makes it raise [IndexError]; both leave
    [format_string], whether the braces were written single or double. *)
Theorem format_string_malformed_raises :
  forall ext,
    format_string ext "{" = Raise ValueError
    /\ format_string ext "}" = Raise ValueError
    /\ format_string ext "{0}" = Raise IndexError
    /\ format_string ext "{{0}}" = Raise IndexError
    /\ format_string ext "{}" = Raise IndexError.
Proof. intros ext. repeat split; reflexivity. Qed.

(** ** Rounding to the nearest integer *)

Local Open Scope Q_scope.

#[export] Instance rne_proper : Proper (Qeq ==> eq) rne.
Proof.
  intros x y Hxy. unfold rne.
  assert (Hf : Qfloor x = Qfloor y) by (rewrite Hxy; reflexivity).
  rewrite Hf. rewrite Hxy. reflexivity.
Qed.

Lemma rne_cases :
  forall q,
    (rne q = Qfloor q /\ q - inject_Z (Qfloor q) <= 1 # 2)
    \/ (rne q = (Qfloor q + 1)%Z /\ 1 # 2 <= q - inject_Z (Qfloor q)).
Proof.
  intros q. unfold rne.
  destruct (Qcompare (q - inject_Z (Qfloor q)) (1 # 2)) eqn:Hc.
  - apply Qeq_alt in Hc.
    destruct (Z.even (Qfloor q)); [left | right]; split; try reflexivity;
      rewrite Hc; apply Qle_refl.
  - apply Qlt_alt in Hc. left. split; [reflexivity | apply Qlt_le_weak, Hc].
  - apply Qgt_alt in Hc. right. split; [reflexivity | apply Qlt_le_weak, Hc].
Qed.

Lemma inject_Z_succ : forall z, inject_Z (z + 1) == inject_Z z + 1.
Proof. intros z. rewrite inject_Z_plus. reflexivity. Qed.

(** The rounded integer is within one half of the rational. *)
Lemma rne_near :
  forall q, inject_Z (rne q) - (1 # 2) <= q /\ q <= inject_Z (rne q) + (1 # 2).
Proof.
  intros q.
  pose proof (Qfloor_le q) as Hlo. pose proof (Qlt_floor q) as Hhi.
  rewrite inject_Z_succ in Hhi.
  destruct (rne_cases q) as [[-> H] | [-> H]].
  - split; lra.
  - rewrite inject_Z_succ. split; lra.
Qed.

Lemma rne_inject_Z : forall z, rne (inject_Z z) = z.
Proof.
  intros z. unfold rne. rewrite Qfloor_Z.
  assert (H : inject_Z z - inject_Z z == 0) by ring.
  rewrite H. reflexivity.
Qed.

Lemma rne_le : forall x y, x <= y -> (rne x <= rne y)%Z.
Proof.
  intros x y Hxy.
  pose proof (Qfloor_resp_le _ _ Hxy) as Hf.
  pose proof (Qfloor_le y) as Hylo.
  destruct (Z.eq_dec (Qfloor x) (Qfloor y)) as [Heq | Hne].
  - unfold rne. rewrite Heq.
    destruct (Qcompare (x - inject_Z (Qfloor y)) (1 # 2)) eqn:Hx;
      destruct (Qcompare (y - inject_Z (Qfloor y)) (1 # 2)) eqn:Hy;
      try (destruct (Z.even (Qfloor y))); try lia;
      repeat match goal with
        | H : Qcompare _ _ = Eq |- _ => apply Qeq_alt in H
        | H : Qcompare _ _ = Lt |- _ => apply Qlt_alt in H
        | H : Qcompare _ _ = Gt |- _ => apply Qgt_alt in H
        end; exfalso; lra.
  - assert (Hlt : (Qfloor x + 1 <= Qfloor y)%Z) by lia.
    destruct (rne_cases x) as [[-> _] | [-> _]];
      destruct (rne_cases y) as [[-> _] | [-> _]]; lia.
Qed.

Lemma rne_nonneg : forall q, 0 <= q -> (0 <= rne q)%Z.
Proof.
  intros q Hq. change 0%Z with (rne (inject_Z 0)) at 1.
  rewrite <- (rne_inject_Z 0) at 1. apply rne_le. exact Hq.
Qed.

(** A tie goes to the even integer. *)
Lemma rne_half_even :
  forall z, Z.even z = true -> rne (inject_Z z + (1 # 2)) = z.
Proof.
  intros z Hz. unfold rne.
  assert (Hf : Qfloor (inject_Z z + (1 # 2)) = z).
  { apply Z.le_antisymm.
    - assert (H : (Qfloor (inject_Z z + (1 # 2)) < z + 1)%Z).
      { rewrite Zlt_Qlt. eapply Qle_lt_trans; [apply Qfloor_le |].
        rewrite inject_Z_succ. lra. }
      lia.
    - rewrite <- (Qfloor_Z z) at 1. apply Qfloor_resp_le. lra. }
  rewrite Hf.
  assert (H : inject_Z z + (1 # 2) - inject_Z z == 1 # 2) by ring.
  rewrite H. simpl. rewrite Hz. reflexivity.
Qed.

Local Close Scope Q_scope.

(** ** Rounding to binary64 *)

Local Open Scope Q_scope.

Lemma pow2_pos : forall e, 0 < pow2 e.
Proof. intros e. unfold pow2. apply Qpower_0_lt. reflexivity. Qed.

Lemma pow2_add : forall a b, pow2 (a + b) == pow2 a * pow2 b.
Proof. intros a b. unfold pow2. apply Qpower_plus. discriminate. Qed.

Lemma pow2_succ : forall a, pow2 (a + 1) == 2 * pow2 a.
Proof. intros a. rewrite pow2_add. change (pow2 1) with 2. ring. Qed.

Lemma pow2_le : forall a b, (a <= b)%Z -> pow2 a <= pow2 b.
Proof. intros a b H. unfold pow2. apply Qpower_le_compat_l; [exact H | discriminate]. Qed.

Lemma pow2_lt : forall a b, (a < b)%Z -> pow2 a < pow2 b.
Proof. intros a b H. unfold pow2. apply Qpower_lt_compat_l; [exact H | reflexivity]. Qed.

Lemma pow2_nonneg_Z : forall a, (0 <= a)%Z -> pow2 a == inject_Z (2 ^ a).
Proof. intros a H. unfold pow2. rewrite Zpower_Qpower by exact H. reflexivity. Qed.


Lemma pow2_sub : forall a b, pow2 (a - b) == pow2 a / pow2 b.
Proof.
  intros a b. unfold pow2, Z.sub. rewrite Qpower_plus by discriminate.
  rewrite Qpower_opp. reflexivity.
Qed.

Lemma Z_log2_pow2 :
  forall n, (0 < n)%Z ->
    pow2 (Z.log2 n) <= inject_Z n /\ inject_Z n < pow2 (Z.log2 n + 1).
Proof.
  intros n Hn. pose proof (Z.log2_spec n Hn) as [Hlo Hhi].
  pose proof (Z.log2_nonneg n) as Hnn.
  rewrite !pow2_nonneg_Z by lia. split.
  - rewrite <- Zle_Qle. exact Hlo.
  - rewrite <- Zlt_Qlt. exact Hhi.
Qed.

Lemma ilog2_spec :
  forall x, 0 < x -> pow2 (ilog2 x) <= x /\ x < pow2 (ilog2 x + 1).
Proof.
  intros [n d] Hx.
  assert (Hn : (0 < n)%Z).
  { unfold Qlt in Hx. simpl in Hx. lia. }
  unfold ilog2. cbn [Qnum Qden].
  set (a := Z.log2 n). set (b := Z.log2 (Zpos d)).
  destruct (Z_log2_pow2 n Hn) as [HnA HnA'].
  destruct (Z_log2_pow2 (Zpos d) eq_refl) as [HdB HdB'].
  fold a in HnA, HnA'. fold b in HdB, HdB'.
  rewrite pow2_succ in HnA', HdB'.
  pose proof (pow2_pos a) as HA. pose proof (pow2_pos b) as HB.
  assert (HD : 0 < inject_Z (Zpos d)) by reflexivity.
  assert (Hxq : n # d == inject_Z n / inject_Z (Zpos d)) by apply Qmake_Qdiv.
  destruct (Qle_bool (pow2 (a - b)) (n # d)) eqn:Hb.
  - apply Qle_bool_iff in Hb. split; [exact Hb |].
    rewrite pow2_succ, pow2_sub, Hxq.
    apply Qlt_shift_div_r; [exact HD |].
    assert (E : 2 * (pow2 a / pow2 b) * inject_Z (Zpos d)
                == (2 * pow2 a) * (inject_Z (Zpos d) / pow2 b)).
    { field. lra. }
    rewrite E.
    assert (H1 : 1 <= inject_Z (Zpos d) / pow2 b).
    { apply Qle_shift_div_l; [exact HB | lra]. }
    nra.
  - assert (Hlt : n # d < pow2 (a - b)).
    { apply Qnot_le_lt. intros H. apply Qle_bool_iff in H. congruence. }
    replace (a - b - 1 + 1)%Z with (a - b)%Z by lia.
    split; [| exact Hlt].
    assert (E : pow2 (a - b - 1) == pow2 a / (2 * pow2 b)).
    { replace (a - b - 1)%Z with (a - (b + 1))%Z by lia.
      rewrite pow2_sub, pow2_succ. reflexivity. }
    rewrite E, Hxq.
    apply Qle_shift_div_l; [exact HD |].
    assert (E2 : pow2 a / (2 * pow2 b) * inject_Z (Zpos d)
                 == pow2 a * (inject_Z (Zpos d) / (2 * pow2 b))).
    { field. lra. }
    rewrite E2.
    assert (H1 : inject_Z (Zpos d) / (2 * pow2 b) <= 1).
    { apply Qle_shift_div_r; [lra | lra]. }
    assert (H0 : 0 <= inject_Z (Zpos d) / (2 * pow2 b)).
    { apply Qle_shift_div_l; [lra | lra]. }
    nra.
Qed.

Lemma pow2_le_inv : forall a b, pow2 a < pow2 b -> (a < b)%Z.
Proof.
  intros a b H. destruct (Z_lt_le_dec a b) as [Hlt | Hge]; [exact Hlt |].
  apply pow2_le in Hge. lra.
Qed.

Lemma ilog2_le : forall x y, 0 < x -> x <= y -> (ilog2 x <= ilog2 y)%Z.
Proof.
  intros x y Hx Hxy.
  destruct (ilog2_spec x Hx) as [Hlo _].
  destruct (ilog2_spec y) as [_ Hhi]; [lra |].
  assert (H : (ilog2 x < ilog2 y + 1)%Z) by (apply pow2_le_inv; lra).
  lia.
Qed.

Lemma round_mag_eq :
  forall x, round_mag x == inject_Z (rne (x / pow2 (ulp_exp x))) * pow2 (ulp_exp x).
Proof. intros x. unfold round_mag. apply Qred_correct. Qed.

Lemma ilog2_unique :
  forall x l, pow2 l <= x -> x < pow2 (l + 1) -> ilog2 x = l.
Proof.
  intros x l Hlo Hhi.
  assert (Hx : 0 < x) by (pose proof (pow2_pos l); lra).
  destruct (ilog2_spec x Hx) as [Hlo' Hhi'].
  assert (H1 : (ilog2 x < l + 1)%Z) by (apply pow2_le_inv; lra).
  assert (H2 : (l < ilog2 x + 1)%Z) by (apply pow2_le_inv; lra).
  lia.
Qed.

Lemma ilog2_proper : forall x y, 0 < x -> x == y -> ilog2 x = ilog2 y.
Proof.
  intros x y Hx Hxy. symmetry.
  destruct (ilog2_spec x Hx) as [Hlo Hhi].
  apply ilog2_unique; rewrite <- Hxy; assumption.
Qed.

Lemma round_mag_zero : forall x, x == 0 -> round_mag x == 0.
Proof.
  intros x Hx. rewrite round_mag_eq.
  assert (H : x / pow2 (ulp_exp x) == inject_Z 0).
  { generalize (pow2 (ulp_exp x)). intros p. rewrite Hx. unfold Qdiv. ring. }
  rewrite H, rne_inject_Z. ring.
Qed.

Lemma round_mag_proper :
  forall x y, 0 <= x -> x == y -> round_mag x == round_mag y.
Proof.
  intros x y Hx Hxy.
  destruct (Qeq_dec x 0) as [Hz | Hnz].
  - rewrite (round_mag_zero x Hz), (round_mag_zero y); [reflexivity | lra].
  - assert (Hpos : 0 < x) by lra.
    rewrite !round_mag_eq.
    unfold ulp_exp. rewrite (ilog2_proper x y Hpos Hxy). rewrite Hxy. reflexivity.
Qed.

Lemma round_mag_nonneg : forall x, 0 <= x -> 0 <= round_mag x.
Proof.
  intros x Hx. rewrite round_mag_eq.
  pose proof (pow2_pos (ulp_exp x)) as Hp.
  assert (H : (0 <= rne (x / pow2 (ulp_exp x)))%Z).
  { apply rne_nonneg. apply Qle_shift_div_l; [exact Hp |].
    rewrite Qmult_0_l. exact Hx. }
  rewrite Zle_Qle in H. change (inject_Z 0) with 0 in H.
  apply Qmult_le_0_compat; [exact H | apply Qlt_le_weak, Hp].
Qed.

(** The scaled significand stays below [2^53], and reaches [2^52] for the
    normal numbers. *)
Lemma scaled_lt :
  forall x, 0 < x -> x / pow2 (ulp_exp x) < pow2 53.
Proof.
  intros x Hx. destruct (ilog2_spec x Hx) as [_ Hhi].
  pose proof (pow2_pos (ulp_exp x)) as Hp.
  apply Qlt_shift_div_r; [exact Hp |].
  rewrite <- pow2_add.
  eapply Qlt_le_trans; [exact Hhi |]. apply pow2_le. unfold ulp_exp. lia.
Qed.

Lemma scaled_ge :
  forall x, 0 < x -> (-1022 <= ilog2 x)%Z -> pow2 52 <= x / pow2 (ulp_exp x).
Proof.
  intros x Hx Hn. destruct (ilog2_spec x Hx) as [Hlo _].
  pose proof (pow2_pos (ulp_exp x)) as Hp.
  apply Qle_shift_div_l; [exact Hp |].
  rewrite <- pow2_add.
  eapply Qle_trans; [| exact Hlo]. apply pow2_le. unfold ulp_exp. lia.
Qed.

Lemma rne_scaled_le :
  forall x, 0 < x -> inject_Z (rne (x / pow2 (ulp_exp x))) <= pow2 53.
Proof.
  intros x Hx. rewrite (pow2_nonneg_Z 53) by lia.
  rewrite <- Zle_Qle. rewrite <- (rne_inject_Z (2 ^ 53)).
  apply rne_le. rewrite <- pow2_nonneg_Z by lia. apply Qlt_le_weak, scaled_lt, Hx.
Qed.

Lemma rne_scaled_ge :
  forall x, 0 < x -> (-1022 <= ilog2 x)%Z ->
    pow2 52 <= inject_Z (rne (x / pow2 (ulp_exp x))).
Proof.
  intros x Hx Hn. rewrite (pow2_nonneg_Z 52) by lia.
  rewrite <- Zle_Qle. rewrite <- (rne_inject_Z (2 ^ 52)).
  apply rne_le. rewrite <- pow2_nonneg_Z by lia. apply scaled_ge; assumption.
Qed.

(** Rounding is monotone. *)
Lemma round_mag_le :
  forall x y, 0 <= x -> x <= y -> round_mag x <= round_mag y.
Proof.
  intros x y Hx Hxy.
  destruct (Qeq_dec x 0) as [Hz | Hnz].
  { rewrite (round_mag_zero x Hz). apply round_mag_nonneg. lra. }
  assert (Hpx : 0 < x) by lra. assert (Hpy : 0 < y) by lra.
  pose proof (ilog2_le x y Hpx Hxy) as Hl.
  rewrite !round_mag_eq.
  pose proof (pow2_pos (ulp_exp x)) as Hex. pose proof (pow2_pos (ulp_exp y)) as Hey.
  destruct (Z.eq_dec (ulp_exp x) (ulp_exp y)) as [He | He].
  - rewrite He in *.
    assert (H : (rne (x / pow2 (ulp_exp y)) <= rne (y / pow2 (ulp_exp y)))%Z).
    { apply rne_le. apply Qle_shift_div_l; [exact Hey |].
      assert (E : x / pow2 (ulp_exp y) * pow2 (ulp_exp y) == x) by (field; lra).
      rewrite E. exact Hxy. }
    rewrite Zle_Qle in H. nra.
  - assert (Hlt : (ulp_exp x + 1 <= ulp_exp y)%Z) by (unfold ulp_exp in *; lia).
    assert (Hny : (-1022 <= ilog2 y)%Z) by (unfold ulp_exp in *; lia).
    assert (Hey' : ulp_exp y = (ilog2 y - 52)%Z) by (unfold ulp_exp in *; lia).
    pose proof (rne_scaled_le x Hpx) as H1.
    pose proof (rne_scaled_ge y Hpy Hny) as H2.
    apply Qle_trans with (pow2 53 * pow2 (ulp_exp x)); [nra |].
    apply Qle_trans with (pow2 52 * pow2 (ulp_exp y)); [| nra].
    rewrite <- !pow2_add. apply pow2_le. lia.
Qed.

(** A number with a significand of 53 bits at most is its own rounding. *)
Lemma round_mag_exact :
  forall m e, (0 <= m < 2 ^ 53)%Z -> (-1074 <= e)%Z ->
    round_mag (inject_Z m * pow2 e) == inject_Z m * pow2 e.
Proof.
  intros m e Hm He.
  destruct (Z.eq_dec m 0) as [-> | Hm0].
  { rewrite round_mag_zero; ring. }
  set (x := inject_Z m * pow2 e).
  pose proof (pow2_pos e) as Hpe.
  assert (Hx : 0 < x).
  { unfold x. assert (0 < inject_Z m) by (rewrite <- (Zlt_Qlt 0); lia). nra. }
  assert (Hxlt : x < pow2 (53 + e)).
  { unfold x. rewrite pow2_add, (pow2_nonneg_Z 53) by lia.
    assert (inject_Z m < inject_Z (2 ^ 53)) by (rewrite <- Zlt_Qlt; lia). nra. }
  destruct (ilog2_spec x Hx) as [Hlo _].
  assert (Hle : (ulp_exp x <= e)%Z).
  { assert (H : (ilog2 x < 53 + e)%Z) by (apply pow2_le_inv; lra).
    unfold ulp_exp. lia. }
  rewrite round_mag_eq.
  pose proof (pow2_pos (ulp_exp x)) as Hpu.
  assert (Ex : x == inject_Z m * pow2 e) by reflexivity.
  assert (E : x / pow2 (ulp_exp x) == inject_Z (m * 2 ^ (e - ulp_exp x))).
  { rewrite inject_Z_mult, <- pow2_nonneg_Z by lia. rewrite pow2_sub.
    revert Hpu. generalize (pow2 (ulp_exp x)). intros p Hp.
    unfold x. field. lra. }
  rewrite E, rne_inject_Z.
  rewrite inject_Z_mult, <- pow2_nonneg_Z by lia. rewrite pow2_sub.
  revert Hpu. generalize (pow2 (ulp_exp x)). intros p Hp. unfold x. field. lra.
Qed.

Lemma round_mag_inject_Z :
  forall m, (0 <= m < 2 ^ 53)%Z -> round_mag (inject_Z m) == inject_Z m.
Proof.
  intros m Hm.
  assert (E : inject_Z m == inject_Z m * pow2 0) by (change (pow2 0) with 1; ring).
  assert (H0 : 0 <= inject_Z m).
  { change 0 with (inject_Z 0). rewrite <- Zle_Qle. lia. }
  rewrite (round_mag_proper _ _ H0 E).
  rewrite round_mag_exact by lia. symmetry. exact E.
Qed.

(** The relative error of the rounding of a normal number. *)
Lemma round_mag_rel_lower :
  forall x, pow2 (-1022) <= x -> x * (1 - pow2 (-53)) <= round_mag x.
Proof.
  intros x Hn.
  assert (Hx : 0 < x) by (pose proof (pow2_pos (-1022)); lra).
  assert (Hl : (-1022 <= ilog2 x)%Z).
  { destruct (ilog2_spec x Hx) as [_ Hhi].
    assert (H : (-1022 < ilog2 x + 1)%Z) by (apply pow2_le_inv; lra). lia. }
  pose proof (scaled_ge x Hx Hl) as Hs.
  destruct (rne_near (x / pow2 (ulp_exp x))) as [_ Hr].
  pose proof (pow2_pos (ulp_exp x)) as Hp.
  rewrite round_mag_eq.
  set (y := x / pow2 (ulp_exp x)) in *.
  assert (Ex : x == y * pow2 (ulp_exp x)) by (unfold y; field; lra).
  assert (Hh : (1 # 2) <= y * pow2 (-53)).
  { assert (E : pow2 52 * pow2 (-53) == 1 # 2) by reflexivity.
    pose proof (pow2_pos (-53)). nra. }
  rewrite Ex at 1.
  assert (y * (1 - pow2 (-53)) <= inject_Z (rne y)) by lra.
  nra.
Qed.

Local Close Scope Q_scope.

(** ** Strings *)

Lemma length_append :
  forall a b, String.length (a ++ b) = (String.length a + String.length b)%nat.
Proof.
  intros a b. induction a as [| c a IH]; simpl; [reflexivity | now rewrite IH].
Qed.

Lemma len_append : forall a b, len (a ++ b) = (len a + len b)%Z.
Proof. intros a b. unfold len. rewrite length_append. lia. Qed.

Lemma append_assoc : forall a b c : string, (a ++ b) ++ c = a ++ (b ++ c).
Proof.
  intros a b c. induction a as [| x a IH]; simpl; [reflexivity | now rewrite IH].
Qed.

Lemma has_char_append :
  forall c a b, has_char c (a ++ b) = has_char c a || has_char c b.
Proof.
  intros c a b. induction a as [| x a IH]; simpl; [reflexivity |].
  rewrite IH. apply orb_assoc.
Qed.

Lemma length_repeat_nat :
  forall s n, String.length (repeat_nat s n) = (n * String.length s)%nat.
Proof.
  intros s n. induction n as [| n IH]; simpl; [reflexivity |].
  rewrite length_append, IH. reflexivity.
Qed.

Lemma len_str_mul :
  forall s n, len (str_mul s n) = (Z.max 0 n * len s)%Z.
Proof.
  intros s n. unfold len, str_mul. rewrite length_repeat_nat. lia.
Qed.

(** ** The progress bar at 50 of 100, width 10 *)

Lemma compute_percent_50_of_100 : compute_percent 50 100 = Ok (Fin false 50).
Proof. vm_compute. reflexivity. Qed.

(** C3 (as the code has it): for count 50, total 100, no previous percent
    and width 10 the bar is built as [[#####.....]], 10 wide with 5 filled
    segments; the 8-character label ["  50.0% "] then replaces its
    characters 4 to 11, the closing bracket among them. The line written is
    [[###], the label between the bright yellow and the reset code, and the
    suffix [" (50 of 100)"] with both numbers in bright white; 51 backspaces
    follow, one per character of the line. *)
Theorem display_progress_50_of_100_width_10 :
  build_done_str (Fin false 50) 10 "#" = Ok "#####"
  /\ build_empty_str (Fin false 50) 10 "." = Ok "....."
  /\ build_percent_str (Fin false 50) = Ok "  50.0% "
  /\ build_progress_left "[#####.....]" "  50.0% " = Ok "[###"
  /\ build_progress_right "[#####.....]" "  50.0% " = Ok ""
  /\ display_progress 50 100 None 10 "#" "." ""
     = Ok (Fin false 50,
           [Write line_50_of_100; Flush; Write (str_mul (chr BS) 51)]).
Proof. repeat split; vm_compute; reflexivity. Qed.

(** C3, refuted as stated: no closing bracket is left in the line written
    for count 50, total 100 and width 10. *)
Lemma display_progress_50_of_100_no_closing_bracket :
  exists percent line back,
    display_progress 50 100 None 10 "#" "." ""
    = Ok (percent, [Write line; Flush; Write back])
    /\ forall left right, line <> left ++ "]" ++ right.
Proof.
  exists (Fin false 50), line_50_of_100, (str_mul (chr BS) 51). split.
  - vm_compute. reflexivity.
  - intros left right H.
    assert (Hc : has_char "]" line_50_of_100 = true).
    { rewrite H, has_char_append. simpl. apply orb_true_r. }
    vm_compute in Hc. discriminate.
Qed.

(** ** The percentage label *)

(** C2, refuted as stated: the label of 50.0 has 8 characters, not 6:
    two spaces, the four characters of the number, the percent sign and a
    space. *)
Lemma percent_str_50_is_8_wide :
  compute_percent 50 100 = Ok (Fin false 50)
  /\ build_percent_str (Fin false 50) = Ok "  50.0% "
  /\ String.length "  50.0% " <> 6%nat.
Proof. repeat split; try (vm_compute; reflexivity). simpl. discriminate. Qed.

(** ** Results *)

Lemma bind_ok :
  forall (A B : Type) (r : result A) (k : A -> result B) (b : B),
    bind r k = Ok b -> exists a, r = Ok a /\ k a = Ok b.
Proof.
  intros A B r k b H. destruct r as [a | e]; simpl in H; [| discriminate].
  exists a. split; [reflexivity | exact H].
Qed.

Ltac bind_inv H :=
  let a := fresh "v" in
  let Ha := fresh "Hv" in
  apply bind_ok in H; destruct H as [a [Ha H]].

(** ** The write and the backspaces of the progress bar *)

(** What a call of [display_progress] that draws has written. *)
Lemma display_progress_drawn :
  forall count total old_percent width completed_char empty_char postpend_str percent out,
    display_progress count total old_percent width completed_char empty_char postpend_str
    = Ok (percent, out) ->
    out = []
    \/ exists left label right,
        build_percent_str percent = Ok label
        /\ out = [Write (left ++ BRIGHT_YELLOW ++ label ++ ENDC ++ right
                          ++ build_count_str count total ++ postpend_str);
                  Flush;
                  Write (str_mul (chr BS)
                           (len (left ++ BRIGHT_YELLOW ++ label ++ ENDC ++ right
                                  ++ build_count_str count total ++ postpend_str)))].
Proof.
  intros count total old_percent width completed_char empty_char postpend_str percent out H.
  unfold display_progress in H. bind_inv H.
  destruct (match old_percent with Some old => float_eqb v old | None => false end
            && negb (float_eqb v (Fin false 0))).
  - left. injection H as _ <-. reflexivity.
  - right. do 5 bind_inv H. injection H as <- <-.
    exists v3, v2, v4. split; [exact Hv2 |].
    repeat (progress (rewrite ?append_assoc; simpl)). reflexivity.
Qed.

Lemma length_count_str :
  forall count total,
    String.length (build_count_str count total)
    = (String.length (str_of_int count) + String.length (str_of_int total) + 25)%nat.
Proof.
  intros count total. unfold build_count_str.
  repeat (rewrite length_append; simpl). lia.
Qed.

Lemma length_str_mul_char :
  forall c n, String.length (str_mul (chr c) n) = Z.to_nat n.
Proof.
  intros c n. unfold str_mul. rewrite length_repeat_nat. simpl. lia.
Qed.

(** For count 50, total 100 and width 10 the line has 24 visible characters
    and 51 backspaces follow it; a cursor that was in column 30 before the
    call is in column 3 after it. *)
Lemma display_progress_backspaces_exceed_visible :
  exists percent line back,
    display_progress 50 100 None 10 "#" "." ""
    = Ok (percent, [Write line; Flush; Write back])
    /\ visible_length line = 24%nat
    /\ String.length back = 51%nat
    /\ cursor_after (TText, 30%nat) [Write line; Flush; Write back] = (TText, 3%nat).
Proof.
  exists (Fin false 50), line_50_of_100, (str_mul (chr BS) 51).
  repeat split; vm_compute; reflexivity.
Qed.

(** ** Bounds on the float operations *)

Local Open Scope Q_scope.

(** The rounding of a non-negative rational has a significand of 53 bits. *)
Lemma round_mag_representable :
  forall x, 0 <= x ->
    exists m e, (0 <= m < 2 ^ 53)%Z /\ (-1074 <= e)%Z
                /\ round_mag x == inject_Z m * pow2 e.
Proof.
  intros x Hx.
  destruct (Qeq_dec x 0) as [Hz | Hnz].
  { exists 0%Z, 0%Z. repeat split; try lia. rewrite (round_mag_zero x Hz). ring. }
  assert (Hpos : 0 < x) by lra.
  pose proof (rne_scaled_le x Hpos) as Hle.
  rewrite (pow2_nonneg_Z 53) in Hle by lia. rewrite <- Zle_Qle in Hle.
  assert (Hge : (0 <= rne (x / pow2 (ulp_exp x)))%Z).
  { apply rne_nonneg. apply Qle_shift_div_l; [apply pow2_pos |].
    rewrite Qmult_0_l. exact Hx. }
  assert (He : (-1074 <= ulp_exp x)%Z) by (unfold ulp_exp; lia).
  destruct (Z.eq_dec (rne (x / pow2 (ulp_exp x))) (2 ^ 53)) as [Heq | Hne].
  - exists (2 ^ 52)%Z, (ulp_exp x + 1)%Z. repeat split; try lia.
    rewrite round_mag_eq, Heq, pow2_succ.
    change (inject_Z (2 ^ 53)) with (2 * inject_Z (2 ^ 52)). ring.
  - exists (rne (x / pow2 (ulp_exp x))), (ulp_exp x). repeat split; try lia.
    apply round_mag_eq.
Qed.

Lemma round_mag_idem :
  forall x, 0 <= x -> round_mag (round_mag x) == round_mag x.
Proof.
  intros x Hx.
  destruct (round_mag_representable x Hx) as [m [e [Hm [He Hr]]]].
  rewrite (round_mag_proper _ _ (round_mag_nonneg x Hx) Hr).
  rewrite round_mag_exact by assumption. symmetry. exact Hr.
Qed.

(** Rounding does not cross a binary64 number. *)
Lemma round_mag_le_round :
  forall x y, 0 <= x -> 0 <= y -> x <= round_mag y -> round_mag x <= round_mag y.
Proof.
  intros x y Hx Hy H. rewrite <- (round_mag_idem y Hy).
  apply round_mag_le; assumption.
Qed.

Lemma round_mag_le_Z :
  forall x m, 0 <= x -> (0 <= m < 2 ^ 53)%Z -> x <= inject_Z m -> round_mag x <= inject_Z m.
Proof.
  intros x m Hx Hm H. rewrite <- (round_mag_inject_Z m Hm).
  apply round_mag_le; assumption.
Qed.

Lemma round_mag_ge_Z :
  forall x m, (0 <= m < 2 ^ 53)%Z -> inject_Z m <= x -> inject_Z m <= round_mag x.
Proof.
  intros x m Hm H. rewrite <- (round_mag_inject_Z m Hm).
  apply round_mag_le; [| exact H].
  change 0 with (inject_Z 0). rewrite <- Zle_Qle. lia.
Qed.

Lemma round_mag_pow2 :
  forall e, (-1074 <= e)%Z -> round_mag (pow2 e) == pow2 e.
Proof.
  intros e He.
  assert (E : pow2 e == inject_Z 1 * pow2 e) by ring.
  rewrite (round_mag_proper _ _ (Qlt_le_weak _ _ (pow2_pos e)) E).
  rewrite round_mag_exact by lia. symmetry. exact E.
Qed.

(** No overflow below [2^1023]. *)
Lemma round_float_fin :
  forall neg x, 0 <= x -> x <= pow2 1023 -> round_float neg x = Fin neg (round_mag x).
Proof.
  intros neg x Hx Hle. unfold round_float.
  assert (H : round_mag x <= pow2 1023).
  { rewrite <- (round_mag_pow2 1023) by lia. apply round_mag_le; assumption. }
  destruct (Qle_bool (pow2 1024) (round_mag x)) eqn:Hb; [| reflexivity].
  apply Qle_bool_iff in Hb. pose proof (pow2_lt 1023 1024 ltac:(lia)). lra.
Qed.

Lemma inject_Z_nonneg : forall z, (0 <= z)%Z -> 0 <= inject_Z z.
Proof. intros z H. change 0 with (inject_Z 0). rewrite <- Zle_Qle. exact H. Qed.

Lemma round_mag_le_pow2_1023 :
  forall x, 0 <= x -> x <= pow2 1023 -> round_mag x <= pow2 1023.
Proof.
  intros x Hx H. rewrite <- (round_mag_pow2 1023) by lia.
  apply round_mag_le; assumption.
Qed.

Lemma py_float_nonneg :
  forall n, (0 <= n)%Z -> inject_Z n <= pow2 1023 ->
    py_float n = Ok (Fin false (round_mag (inject_Z n))).
Proof.
  intros n Hn Hle. unfold py_float.
  assert (Hs : (n <? 0)%Z = false) by (apply Z.ltb_ge; exact Hn).
  rewrite Hs, Z.abs_eq by exact Hn.
  rewrite round_float_fin; [reflexivity | apply inject_Z_nonneg, Hn | exact Hle].
Qed.

Lemma py_float_100 : py_float 100 = Ok (Fin false 100).
Proof. vm_compute. reflexivity. Qed.

Lemma small_le_pow2_1023 : 128 <= pow2 1023.
Proof. change 128 with (pow2 7). apply pow2_le. lia. Qed.

Lemma bind_Ok_eq :
  forall (A B : Type) (r : result A) (a : A) (k : A -> result B),
    r = Ok a -> bind r k = k a.
Proof. intros A B r a k ->. reflexivity. Qed.

Lemma fmul_fin :
  forall s m t n, fmul (Fin s m) (Fin t n) = round_float (xorb s t) (m * n).
Proof. reflexivity. Qed.

Lemma py_truediv_fin :
  forall s m t n, Qeq_bool n 0 = false ->
    py_truediv (Fin s m) (Fin t n) = Ok (round_float (xorb s t) (m / n)).
Proof. intros s m t n H. unfold py_truediv, is_zero. rewrite H. reflexivity. Qed.

Lemma py_round_ndigits_fin :
  forall s m nd,
    py_round_ndigits (Fin s m) nd
    = Fin s (round_mag (inject_Z (rne (m * pow10 nd)) / pow10 nd)).
Proof. reflexivity. Qed.

Lemma Qeq_bool_pos : forall x, 0 < x -> Qeq_bool x 0 = false.
Proof.
  intros x Hx. apply not_true_is_false. intros H. apply Qeq_bool_iff in H. lra.
Qed.

(** [count * 1.0] for a count between 0 and the total. *)
Lemma ratio_range :
  forall count total,
    (0 <= count <= total)%Z -> (0 < total)%Z -> inject_Z total <= pow2 1023 ->
    exists c T,
      py_float count = Ok (Fin false c)
      /\ py_float total = Ok (Fin false T)
      /\ 0 <= c /\ c <= T /\ 1 <= T /\ T <= pow2 1023
      /\ round_mag T == T.
Proof.
  intros count total Hc Ht Hmax.
  assert (Hcq : 0 <= inject_Z count) by (apply inject_Z_nonneg; lia).
  assert (Htq : 1 <= inject_Z total).
  { change 1 with (inject_Z 1). rewrite <- Zle_Qle. lia. }
  assert (Hct : inject_Z count <= inject_Z total) by (rewrite <- Zle_Qle; lia).
  exists (round_mag (inject_Z count)), (round_mag (inject_Z total)).
  split; [apply py_float_nonneg; [lia | lra] |].
  split; [apply py_float_nonneg; [lia | lra] |].
  split; [apply round_mag_nonneg; exact Hcq |].
  split; [apply round_mag_le; assumption |].
  split; [apply (round_mag_ge_Z _ 1); [lia | exact Htq] |].
  split; [apply round_mag_le_pow2_1023; lra |].
  apply round_mag_idem. lra.
Qed.

(** The percent of a count between 0 and the total lies between 0 and 100. *)
Lemma compute_percent_range :
  forall count total,
    (0 <= count <= total)%Z -> (0 < total)%Z -> inject_Z total <= pow2 1023 ->
    exists p, compute_percent count total = Ok (Fin false p) /\ 0 <= p /\ p <= 100.
Proof.
  intros count total Hc Ht Hmax.
  destruct (ratio_range count total Hc Ht Hmax)
    as [c [T [Hpc [Hpt [Hc0 [HcT [HT1 [HTmax HTid]]]]]]]].
  pose proof small_le_pow2_1023 as H1023.
  unfold compute_percent.
  rewrite (bind_Ok_eq _ _ _ _ _ Hpc). cbv beta.
  rewrite (bind_Ok_eq _ _ _ _ _ Hpt). cbv beta.
  rewrite fmul_fin, (round_float_fin _ (c * 1)) by lra.
  assert (Hc1 : 0 <= round_mag (c * 1)) by (apply round_mag_nonneg; lra).
  assert (Hc1T : round_mag (c * 1) <= T).
  { rewrite <- HTid. apply round_mag_le; lra. }
  remember (round_mag (c * 1)) as c1 eqn:Heqc1. clear Heqc1.
  rewrite (bind_Ok_eq _ _ _ _ _ (py_truediv_fin _ c1 _ T (Qeq_bool_pos T ltac:(lra)))).
  cbv beta.
  assert (Hr0 : 0 <= c1 / T) by (apply Qle_shift_div_l; [lra | rewrite Qmult_0_l; lra]).
  assert (Hr1 : c1 / T <= 1) by (apply Qle_shift_div_r; [lra | rewrite Qmult_1_l; lra]).
  rewrite (round_float_fin _ (c1 / T)) by lra.
  assert (Hrr0 : 0 <= round_mag (c1 / T)) by (apply round_mag_nonneg; exact Hr0).
  assert (Hrr1 : round_mag (c1 / T) <= 1).
  { apply (round_mag_le_Z _ 1); [exact Hr0 | lia | exact Hr1]. }
  remember (round_mag (c1 / T)) as r eqn:Heqr. clear Heqr.
  rewrite (bind_Ok_eq _ _ _ _ _ py_float_100). cbv beta.
  rewrite fmul_fin, (round_float_fin _ (r * 100)) by lra.
  assert (Hp0 : 0 <= round_mag (r * 100)) by (apply round_mag_nonneg; lra).
  assert (Hp1 : round_mag (r * 100) <= 100).
  { apply (round_mag_le_Z _ 100); [lra | lia |]. change (inject_Z 100) with 100. lra. }
  remember (round_mag (r * 100)) as p1 eqn:Heqp1. clear Heqp1.
  rewrite py_round_ndigits_fin.
  assert (Ht0 : (0 <= rne (p1 * pow10 1))%Z).
  { apply rne_nonneg. change (pow10 1) with 10. lra. }
  assert (Ht1 : (rne (p1 * pow10 1) <= 1000)%Z).
  { rewrite <- (rne_inject_Z 1000). apply rne_le.
    change (pow10 1) with 10. change (inject_Z 1000) with 1000. lra. }
  remember (rne (p1 * pow10 1)) as t eqn:Heqt. clear Heqt.
  assert (Hq0 : 0 <= inject_Z t / pow10 1).
  { apply Qle_shift_div_l; [reflexivity |]. rewrite Qmult_0_l. apply inject_Z_nonneg, Ht0. }
  exists (round_mag (inject_Z t / pow10 1)).
  split; [reflexivity |].
  split; [apply round_mag_nonneg; exact Hq0 |].
  apply (round_mag_le_Z _ 100); [exact Hq0 | lia |].
  apply Qle_shift_div_r; [reflexivity |].
  change (inject_Z 100 * pow10 1) with (inject_Z 1000). rewrite <- Zle_Qle. exact Ht1.
Qed.

Lemma py_int_truediv_pos :
  forall a b, (0 <= a)%Z -> (0 < b)%Z -> inject_Z a / inject_Z b <= pow2 1023 ->
    py_int_truediv a b = Ok (Fin false (round_mag (inject_Z a / inject_Z b))).
Proof.
  intros a b Ha Hb Hle. unfold py_int_truediv.
  assert (Hb0 : (b =? 0)%Z = false) by (apply Z.eqb_neq; lia).
  assert (Has : (a <? 0)%Z = false) by (apply Z.ltb_ge; lia).
  assert (Hbs : (b <? 0)%Z = false) by (apply Z.ltb_ge; lia).
  rewrite Hb0, Has, Hbs, (Z.abs_eq a), (Z.abs_eq b) by lia.
  rewrite round_float_fin; [reflexivity | | exact Hle].
  apply Qle_shift_div_l.
  - change 0 with (inject_Z 0). rewrite <- Zlt_Qlt. exact Hb.
  - rewrite Qmult_0_l. apply inject_Z_nonneg, Ha.
Qed.

Lemma pow2_m53 : pow2 (-53) == 1 # 9007199254740992.
Proof. reflexivity. Qed.

(** [100 / width], the width of a segment in percent. *)
Lemma per_segment_range :
  forall width,
    (2 <= width < 2 ^ 52)%Z ->
    exists r, py_int_truediv 100 width = Ok (Fin false r)
              /\ 0 < r /\ 100 <= r * (inject_Z width + (1 # 2)).
Proof.
  intros width Hw.
  pose proof small_le_pow2_1023 as H1023.
  assert (HW2 : 2 <= inject_Z width).
  { change 2 with (inject_Z 2). rewrite <- Zle_Qle. lia. }
  assert (HWmax : inject_Z width <= 4503599627370495).
  { change 4503599627370495 with (inject_Z (2 ^ 52 - 1)). rewrite <- Zle_Qle. lia. }
  remember (inject_Z width) as W eqn:HeqW.
  assert (HA0 : 0 < 100 / W).
  { apply Qlt_shift_div_l; [lra | rewrite Qmult_0_l; reflexivity]. }
  assert (HA1 : 100 / W <= 50).
  { apply Qle_shift_div_r; [lra | lra]. }
  assert (HAW : 100 / W * W == 100) by (field; lra).
  assert (Hdiv : py_int_truediv 100 width
                 = Ok (Fin false (round_mag (100 / W)))).
  { rewrite HeqW. apply py_int_truediv_pos; [lia | lia |].
    rewrite <- HeqW. change (inject_Z 100) with 100. lra. }
  assert (Hnorm : pow2 (-1022) <= 100 / W).
  { apply Qle_shift_div_l; [lra |].
    apply Qle_trans with (pow2 (-1022) * pow2 52).
    - apply Qmult_le_l; [apply pow2_pos |].
      change (pow2 52) with 4503599627370496. lra.
    - rewrite <- pow2_add. apply Qle_trans with (pow2 0); [apply pow2_le; lia |].
      change (pow2 0) with 1. lra. }
  pose proof (round_mag_rel_lower (100 / W) Hnorm) as Hlow.
  rewrite pow2_m53 in Hlow.
  remember (100 / W) as A eqn:HeqA.
  exists (round_mag A). split; [exact Hdiv |].
  remember (round_mag A) as r eqn:Heqr.
  assert (Hr0 : 0 < r) by nra.
  split; [exact Hr0 |].
  assert (H1 : 200 * (1 # 9007199254740992) <= A * (1 - (1 # 9007199254740992))).
  { assert (E : A * (1 - (1 # 9007199254740992)) - 200 * (1 # 9007199254740992)
                == A * ((1 - (1 # 9007199254740992)) - 2 * (1 # 9007199254740992) * W)).
    { nra. }
    assert (H2 : 0 <= (1 - (1 # 9007199254740992)) - 2 * (1 # 9007199254740992) * W) by lra.
    assert (H3 : 0 <= A * ((1 - (1 # 9007199254740992)) - 2 * (1 # 9007199254740992) * W)).
    { apply Qmult_le_0_compat; lra. }
    lra. }
  assert (H4 : A * (1 - (1 # 9007199254740992)) * (W + (1 # 2)) <= r * (W + (1 # 2))).
  { apply Qmult_le_compat_r; lra. }
  assert (E2 : A * (1 - (1 # 9007199254740992)) * (W + (1 # 2))
               == 100 * (1 - (1 # 9007199254740992))
                  + A * (1 - (1 # 9007199254740992)) * (1 # 2)).
  { nra. }
  lra.
Qed.

(** [percent / (100 / width)] for a percent between 0 and 100 is at most
    [width + 1/2]. *)
Lemma segments_range :
  forall p width,
    0 <= p -> p <= 100 -> (2 <= width < 2 ^ 52)%Z ->
    exists q, segments (Fin false p) width = Ok (Fin false q)
              /\ 0 <= q /\ q <= inject_Z width + (1 # 2).
Proof.
  intros p width Hp0 Hp1 Hw.
  destruct (per_segment_range width Hw) as [r [Hdiv [Hr0 Hkey]]].
  assert (HW2 : 2 <= inject_Z width).
  { change 2 with (inject_Z 2). rewrite <- Zle_Qle. lia. }
  assert (HWmax : inject_Z width <= 4503599627370495).
  { change 4503599627370495 with (inject_Z (2 ^ 52 - 1)). rewrite <- Zle_Qle. lia. }
  unfold segments.
  rewrite (bind_Ok_eq _ _ _ _ _ Hdiv). cbv beta.
  rewrite (py_truediv_fin _ p _ r (Qeq_bool_pos r Hr0)).
  assert (Hq0 : 0 <= p / r).
  { apply Qle_shift_div_l; [exact Hr0 | rewrite Qmult_0_l; exact Hp0]. }
  assert (Hq1 : p / r <= inject_Z width + (1 # 2)).
  { apply Qle_shift_div_r; [exact Hr0 | lra]. }
  assert (Hbig : inject_Z width + (1 # 2) <= pow2 1023).
  { apply Qle_trans with (pow2 53); [| apply pow2_le; lia].
    change (pow2 53) with 9007199254740992. lra. }
  rewrite round_float_fin by lra.
  exists (round_mag (p / r)). split; [reflexivity |].
  split; [apply round_mag_nonneg; exact Hq0 |].
  assert (Ehalf : inject_Z width + (1 # 2) == inject_Z (2 * width + 1) * pow2 (-1)).
  { rewrite inject_Z_plus, inject_Z_mult.
    change (pow2 (-1)) with (1 # 2). change (inject_Z 2) with 2.
    change (inject_Z 1) with 1. ring. }
  rewrite Ehalf. rewrite <- (round_mag_exact (2 * width + 1) (-1)) by lia.
  apply round_mag_le; [exact Hq0 |]. rewrite <- Ehalf. exact Hq1.
Qed.

Lemma py_round_fin_pos : forall q, py_round (Fin false q) = Ok (rne q).
Proof. reflexivity. Qed.

Lemma py_int_fin_pos : forall q, py_int (Fin false q) = Ok (Qfloor q).
Proof. reflexivity. Qed.

(** [int(round(q, 0))] and [round(q)] agree for a small non-negative [q]. *)
Lemma int_round_0 :
  forall q, 0 <= q -> (rne q < 2 ^ 53)%Z ->
    py_int (py_round_ndigits (Fin false q) 0) = Ok (rne q).
Proof.
  intros q Hq Hk. rewrite py_round_ndigits_fin, py_int_fin_pos. f_equal.
  assert (Hk0 : (0 <= rne q)%Z) by (apply rne_nonneg; exact Hq).
  assert (E1 : q * pow10 0 == q) by (change (pow10 0) with 1; ring).
  rewrite E1.
  assert (E2 : inject_Z (rne q) / pow10 0 == inject_Z (rne q)).
  { change (pow10 0) with 1. field. }
  assert (E3 : round_mag (inject_Z (rne q) / pow10 0) == inject_Z (rne q)).
  { rewrite (round_mag_proper _ (inject_Z (rne q))).
    - apply round_mag_inject_Z. lia.
    - rewrite E2. apply inject_Z_nonneg, Hk0.
    - exact E2. }
  rewrite E3. apply Qfloor_Z.
Qed.

Lemma even_width_even : forall width, Z.even width = true -> even_width width = width.
Proof.
  intros width H. unfold even_width.
  rewrite Zeven_mod in H. rewrite H. reflexivity.
Qed.

(** The number of filled segments for a percent between 0 and 100. *)
Lemma filled_range :
  forall p width,
    0 <= p -> p <= 100 -> (2 <= width < 2 ^ 52)%Z -> Z.even width = true ->
    exists filled,
      (0 <= filled <= width)%Z
      /\ (forall completed_char,
             build_done_str (Fin false p) width completed_char
             = Ok (str_mul completed_char filled))
      /\ (forall empty_char,
             build_empty_str (Fin false p) width empty_char
             = Ok (str_mul empty_char (width - filled))).
Proof.
  intros p width Hp0 Hp1 Hw Heven.
  destruct (segments_range p width Hp0 Hp1 Hw) as [q [Hseg [Hq0 Hq1]]].
  assert (Hk0 : (0 <= rne q)%Z) by (apply rne_nonneg; exact Hq0).
  assert (Hk1 : (rne q <= width)%Z).
  { rewrite <- (rne_half_even width Heven). apply rne_le. exact Hq1. }
  exists (rne q). split; [lia |]. split.
  - intros completed_char. unfold build_done_str.
    rewrite (bind_Ok_eq _ _ _ _ _ Hseg). cbv beta.
    rewrite (bind_Ok_eq _ _ _ _ _ (int_round_0 q Hq0 ltac:(lia))). reflexivity.
  - intros empty_char. unfold build_empty_str.
    rewrite (bind_Ok_eq _ _ _ _ _ Hseg). cbv beta.
    rewrite (bind_Ok_eq _ _ _ _ _ (py_round_fin_pos q)). reflexivity.
Qed.

Local Close Scope Q_scope.

(** ** The width of the bar between the brackets *)

Lemma len_one_char : forall s, String.length s = 1%nat -> len s = 1%Z.
Proof. intros s H. unfold len. rewrite H. reflexivity. Qed.

Lemma even_positive_ge_2 : forall width, (0 < width)%Z -> Z.even width = true -> (2 <= width)%Z.
Proof.
  intros width Hpos Heven.
  destruct (Z.eq_dec width 1) as [-> | Hne]; [discriminate | lia].
Qed.

(** C9: for a total above 0, a count between 0 and the total and an even width
    above 0, the filled segments and the empty segments between the brackets
    are exactly [width] characters together, and the number of empty ones,
    the width minus the rounded number of segments, is not negative. (The
    total is at most [2^1023], so that it converts to a float, and the width
    is below [2^52]; the segment characters are single characters.) When the
    count is above the total, as for 300 of 100 at width 10, the filled
    segments exceed the width and the empty part is the empty string. *)
Theorem bar_interior_width :
  (forall count total width completed_char empty_char,
      (0 <= count <= total)%Z -> (0 < total <= 2 ^ 1023)%Z ->
      (0 < width < 2 ^ 52)%Z -> Z.even width = true ->
      String.length completed_char = 1%nat -> String.length empty_char = 1%nat ->
      exists percent filled done_str empty_str,
        compute_percent count total = Ok percent
        /\ (0 <= filled <= width)%Z
        /\ build_done_str percent (even_width width) completed_char = Ok done_str
        /\ build_empty_str percent (even_width width) empty_char = Ok empty_str
        /\ len done_str = filled
        /\ len empty_str = (width - filled)%Z
        /\ len (done_str ++ empty_str) = width)
  /\ (exists percent done_str,
         compute_percent 300 100 = Ok percent
         /\ build_done_str percent (even_width 10) "#" = Ok done_str
         /\ build_empty_str percent (even_width 10) "." = Ok ""
         /\ len done_str = 30%Z).
Proof.
  split.
  - intros count total width completed_char empty_char Hc Ht Hw Heven Hcc Hec.
    assert (Hmax : (inject_Z total <= pow2 1023)%Q).
    { rewrite pow2_nonneg_Z by lia. rewrite <- Zle_Qle. lia. }
    destruct (compute_percent_range count total Hc ltac:(lia) Hmax)
      as [p [Hp [Hp0 Hp1]]].
    pose proof (even_positive_ge_2 width ltac:(lia) Heven) as Hw2.
    destruct (filled_range p width Hp0 Hp1 ltac:(lia) Heven)
      as [filled [Hf [Hdone Hempty]]].
    exists (Fin false p), filled,
      (str_mul completed_char filled), (str_mul empty_char (width - filled)).
    rewrite (even_width_even width Heven).
    split; [exact Hp |]. split; [exact Hf |].
    split; [apply Hdone |]. split; [apply Hempty |].
    assert (Hd : len (str_mul completed_char filled) = filled).
    { rewrite len_str_mul, (len_one_char _ Hcc). lia. }
    assert (He : len (str_mul empty_char (width - filled)) = (width - filled)%Z).
    { rewrite len_str_mul, (len_one_char _ Hec). lia. }
    split; [exact Hd |]. split; [exact He |].
    rewrite len_append, Hd, He. lia.
  - exists (Fin false 300), (str_mul "#" 30).
    repeat split; vm_compute; reflexivity.
Qed.

Lemma bar_interior_width_witness :
  exists percent filled done_str empty_str,
    compute_percent 50 100 = Ok percent
    /\ (0 <= filled <= 10)%Z
    /\ build_done_str percent (even_width 10) "#" = Ok done_str
    /\ build_empty_str percent (even_width 10) "." = Ok empty_str
    /\ len done_str = filled
    /\ len empty_str = (10 - filled)%Z
    /\ len (done_str ++ empty_str) = 10%Z.
Proof.
  apply (proj1 bar_interior_width 50%Z 100%Z 10%Z "#" ".").
  - lia.
  - split; [reflexivity | apply Z.leb_le; reflexivity].
  - split; reflexivity.
  - reflexivity.
  - reflexivity.
  - reflexivity.
Defined.

(** ** The slices of the bar always exist *)

Local Open Scope Q_scope.

Lemma pow2_1000_le : pow2 1000 + pow2 1000 <= pow2 1023.
Proof.
  apply Qle_trans with (pow2 (1000 + 1)); [| apply pow2_le; lia].
  rewrite pow2_succ. lra.
Qed.

(** The sum of two finite floats that are not too large is finite. *)
Lemma fadd_fin :
  forall s m t n, 0 <= m -> 0 <= n -> m <= pow2 1000 -> n <= pow2 1000 ->
    exists s' m', fadd (Fin s m) (Fin t n) = Fin s' m' /\ 0 <= m' /\ m' <= pow2 1023.
Proof.
  intros s m t n Hm Hn Hm1 Hn1. pose proof pow2_1000_le as Hsum.
  unfold fadd.
  destruct (Qeq_bool (signed s m + signed t n) 0).
  - exists (s && t)%bool, 0. split; [reflexivity |]. split; [lra |].
    apply Qlt_le_weak, pow2_pos.
  - assert (Habs : Qabs (signed s m + signed t n) <= pow2 1023).
    { apply Qabs_Qle_condition. unfold signed. destruct s, t; lra. }
    rewrite round_float_fin; [| apply Qabs_nonneg | exact Habs].
    eexists _, _. split; [reflexivity |].
    split; [apply round_mag_nonneg, Qabs_nonneg |].
    apply round_mag_le_pow2_1023; [apply Qabs_nonneg | exact Habs].
Qed.

Lemma len_nonneg : forall s, (0 <= len s)%Z.
Proof. intros s. unfold len. lia. Qed.

(** Half the length of a string, as a float. *)
Lemma half_len_fin :
  forall s, inject_Z (len s) <= pow2 1000 ->
    exists h, py_int_truediv (len s) 2 = Ok (Fin false h) /\ 0 <= h /\ h <= pow2 1000.
Proof.
  intros s Hs. pose proof (len_nonneg s) as H0. apply inject_Z_nonneg in H0.
  assert (Hq0 : 0 <= inject_Z (len s) / inject_Z 2).
  { apply Qle_shift_div_l; [reflexivity | rewrite Qmult_0_l; exact H0]. }
  assert (Hq1 : inject_Z (len s) / inject_Z 2 <= pow2 1000).
  { apply Qle_shift_div_r; [reflexivity |]. change (inject_Z 2) with 2.
    pose proof (pow2_pos 1000). lra. }
  exists (round_mag (inject_Z (len s) / inject_Z 2)).
  split; [| split].
  - apply py_int_truediv_pos; [apply len_nonneg | lia |].
    apply Qle_trans with (pow2 1000); [exact Hq1 | apply pow2_le; lia].
  - apply round_mag_nonneg. exact Hq0.
  - rewrite <- (round_mag_pow2 1000) by lia. apply round_mag_le; assumption.
Qed.

Lemma py_int_fin : forall s m, exists z, py_int (Fin s m) = Ok z.
Proof. intros s m. eexists. reflexivity. Qed.

Lemma build_progress_left_ok :
  forall bar label,
    inject_Z (len bar) <= pow2 1000 -> inject_Z (len label) <= pow2 1000 ->
    exists left, build_progress_left bar label = Ok left.
Proof.
  intros bar label Hb Hl.
  destruct (half_len_fin bar Hb) as [h [Hh [Hh0 Hh1]]].
  destruct (half_len_fin label Hl) as [l [Hlh [Hl0 Hl1]]].
  unfold build_progress_left.
  rewrite (bind_Ok_eq _ _ _ _ _ Hh). cbv beta.
  rewrite (bind_Ok_eq _ _ _ _ _ Hlh). cbv beta.
  assert (Hfl : math_floor (Fin false l) = Ok (Qfloor l)) by reflexivity.
  rewrite (bind_Ok_eq _ _ _ _ _ Hfl). cbv beta.
  assert (Hf0 : (0 <= Qfloor l)%Z).
  { rewrite <- (Qfloor_Z 0). apply Qfloor_resp_le. exact Hl0. }
  pose proof (Qfloor_le l) as Hfle.
  assert (Hpf : py_float (Qfloor l) = Ok (Fin false (round_mag (inject_Z (Qfloor l))))).
  { apply py_float_nonneg; [exact Hf0 |].
    apply Qle_trans with (pow2 1000); [lra | apply pow2_le; lia]. }
  rewrite (bind_Ok_eq _ _ _ _ _ Hpf). cbv beta.
  assert (Hr0 : 0 <= round_mag (inject_Z (Qfloor l))).
  { apply round_mag_nonneg, inject_Z_nonneg, Hf0. }
  assert (Hr1 : round_mag (inject_Z (Qfloor l)) <= pow2 1000).
  { rewrite <- (round_mag_pow2 1000) by lia.
    apply round_mag_le; [apply inject_Z_nonneg, Hf0 | lra]. }
  unfold fsub, fneg.
  destruct (fadd_fin false h (negb false) _ Hh0 Hr0 Hh1 Hr1) as [s' [m' [Hadd _]]].
  rewrite Hadd.
  destruct (py_int_fin s' m') as [z Hz].
  rewrite (bind_Ok_eq _ _ _ _ _ Hz). eexists. reflexivity.
Qed.

Lemma build_progress_right_ok :
  forall bar label,
    inject_Z (len bar) <= pow2 1000 -> inject_Z (len label) <= pow2 900 ->
    exists right, build_progress_right bar label = Ok right.
Proof.
  intros bar label Hb Hl.
  destruct (half_len_fin bar Hb) as [h [Hh [Hh0 Hh1]]].
  assert (H900 : pow2 900 + 1 <= pow2 1000).
  { apply Qle_trans with (pow2 (900 + 1)); [| apply pow2_le; lia].
    rewrite pow2_succ.
    assert (1 <= pow2 900) by (change 1 with (pow2 0); apply pow2_le; lia). lra. }
  pose proof (len_nonneg label) as Hlen0. apply inject_Z_nonneg in Hlen0.
  assert (Hq0 : 0 <= inject_Z (len label) / inject_Z 2).
  { apply Qle_shift_div_l; [reflexivity | rewrite Qmult_0_l; exact Hlen0]. }
  assert (Hq1 : inject_Z (len label) / inject_Z 2 <= pow2 900).
  { apply Qle_shift_div_r; [reflexivity |]. change (inject_Z 2) with 2.
    pose proof (pow2_pos 900). lra. }
  assert (Hlh : py_int_truediv (len label) 2
                = Ok (Fin false (round_mag (inject_Z (len label) / inject_Z 2)))).
  { apply py_int_truediv_pos; [apply len_nonneg | lia |].
    apply Qle_trans with (pow2 900); [exact Hq1 | apply pow2_le; lia]. }
  assert (Hl0 : 0 <= round_mag (inject_Z (len label) / inject_Z 2)).
  { apply round_mag_nonneg. exact Hq0. }
  assert (Hl1 : round_mag (inject_Z (len label) / inject_Z 2) <= pow2 900).
  { rewrite <- (round_mag_pow2 900) by lia. apply round_mag_le; assumption. }
  remember (round_mag (inject_Z (len label) / inject_Z 2)) as l eqn:Heql. clear Heql.
  unfold build_progress_right.
  rewrite (bind_Ok_eq _ _ _ _ _ Hh). cbv beta.
  rewrite (bind_Ok_eq _ _ _ _ _ Hlh). cbv beta.
  assert (Hce : math_ceil (Fin false l) = Ok (Qceiling l)) by reflexivity.
  rewrite (bind_Ok_eq _ _ _ _ _ Hce). cbv beta.
  assert (Hc0 : (0 <= Qceiling l)%Z).
  { rewrite <- (Qceiling_Z 0). apply Qceiling_resp_le. exact Hl0. }
  assert (Hc1 : inject_Z (Qceiling l) <= pow2 1000).
  { pose proof (Qceiling_lt l) as Hlt. unfold Z.sub in Hlt.
    rewrite inject_Z_plus in Hlt. change (inject_Z (- (1))) with (- (1)) in Hlt. lra. }
  assert (Hpf : py_float (Qceiling l) = Ok (Fin false (round_mag (inject_Z (Qceiling l))))).
  { apply py_float_nonneg; [exact Hc0 |].
    apply Qle_trans with (pow2 1000); [exact Hc1 | apply pow2_le; lia]. }
  rewrite (bind_Ok_eq _ _ _ _ _ Hpf). cbv beta.
  assert (Hr0 : 0 <= round_mag (inject_Z (Qceiling l))).
  { apply round_mag_nonneg, inject_Z_nonneg, Hc0. }
  assert (Hr1 : round_mag (inject_Z (Qceiling l)) <= pow2 1000).
  { rewrite <- (round_mag_pow2 1000) by lia.
    apply round_mag_le; [apply inject_Z_nonneg, Hc0 | exact Hc1]. }
  destruct (fadd_fin false h false _ Hh0 Hr0 Hh1 Hr1) as [s' [m' [Hadd _]]].
  rewrite Hadd.
  destruct (py_int_fin s' m') as [z Hz].
  rewrite (bind_Ok_eq _ _ _ _ _ Hz). eexists. reflexivity.
Qed.

(** ** The bar at zero percent *)

Lemma float_eqb_zero :
  forall x, float_eqb x (Fin false 0) = true ->
    exists s p, x = Fin s p /\ p == 0.
Proof.
  intros [s p | s |] H; simpl in H; try discriminate.
  exists s, p. split; [reflexivity |].
  apply Qeq_bool_iff in H. unfold signed in H. destruct s; lra.
Qed.

Lemma Qfloor_zero : forall x, x == 0 -> Qfloor x = 0%Z.
Proof. intros x H. rewrite H. reflexivity. Qed.

Lemma rne_zero : forall x, x == 0 -> rne x = 0%Z.
Proof. intros x H. rewrite H. reflexivity. Qed.

(** At zero percent no segment is filled. *)
Lemma zero_percent_segments :
  forall s p width,
    p == 0 -> (2 <= width < 2 ^ 52)%Z ->
    (forall completed_char,
        build_done_str (Fin s p) width completed_char = Ok EmptyString)
    /\ (forall empty_char,
           build_empty_str (Fin s p) width empty_char = Ok (str_mul empty_char width)).
Proof.
  intros s p width Hp Hw.
  destruct (per_segment_range width Hw) as [r [Hdiv [Hr0 _]]].
  assert (Hq : p / r == 0) by (rewrite Hp; field; lra).
  assert (Hseg : segments (Fin s p) width
                 = Ok (Fin (xorb s false) (round_mag (p / r)))).
  { unfold segments. rewrite (bind_Ok_eq _ _ _ _ _ Hdiv). cbv beta.
    rewrite (py_truediv_fin _ p _ r (Qeq_bool_pos r Hr0)).
    rewrite round_float_fin; [reflexivity | lra |].
    rewrite Hq. apply Qlt_le_weak, pow2_pos. }
  pose proof (round_mag_zero _ Hq) as Hz.
  remember (round_mag (p / r)) as q eqn:Heqq. clear Heqq.
  remember (xorb s false) as s' eqn:Heqs. clear Heqs.
  split.
  - intros completed_char. unfold build_done_str.
    rewrite (bind_Ok_eq _ _ _ _ _ Hseg). cbv beta.
    rewrite py_round_ndigits_fin.
    assert (Hk : rne (q * pow10 0) = 0%Z).
    { apply rne_zero. rewrite Hz. reflexivity. }
    rewrite Hk.
    assert (Hint : py_int (Fin s' (round_mag (inject_Z 0 / pow10 0))) = Ok 0%Z).
    { destruct s'; vm_compute; reflexivity. }
    rewrite (bind_Ok_eq _ _ _ _ _ Hint). reflexivity.
  - intros empty_char. unfold build_empty_str.
    rewrite (bind_Ok_eq _ _ _ _ _ Hseg). cbv beta.
    assert (Hround : py_round (Fin s' q) = Ok 0%Z).
    { unfold py_round. rewrite (rne_zero q Hz). destruct s'; reflexivity. }
    rewrite (bind_Ok_eq _ _ _ _ _ Hround). cbv beta.
    rewrite Z.sub_0_r. reflexivity.
Qed.

(** The label at zero percent. *)
Lemma zero_percent_label :
  forall s p, p == 0 ->
    build_percent_str (Fin s p)
    = Ok ("   " ++ (if s then "-" else "") ++ "0.0% ")%string.
Proof.
  intros s p Hp. unfold build_percent_str.
  assert (Hfl : math_floor (Fin s p) = Ok 0%Z).
  { unfold math_floor. f_equal. apply Qfloor_zero. unfold signed. destruct s; lra. }
  rewrite (bind_Ok_eq _ _ _ _ _ Hfl). cbv beta.
  unfold str_of_float.
  assert (Hb : Qeq_bool p 0 = true) by (apply Qeq_bool_iff; exact Hp).
  rewrite Hb. destruct s; reflexivity.
Qed.

Local Close Scope Q_scope.

(** ** The suppression rule *)

Local Open Scope Z_scope.

Lemma even_width_range :
  forall width, (2 <= width < 2 ^ 52)%Z -> (2 <= even_width width < 2 ^ 52)%Z.
Proof.
  intros width Hw. unfold even_width.
  destruct (width mod 2 =? 0)%Z eqn:Hm; simpl; [lia |].
  apply Z.eqb_neq in Hm.
  assert (width <> 2) by (intros ->; apply Hm; reflexivity). lia.
Qed.

Lemma small_len_bound : forall n, (0 <= n <= 2 ^ 53)%Z -> (inject_Z n <= pow2 900)%Q.
Proof.
  intros n Hn. apply Qle_trans with (pow2 53); [| apply pow2_le; lia].
  rewrite pow2_nonneg_Z by lia. rewrite <- Zle_Qle. lia.
Qed.

Lemma pow2_900_1000 : forall x, (x <= pow2 900)%Q -> (x <= pow2 1000)%Q.
Proof.
  intros x H. apply Qle_trans with (pow2 900); [exact H | apply pow2_le; lia].
Qed.

Local Close Scope Z_scope.

(** ** The scanner of format strings *)

Lemma append_nil_r : forall s : string, s ++ "" = s.
Proof. intros s. induction s as [| c s IH]; simpl; [reflexivity | now rewrite IH]. Qed.

Lemma snoc_append : forall out c t, snoc out c ++ t = out ++ String c t.
Proof. intros out c t. unfold snoc, chr. rewrite append_assoc. reflexivity. Qed.

Section FormatFacts.

Variable ext :
  forall (value rest : string) (conv : option ascii) (spec : string), result string.
Variable kw : list (string * string).

Lemma is_brace_false :
  forall c, is_brace c = false -> Ascii.eqb c "{" = false /\ Ascii.eqb c "}" = false.
Proof. intros c H. unfold is_brace in H. apply orb_false_elim in H. exact H. Qed.

(** Literal text without braces is copied. *)
Lemma scan_text :
  forall s out rest,
    has_brace s = false ->
    scan ext kw SLit out (s ++ rest) = scan ext kw SLit (out ++ s) rest.
Proof.
  induction s as [| c s IH]; intros out rest H.
  - simpl. rewrite append_nil_r. reflexivity.
  - simpl in H. apply orb_false_elim in H. destruct H as [Hc Hs].
    destruct (is_brace_false c Hc) as [Ho Hcl].
    simpl. unfold scan_step. rewrite Ho, Hcl. cbn [bind fst snd].
    rewrite (IH _ _ Hs). rewrite snoc_append. reflexivity.
Qed.

Lemma str_format_text :
  forall s, has_brace s = false -> str_format ext kw s = Ok s.
Proof.
  intros s H. unfold str_format.
  rewrite <- (append_nil_r s) at 1. rewrite (scan_text s "" "" H). reflexivity.
Qed.

Lemma name_char_plain :
  forall c, name_char c = true ->
    Ascii.eqb c "{" = false /\ Ascii.eqb c "}" = false /\ Ascii.eqb c "[" = false
    /\ Ascii.eqb c "." = false /\ Ascii.eqb c "!" = false /\ Ascii.eqb c ":" = false.
Proof.
  intros c H. unfold name_char, is_brace in H. apply negb_true_iff in H.
  repeat (apply orb_false_elim in H; destruct H as [H ?]).
  repeat split; assumption.
Qed.

(** The characters of a plain name are collected up to the closing brace. *)
Lemma scan_name :
  forall name acc out rest,
    all_name_chars name = true ->
    scan ext kw (SName acc false) out (name ++ String "}" rest)
    = do v <- output_markup ext kw (acc ++ name) None "" ;;
      scan ext kw SLit (out ++ v) rest.
Proof.
  induction name as [| c name IH]; intros acc out rest H.
  - rewrite append_nil_r. simpl. unfold name_step. simpl.
    destruct (output_markup ext kw acc None ""); reflexivity.
  - simpl in H. apply andb_true_iff in H. destruct H as [Hc Hn].
    destruct (name_char_plain c Hc) as [H1 [H2 [H3 [H4 [H5 H6]]]]].
    simpl. unfold name_step. rewrite H1, H2, H3, H5, H6. cbn [bind fst snd].
    rewrite (IH _ _ _ Hn). rewrite snoc_append. reflexivity.
Qed.

(** A field with a plain name. *)
Lemma scan_field :
  forall name out rest,
    all_name_chars name = true ->
    scan ext kw SLit out (String "{" (name ++ String "}" rest))
    = do v <- output_markup ext kw name None "" ;;
      scan ext kw SLit (out ++ v) rest.
Proof.
  intros name out rest H.
  destruct name as [| c name].
  - simpl. unfold name_step. simpl.
    destruct (output_markup ext kw "" None ""); reflexivity.
  - simpl in H. apply andb_true_iff in H. destruct H as [Hc Hn].
    destruct (name_char_plain c Hc) as [H1 [H2 [H3 [H4 [H5 H6]]]]].
    simpl. unfold name_step. rewrite H1, H2, H3, H5, H6. cbn [bind fst snd].
    rewrite (scan_name name _ _ _ Hn). reflexivity.
Qed.

Lemma split_first_plain :
  forall name, all_name_chars name = true -> split_first name = (name, "").
Proof.
  induction name as [| c name IH]; intros H; [reflexivity |].
  simpl in H. apply andb_true_iff in H. destruct H as [Hc Hn].
  destruct (name_char_plain c Hc) as [H1 [H2 [H3 [H4 [H5 H6]]]]].
  simpl. rewrite H4, H3. simpl. rewrite (IH Hn). reflexivity.
Qed.

(** The argument of a keyword name is looked up among the keywords. *)
Lemma output_markup_keyword :
  forall name,
    keyword_name name = true ->
    output_markup ext kw name None ""
    = match lookup name kw with
      | Some v => Ok v
      | None => Raise (KeyError name)
      end.
Proof.
  intros name H. unfold keyword_name in H. apply andb_true_iff in H.
  destruct H as [Hn Hd].
  unfold output_markup. rewrite (split_first_plain name Hn).
  destruct name as [| c name]; [discriminate |].
  destruct (get_integer (String c name)) as [[i |] | e]; try discriminate.
  cbn [bind]. destruct (lookup (String c name) kw); reflexivity.
Qed.

(** Resolved pieces are replaced by their values. *)
Lemma scan_pieces :
  forall ps out rest,
    forallb (resolved_piece kw) ps = true ->
    scan ext kw SLit out (pieces_src ps ++ rest)
    = scan ext kw SLit (out ++ pieces_value kw ps) rest.
Proof.
  induction ps as [| p ps IH]; intros out rest H.
  - simpl. rewrite append_nil_r. reflexivity.
  - simpl in H. apply andb_true_iff in H. destruct H as [Hp Hps].
    cbn [pieces_src pieces_value]. rewrite !append_assoc.
    destruct p as [s | name]; cbn [piece_src piece_value resolved_piece] in *.
    + apply negb_true_iff in Hp. rewrite (scan_text s _ _ Hp).
      rewrite (IH _ _ Hps). rewrite append_assoc. reflexivity.
    + apply andb_true_iff in Hp. destruct Hp as [Hk Hl].
      assert (Hn : all_name_chars name = true).
      { unfold keyword_name in Hk. apply andb_true_iff in Hk. apply Hk. }
      cbn [append]. rewrite !append_assoc. cbn [append].
      rewrite (scan_field name _ _ Hn), (output_markup_keyword name Hk).
      destruct (lookup name kw) as [v |]; [| discriminate].
      cbn [bind]. rewrite (IH _ _ Hps). rewrite append_assoc. reflexivity.
Qed.

(** The first unknown keyword stops the substitution with [KeyError]. *)
Lemma str_format_unknown :
  forall ps name rest,
    forallb (resolved_piece kw) ps = true ->
    keyword_name name = true ->
    lookup name kw = None ->
    str_format ext kw (pieces_src ps ++ String "{" (name ++ String "}" rest))
    = Raise (KeyError name).
Proof.
  intros ps name rest Hps Hk Hl. unfold str_format.
  rewrite (scan_pieces ps _ _ Hps).
  assert (Hn : all_name_chars name = true).
  { unfold keyword_name in Hk. apply andb_true_iff in Hk. apply Hk. }
  rewrite (scan_field name _ _ Hn), (output_markup_keyword name Hk), Hl.
  reflexivity.
Qed.

(** Resolved pieces alone are substituted. *)
Lemma str_format_resolved :
  forall ps,
    forallb (resolved_piece kw) ps = true ->
    str_format ext kw (pieces_src ps) = Ok (pieces_value kw ps).
Proof.
  intros ps Hps. unfold str_format.
  rewrite <- (append_nil_r (pieces_src ps)). rewrite (scan_pieces ps _ _ Hps).
  reflexivity.
Qed.

End FormatFacts.

(** ** Replacing a pair of characters *)

Lemma ascii_dec_eqb :
  forall (a x : ascii), (if ascii_dec a x then true else false) = Ascii.eqb x a.
Proof.
  intros a x. destruct (ascii_dec a x) as [-> | Hne].
  - rewrite Ascii.eqb_refl. reflexivity.
  - destruct (Ascii.eqb x a) eqn:E; [| reflexivity].
    apply Ascii.eqb_eq in E. congruence.
Qed.

Lemma prefix_pair :
  forall a b x t,
    String.prefix (pair_str a b) (String x t) = Ascii.eqb x a && starts_with b t.
Proof.
  intros a b x t. rewrite <- (ascii_dec_eqb a x). unfold pair_str.
  destruct t as [| y t]; simpl.
  - destruct (ascii_dec a x); reflexivity.
  - rewrite <- (ascii_dec_eqb b y).
    destruct (ascii_dec a x); [| reflexivity].
    destruct (ascii_dec b y); [destruct t |]; reflexivity.
Qed.

Section ReplacePair.

Variables (a b : ascii) (new : string).

Lemma replace_pair_cons :
  forall x t,
    replace_from (pair_str a b) new 0 (String x t)
    = if Ascii.eqb x a && starts_with b t
      then new ++ replace_from (pair_str a b) new 1 t
      else String x (replace_from (pair_str a b) new 0 t).
Proof.
  intros x t. cbn [replace_from]. rewrite prefix_pair. reflexivity.
Qed.

(** Without an occurrence nothing is replaced. *)
Lemma replace_pair_absent :
  forall s, has_pair a b s = false -> str_replace (pair_str a b) new s = s.
Proof.
  unfold str_replace. induction s as [| x t IH]; intros H; [reflexivity |].
  cbn [has_pair] in H. apply orb_false_elim in H. destruct H as [H1 H2].
  rewrite replace_pair_cons, H1. rewrite (IH H2). reflexivity.
Qed.

End ReplacePair.

Section ReplacePairChar.

Variables (a b n : ascii).
Let new : string := chr n.
Hypothesis Hna : Ascii.eqb n a = false.
Hypothesis Hnb : Ascii.eqb n b = false.

(** What follows a character that is not the second of the pair does not
    start with the second of the pair after the replacement either. *)
Lemma replace_pair_start :
  forall s z,
    starts_with b s = false -> starts_with b z = false ->
    starts_with b (replace_from (pair_str a b) new 0 s ++ z) = false.
Proof.
  intros s z Hs Hz. destruct s as [| x t]; [exact Hz |].
  rewrite replace_pair_cons.
  destruct (Ascii.eqb x a && starts_with b t).
  - exact Hnb.
  - exact Hs.
Qed.

(** No occurrence is left after the replacement, nor across the end. *)
Lemma replace_pair_gone_len :
  forall k s z,
    (String.length s <= k)%nat ->
    has_pair a b z = false -> starts_with b z = false ->
    has_pair a b (replace_from (pair_str a b) new 0 s ++ z) = false.
Proof.
  induction k as [| k IH]; intros s z Hlen Hz Hzb.
  - destruct s; [exact Hz | simpl in Hlen; lia].
  - destruct s as [| x t]; [exact Hz |].
    simpl in Hlen. rewrite replace_pair_cons.
    destruct (Ascii.eqb x a && starts_with b t) eqn:Hm.
    + destruct t as [| y t']; [simpl in Hm; rewrite andb_false_r in Hm; discriminate |].
      cbn [replace_from]. unfold new at 1. cbn [chr append has_pair].
      rewrite Hna. cbn [andb orb].
      apply IH; [simpl in Hlen; lia | exact Hz | exact Hzb].
    + cbn [append has_pair].
      rewrite (IH t z ltac:(lia) Hz Hzb). rewrite orb_false_r.
      destruct (Ascii.eqb x a); [| reflexivity]. cbn [andb] in *.
      apply replace_pair_start; assumption.
Qed.

Lemma replace_pair_gone :
  forall s z,
    has_pair a b z = false -> starts_with b z = false ->
    has_pair a b (str_replace (pair_str a b) new s ++ z) = false.
Proof.
  intros s z. apply (replace_pair_gone_len (String.length s)). lia.
Qed.

Hypothesis Hnbrace : is_brace n = false.

Lemma replace_pair_no_brace_len :
  forall k s,
    (String.length s <= k)%nat ->
    has_brace s = false ->
    has_brace (replace_from (pair_str a b) new 0 s) = false.
Proof.
  induction k as [| k IH]; intros s Hlen Hs.
  - destruct s; [reflexivity | simpl in Hlen; lia].
  - destruct s as [| x t]; [reflexivity |].
    simpl in Hlen. cbn [has_brace] in Hs. apply orb_false_elim in Hs.
    destruct Hs as [Hx Ht]. rewrite replace_pair_cons.
    destruct (Ascii.eqb x a && starts_with b t).
    + destruct t as [| y t'].
      { unfold new. cbn. rewrite Hnbrace. reflexivity. }
      cbn [replace_from]. unfold new at 1. cbn [chr append has_brace]. rewrite Hnbrace.
      cbn [orb]. cbn [has_brace] in Ht. apply orb_false_elim in Ht.
      apply IH; [simpl in Hlen; lia | apply Ht].
    + cbn [has_brace]. rewrite Hx. cbn [orb]. apply IH; [lia | exact Ht].
Qed.

Lemma replace_pair_no_brace :
  forall s, has_brace s = false ->
    has_brace (str_replace (pair_str a b) new s) = false.
Proof.
  intros s. apply (replace_pair_no_brace_len (String.length s)). lia.
Qed.

End ReplacePairChar.

Lemma no_brace_no_pair :
  forall c s, is_brace c = true -> has_brace s = false -> has_pair c c s = false.
Proof.
  intros c s Hc. induction s as [| x t IH]; intros H; [reflexivity |].
  cbn [has_brace] in H. apply orb_false_elim in H. destruct H as [Hx Ht].
  cbn [has_pair]. rewrite (IH Ht), orb_false_r.
  destruct (Ascii.eqb x c) eqn:E; [| reflexivity].
  apply Ascii.eqb_eq in E. subst x. congruence.
Qed.

Lemma has_brace_append :
  forall s t, has_brace (s ++ t) = has_brace s || has_brace t.
Proof.
  intros s t. induction s as [| c s IH]; simpl; [reflexivity |].
  rewrite IH. apply orb_assoc.
Qed.

(** The brace-collapsing steps leave a string without braces as it is. *)
Lemma collapse_no_brace :
  forall s, has_brace s = false ->
    collapse s = str_replace (pair_str BACKSLASH "n") (chr LF) s
    /\ has_brace (collapse s) = false.
Proof.
  intros s H. unfold collapse.
  change (String BACKSLASH "n") with (pair_str BACKSLASH "n").
  change "{{" with (pair_str "{" "{"). change "}}" with (pair_str "}" "}").
  pose proof (replace_pair_no_brace BACKSLASH "n" LF eq_refl s H) as Hr.
  rewrite (replace_pair_absent "{" "{" "{" _ (no_brace_no_pair "{" _ eq_refl Hr)).
  rewrite (replace_pair_absent "}" "}" "}" _ (no_brace_no_pair "}" _ eq_refl Hr)).
  split; [reflexivity | exact Hr].
Qed.

(** ** The colorizer on text and on unknown placeholders *)

Lemma format_string_no_brace :
  forall ext s, has_brace s = false -> format_string ext s = Ok (collapse s ++ ENDC).
Proof.
  intros ext s H. destruct (collapse_no_brace s H) as [_ Hc].
  unfold format_string. rewrite (str_format_text ext palette _ Hc). reflexivity.
Qed.

Lemma collapse_again :
  forall s, has_brace s = false -> collapse (collapse s ++ ENDC) = collapse s ++ ENDC.
Proof.
  intros s H. destruct (collapse_no_brace s H) as [Heq Hc].
  assert (Hb : has_brace (collapse s ++ ENDC) = false).
  { rewrite has_brace_append, Hc. reflexivity. }
  destruct (collapse_no_brace _ Hb) as [Heq2 _]. rewrite Heq2.
  apply replace_pair_absent. rewrite Heq.
  apply (replace_pair_gone BACKSLASH "n" LF); reflexivity.
Qed.

(** C8 (as the code has it): for every string without a brace character,
    the colorizer applied twice gives what it gives once, followed by one
    more reset code. A string without placeholders that has braces is not
    covered: escaped braces of the first pass are single braces for the
    second. *)
Theorem format_string_twice :
  forall ext s,
    has_brace s = false ->
    exists once,
      format_string ext s = Ok once
      /\ format_string ext once = Ok (once ++ ENDC).
Proof.
  intros ext s H. exists (collapse s ++ ENDC).
  split; [apply format_string_no_brace; exact H |].
  assert (Hb : has_brace (collapse s ++ ENDC) = false).
  { destruct (collapse_no_brace s H) as [_ Hc]. rewrite has_brace_append, Hc. reflexivity. }
  rewrite (format_string_no_brace ext _ Hb), (collapse_again s H). reflexivity.
Qed.

Lemma format_string_twice_witness :
  exists once,
    format_string name_only_ext "50%\n done" = Ok once
    /\ format_string name_only_ext once = Ok (once ++ ENDC).
Proof.
  apply (format_string_twice name_only_ext "50%\n done"). reflexivity.
Defined.

(** C8, refuted as stated: the string of four opening braces has no
    placeholder; the colorizer makes of it one opening brace and the reset
    code, and applied to that result it raises [ValueError], for the brace
    now opens a field that is never closed. *)
Lemma format_string_twice_escaped_braces :
  format_string name_only_ext "{{{{" = Ok ("{" ++ ENDC)
  /\ format_string name_only_ext ("{" ++ ENDC) = Raise ValueError
  /\ format_string name_only_ext ("{" ++ ENDC) <> Ok (("{" ++ ENDC) ++ ENDC).
Proof.
  split; [reflexivity | split; [reflexivity |]].
  change (format_string name_only_ext ("{" ++ ENDC)) with (@Raise string ValueError).
  discriminate.
Qed.

(** The names of the palette are keyword names: for the palette, a
    resolved field is a field whose name the palette has. *)
Lemma palette_names_are_keywords :
  forall name v, lookup name palette = Some v -> keyword_name name = true.
Proof.
  intros name v H. unfold palette in H. cbn [lookup] in H.
  repeat match type of H with
         | context [String.eqb name ?k] =>
             destruct (String.eqb_spec name k) as [-> | _]; [reflexivity |]
         end.
  discriminate.
Qed.

(** Leading digits beyond the largest index make [str.format] raise
    [ValueError] whatever follows them in the name, and that error leaves the
    colorizer; one less, and the name is a keyword that the palette does not
    have. *)
Lemma format_string_overflowing_digits_raise :
  forall ext,
    keyword_name "9223372036854775808x" = false
    /\ format_string ext "{{9223372036854775808x}}" = Raise ValueError
    /\ format_string ext "{{9223372036854775808}}" = Raise ValueError
    /\ keyword_name "9223372036854775807x" = true
    /\ format_string ext "{{9223372036854775807x}}"
       = Ok ("{9223372036854775807x}" ++ ENDC)
    /\ format_string ext "{{9223372036854775807}}" = Raise IndexError.
Proof. intros ext. repeat split; vm_compute; reflexivity. Qed.

(** C6 (as the code has it): when the string, after the brace-collapsing
    step, is made of text without braces and recognized placeholders up to a
    placeholder whose name is a keyword that the palette does not have, then
    no substitution is made at all: the result is the collapsed string,
    every placeholder as written, and the reset code. A keyword is a name
    that is not empty, has no [{], [}], [.], [[], []], [!] or [:], is not a
    number, and does not begin with digits beyond the largest index, which
    [str.format] refuses with [ValueError] before it looks the name up. *)
Theorem format_string_unknown_placeholder :
  forall ext msg pieces name rest,
    collapse msg = pieces_src pieces ++ "{" ++ name ++ "}" ++ rest ->
    forallb (resolved_piece palette) pieces = true ->
    keyword_name name = true ->
    lookup name palette = None ->
    format_string ext msg = Ok (collapse msg ++ ENDC).
Proof.
  intros ext msg pieces name rest Hshape Hpieces Hname Hunknown.
  unfold format_string. rewrite Hshape at 1.
  change ("{" ++ name ++ "}" ++ rest) with (String "{" (name ++ String "}" rest)).
  rewrite (str_format_unknown ext palette pieces name rest Hpieces Hname Hunknown).
  reflexivity.
Qed.

Lemma format_string_unknown_placeholder_witness :
  format_string name_only_ext "a{{RED}}b{{UNKNOWN}}c{{"
  = Ok (collapse "a{{RED}}b{{UNKNOWN}}c{{" ++ ENDC).
Proof.
  apply (format_string_unknown_placeholder name_only_ext "a{{RED}}b{{UNKNOWN}}c{{"
           [Text "a"; Field "RED"; Text "b"] "UNKNOWN" "c{");
    reflexivity.
Defined.

(** C6, refuted as stated: ["{{0}}{{UNKNOWN}}"] has the placeholder
    [UNKNOWN], which the palette does not have, and the colorizer raises
    [IndexError] on it instead of returning the string with a reset code. *)
Lemma format_string_unknown_after_positional_raises :
  lookup "UNKNOWN" palette = None
  /\ collapse "{{0}}{{UNKNOWN}}" = "{0}{UNKNOWN}"
  /\ format_string name_only_ext "{{0}}{{UNKNOWN}}" = Raise IndexError
  /\ format_string name_only_ext "{{0}}{{UNKNOWN}}"
     <> Ok (collapse "{{0}}{{UNKNOWN}}" ++ ENDC).
Proof.
  repeat split; try reflexivity. vm_compute. discriminate.
Qed.

(** ** The prompt loop and the case of the legal answers *)

Lemma upper_char_not_lower : forall c, is_lower (upper_char c) = false.
Proof.
  intros c. destruct c as [[] [] [] [] [] [] [] []]; reflexivity.
Qed.

Lemma upper_no_lower : forall s, has_lower (upper s) = false.
Proof.
  induction s as [| c s IH]; [reflexivity |].
  simpl. rewrite upper_char_not_lower, IH. reflexivity.
Qed.

(** An upper-cased input is none of the answers that have a lower-case letter. *)
Lemma str_in_upper_lowercase :
  forall typed answers,
    forallb has_lower answers = true -> str_in (upper typed) answers = false.
Proof.
  intros typed answers. unfold str_in.
  induction answers as [| a answers IH]; intros H; [reflexivity |].
  simpl in H. apply andb_true_iff in H. destruct H as [Ha Hrest].
  simpl. rewrite (IH Hrest), orb_false_r.
  destruct (String.eqb (upper typed) a) eqn:E; [| reflexivity].
  apply String.eqb_eq in E. rewrite <- E, upper_no_lower in Ha. discriminate.
Qed.

Lemma prompt_loop_never_accepts :
  forall ext msgs legal_answers options_str default stdin answer out result,
    forallb has_lower legal_answers = true ->
    fst (prompt_loop ext msgs legal_answers [] options_str default stdin answer out)
    <> Ok result.
Proof.
  intros ext msgs legal_answers options_str default stdin.
  induction stdin as [| ev stdin IH]; intros answer out result Hlow;
    cbn [prompt_loop]; unfold accepted;
    rewrite (str_in_upper_lowercase answer legal_answers Hlow); cbn [orb str_in existsb];
    destruct (display_message ext (msgs ++ [options_str])) as [shown | e];
    try (cbn; discriminate);
    destruct (match default with
              | Some d => format_string ext ("({BRIGHT_YELLOW}" ++ upper d ++ "{COLOR_NONE}) > ")
              | None => Ok "> "
              end) as [prompt | e]; try (cbn; discriminate).
  destruct ev as [typed |]; [| cbn; discriminate].
  apply IH. exact Hlow.
Qed.

(** C7 (where the code departs from it): the loop compares the upper-cased
    input with the legal answers as they were passed, not with their
    upper-cased form. When every legal answer has a lower-case letter, and
    there are no aliases, no input is ever accepted: whatever is typed, the
    function does not return an answer. *)
Theorem lowercase_legal_answers_never_accepted :
  forall ext msgs legal_answers default blank_lines stdin result,
    forallb has_lower legal_answers = true ->
    fst (multiple_choice_user_input ext msgs legal_answers None default blank_lines stdin)
    <> Ok result.
Proof.
  intros ext msgs legal_answers default blank_lines stdin result Hlow.
  unfold multiple_choice_user_input. cbn [forallb negb map fold_left].
  destruct (negb match default with
                 | Some d => str_in (upper d) (map upper legal_answers)
                 | None => true
                 end); [cbn; discriminate |].
  destruct (if (0 <? blank_lines)%Z
            then display_message ext [str_mul (chr LF) blank_lines]
            else Ok "") as [blank | e]; [| cbn; discriminate].
  pose proof (prompt_loop_never_accepts ext msgs legal_answers
                ("(" ++ join "," (map upper legal_answers) ++ ")")
                default stdin "" blank) as Hloop.
  destruct (prompt_loop ext msgs legal_answers []
              ("(" ++ join "," (map upper legal_answers) ++ ")") default stdin "" blank)
    as [[answer | e] out].
  - exfalso. apply (Hloop answer Hlow). reflexivity.
  - cbn. discriminate.
Qed.

Lemma lowercase_legal_answers_never_accepted_witness :
  fst (multiple_choice_user_input name_only_ext ["Continue?"] ["yes"; "no"]
         None None 0 [Line "yes"; Line "YES"; Line "Yes"])
  <> Ok "YES".
Proof.
  apply (lowercase_legal_answers_never_accepted name_only_ext ["Continue?"]
           ["yes"; "no"] None 0%Z [Line "yes"; Line "YES"; Line "Yes"] "YES").
  reflexivity.
Defined.

(** The same call, evaluated: three prompts, and the end of the input. *)
Lemma prompt_yes_no_lowercase_run :
  fst (multiple_choice_user_input name_only_ext ["Continue?"] ["yes"; "no"]
         None None 0 [Line "yes"; Line "YES"; Line "Yes"])
  = Raise EOFError.
Proof. vm_compute. reflexivity. Qed.

(** With upper-case legal answers the same inputs are accepted at once. *)
Lemma prompt_yes_no_uppercase_run :
  fst (multiple_choice_user_input name_only_ext ["Continue?"] ["YES"; "NO"]
         None None 0 [Line "yes"; Line "YES"; Line "Yes"])
  = Ok "YES".
Proof. vm_compute. reflexivity. Qed.

(** * Further properties *)

(** ** The text of [display_error] *)

Lemma display_error_loop :
  forall msgs acc,
    fold_left (fun output msg => output ++ " " ++ msg) msgs acc
    = match msgs with
      | [] => acc
      | _ :: _ => acc ++ " " ++ join " " msgs
      end.
Proof.
  induction msgs as [| m rest IH]; intros acc; [reflexivity |].
  cbn [fold_left]. rewrite IH. destruct rest as [| m' rest'].
  - reflexivity.
  - unfold join. cbn [String.concat]. rewrite !append_assoc. reflexivity.
Qed.

Lemma lstrip_spaces_start : forall s, starts_with " " (lstrip_spaces s) = false.
Proof.
  induction s as [| c t IH]; [reflexivity |].
  cbn [lstrip_spaces]. destruct (Ascii.eqb c " ") eqn:E; [exact IH | exact E].
Qed.

Lemma starts_with_append :
  forall c s t, starts_with c t = false -> starts_with c s = false ->
    starts_with c (s ++ t) = false.
Proof. intros c s t Ht Hs. destruct s; [exact Ht | exact Hs]. Qed.

(** X1: [display_error] prints the messages joined by single spaces, with
    the spaces at the start of the line removed, those of the first message
    included, and a line feed; the line never starts with a space. *)
Theorem display_error_text :
  forall msgs,
    display_error msgs = lstrip_spaces (join " " msgs) ++ chr LF
    /\ starts_with " " (display_error msgs) = false.
Proof.
  intros msgs.
  assert (E : display_error msgs = lstrip_spaces (join " " msgs) ++ chr LF).
  { unfold display_error. rewrite display_error_loop.
    destruct msgs as [| m rest]; reflexivity. }
  split; [exact E |].
  rewrite E. apply starts_with_append; [reflexivity | apply lstrip_spaces_start].
Qed.

(** ** The cursor after the refreshable messages *)

Lemma term_run_append :
  forall s t st, term_run st (s ++ t) = term_run (term_run st s) t.
Proof.
  induction s as [| c s IH]; intros t st; [reflexivity |].
  simpl. apply IH.
Qed.

Lemma term_run_backspaces :
  forall n col, term_run (TText, col) (repeat_nat (chr BS) n) = (TText, (col - n)%nat).
Proof.
  induction n as [| n IH]; intros col.
  - simpl. f_equal. lia.
  - cbn [repeat_nat chr append term_run].
    change (term_step (TText, col) BS) with (TText, Nat.pred col).
    rewrite IH. f_equal. lia.
Qed.




Lemma printable_step :
  forall c col, printable c = true -> term_step (TText, col) c = (TText, S col).
Proof.
  intros c col H.
  destruct c as [[] [] [] [] [] [] [] []]; try discriminate H; reflexivity.
Qed.

Lemma term_run_printable :
  forall s col, all_printable s = true ->
    term_run (TText, col) s = (TText, (col + String.length s)%nat).
Proof.
  induction s as [| c s IH]; intros col H.
  - simpl. f_equal. lia.
  - cbn [all_printable] in H. apply andb_true_iff in H. destruct H as [Hc Hs].
    cbn [term_run]. rewrite (printable_step c col Hc), (IH _ Hs).
    simpl. f_equal. lia.
Qed.

Lemma term_run_ENDC : forall col, term_run (TText, col) ENDC = (TText, col).
Proof. intros col. reflexivity. Qed.

Lemma collapse_plain :
  forall s, has_brace s = false -> has_pair BACKSLASH "n" s = false -> collapse s = s.
Proof.
  intros s Hb Hp. destruct (collapse_no_brace s Hb) as [E _]. rewrite E.
  apply replace_pair_absent. exact Hp.
Qed.

Lemma format_string_plain :
  forall ext s, has_brace s = false -> has_pair BACKSLASH "n" s = false ->
    format_string ext s = Ok (s ++ ENDC).
Proof.
  intros ext s Hb Hp. rewrite (format_string_no_brace ext s Hb), (collapse_plain s Hb Hp).
  reflexivity.
Qed.

Lemma cursor_after_app :
  forall a b st, cursor_after st (a ++ b) = cursor_after (cursor_after st a) b.
Proof.
  induction a as [| ev a IH]; intros b st; [reflexivity |].
  destruct ev; cbn [app cursor_after]; apply IH.
Qed.

(** X3: for messages that join to printable text without braces and without
    a backslash before an [n], [display_refreshable_message] writes the text
    and the reset code, flushes, and writes one backspace per character of
    both, four more than the text has: the cursor ends four columns to the
    left of the column where the text began (at the margin when it began in
    one of the first four columns). [finish_refreshable_message] after it
    writes a line feed, which leaves the cursor at the margin. *)
Theorem display_refreshable_message_cursor :
  forall ext msgs col,
    all_printable (join " " msgs) = true ->
    has_brace (join " " msgs) = false ->
    has_pair BACKSLASH "n" (join " " msgs) = false ->
    exists out,
      display_refreshable_message ext msgs = Ok out
      /\ out = [Write (join " " msgs ++ ENDC); Flush;
                Write (str_mul (chr BS) (len (join " " msgs) + 4))]
      /\ cursor_after (TText, col) out = (TText, (col - 4)%nat)
      /\ cursor_after (TText, col) (out ++ finish_refreshable_message) = (TText, O).
Proof.
  intros ext msgs col Hp Hb Hn.
  remember (join " " msgs) as s eqn:Hs.
  assert (Hcur : cursor_after (TText, col)
                   [Write (s ++ ENDC); Flush; Write (str_mul (chr BS) (len s + 4))]
                 = (TText, (col - 4)%nat)).
  { cbn [cursor_after].
    rewrite term_run_append, (term_run_printable s col Hp), term_run_ENDC.
    unfold str_mul. rewrite term_run_backspaces. f_equal. unfold len. lia. }
  eexists. split; [| split; [| split]].
  - unfold display_refreshable_message. rewrite <- Hs.
    rewrite (format_string_plain ext s Hb Hn). cbn [bind].
    rewrite len_append. change (len ENDC) with 4%Z. reflexivity.
  - reflexivity.
  - exact Hcur.
  - rewrite cursor_after_app, Hcur. reflexivity.
Qed.

Lemma display_refreshable_message_cursor_witness :
  exists out,
    display_refreshable_message name_only_ext ["Copying"; "files"] = Ok out
    /\ out = [Write ("Copying files" ++ ENDC); Flush; Write (str_mul (chr BS) 17)]
    /\ cursor_after (TText, 0%nat) out = (TText, 0%nat)
    /\ cursor_after (TText, 0%nat) (out ++ finish_refreshable_message) = (TText, O).
Proof.
  apply (display_refreshable_message_cursor name_only_ext ["Copying"; "files"] 0%nat);
    reflexivity.
Defined.

Lemma display_message_plain_text :
  forall ext msg,
    has_brace msg = false ->
    has_pair BACKSLASH "n" msg = false ->
    display_message ext [msg] = Ok (msg ++ ENDC ++ chr LF).
Proof.
  intros ext msg Hb Hn. unfold display_message. cbn [join String.concat].
  rewrite (format_string_plain ext _ Hb Hn). cbn [bind].
  rewrite append_assoc. reflexivity.
Qed.

(** X4: [display_message] prints messages that join to text without braces
    and without a backslash before an [n] as they are, separated by single
    spaces and followed by the reset code and a line feed. *)
Theorem display_message_plain :
  forall ext msgs,
    has_brace (join " " msgs) = false ->
    has_pair BACKSLASH "n" (join " " msgs) = false ->
    display_message ext msgs = Ok (join " " msgs ++ ENDC ++ chr LF).
Proof.
  intros ext msgs Hb Hn. unfold display_message.
  rewrite (format_string_plain ext _ Hb Hn). cbn [bind].
  rewrite append_assoc. reflexivity.
Qed.

Lemma display_message_plain_witness :
  display_message name_only_ext ["Done:"; "3"; "files"]
  = Ok ("Done: 3 files" ++ ENDC ++ chr LF).
Proof.
  apply (display_message_plain name_only_ext ["Done:"; "3"; "files"]); reflexivity.
Defined.

(** ** The colorizer on templates *)

Section ReplaceSkip.

Variables (a b : ascii) (new : string).

(** Text without the first character of the pair is copied. *)
Lemma replace_pair_skip :
  forall s rest,
    has_char a s = false ->
    replace_from (pair_str a b) new 0 (s ++ rest)
    = s ++ replace_from (pair_str a b) new 0 rest.
Proof.
  induction s as [| x t IH]; intros rest H; [reflexivity |].
  cbn [has_char] in H. apply orb_false_elim in H. destruct H as [Hx Ht].
  cbn [append]. rewrite replace_pair_cons, Hx. cbn [andb].
  rewrite (IH rest Ht). reflexivity.
Qed.

(** An occurrence is replaced, and the search goes on behind it. *)
Lemma replace_pair_hit :
  forall rest,
    replace_from (pair_str a b) new 0 (String a (String b rest))
    = new ++ replace_from (pair_str a b) new 0 rest.
Proof.
  intros rest. rewrite replace_pair_cons. rewrite Ascii.eqb_refl.
  cbn [starts_with]. rewrite Ascii.eqb_refl. cbn [andb].
  destruct rest; reflexivity.
Qed.

End ReplaceSkip.

Lemma has_brace_no_char :
  forall c s, is_brace c = true -> has_brace s = false -> has_char c s = false.
Proof.
  intros c s Hc. induction s as [| x t IH]; intros H; [reflexivity |].
  cbn [has_brace] in H. apply orb_false_elim in H. destruct H as [Hx Ht].
  cbn [has_char]. rewrite (IH Ht), orb_false_r.
  destruct (Ascii.eqb x c) eqn:E; [| reflexivity].
  apply Ascii.eqb_eq in E. subst x. congruence.
Qed.

Lemma name_chars_no_brace : forall s, all_name_chars s = true -> has_brace s = false.
Proof.
  induction s as [| c t IH]; intros H; [reflexivity |].
  cbn [all_name_chars] in H. apply andb_true_iff in H. destruct H as [Hc Ht].
  cbn [has_brace]. rewrite (IH Ht), orb_false_r.
  unfold name_char in Hc. apply negb_true_iff in Hc.
  repeat (apply orb_false_elim in Hc; destruct Hc as [Hc ?]).
  unfold is_brace. rewrite Hc. assumption.
Qed.

Lemma has_char_append_false :
  forall c s t, has_char c s = false -> has_char c t = false -> has_char c (s ++ t) = false.
Proof. intros c s t Hs Ht. rewrite has_char_append, Hs, Ht. reflexivity. Qed.

Lemma resolved_piece_text :
  forall kw s, resolved_piece kw (Text s) = true -> has_brace s = false.
Proof. intros kw s H. cbn in H. apply negb_true_iff in H. exact H. Qed.

Lemma resolved_piece_name :
  forall kw name, resolved_piece kw (Field name) = true -> has_brace name = false.
Proof.
  intros kw name H. cbn in H. apply andb_true_iff in H. destruct H as [H _].
  unfold keyword_name in H. apply andb_true_iff in H. destruct H as [H _].
  apply name_chars_no_brace. exact H.
Qed.

(** The doubled opening braces of the fields are collapsed ... *)
Lemma replace_open_pieces :
  forall kw ps,
    forallb (resolved_piece kw) ps = true ->
    str_replace "{{" "{" (pieces_with "{{" "}}" ps) = pieces_with "{" "}}" ps.
Proof.
  intros kw ps. unfold str_replace. change "{{" with (pair_str "{" "{") at 1.
  induction ps as [| p ps IH]; intros H; [reflexivity |].
  cbn [forallb] in H. apply andb_true_iff in H. destruct H as [Hp Hps].
  cbn [pieces_with]. destruct p as [s | name]; cbn [piece_with].
  - rewrite replace_pair_skip
      by (apply has_brace_no_char; [reflexivity | apply (resolved_piece_text kw), Hp]).
    rewrite (IH Hps). reflexivity.
  - pose proof (resolved_piece_name kw name Hp) as Hn.
    assert (E : ("{{" ++ name ++ "}}") ++ pieces_with "{{" "}}" ps
                = String "{" (String "{" ((name ++ "}}") ++ pieces_with "{{" "}}" ps))).
    { cbn [append]. rewrite !append_assoc. reflexivity. }
    rewrite E, replace_pair_hit.
    rewrite (replace_pair_skip "{" "{" "{" (name ++ "}}")).
    + rewrite (IH Hps). cbn [append]. rewrite !append_assoc. reflexivity.
    + apply has_char_append_false; [| reflexivity].
      apply has_brace_no_char; [reflexivity | exact Hn].
Qed.

(** ... and then the doubled closing braces. *)
Lemma replace_close_pieces :
  forall kw ps,
    forallb (resolved_piece kw) ps = true ->
    str_replace "}}" "}" (pieces_with "{" "}}" ps) = pieces_with "{" "}" ps.
Proof.
  intros kw ps. unfold str_replace. change "}}" with (pair_str "}" "}") at 1.
  induction ps as [| p ps IH]; intros H; [reflexivity |].
  cbn [forallb] in H. apply andb_true_iff in H. destruct H as [Hp Hps].
  cbn [pieces_with]. destruct p as [s | name]; cbn [piece_with].
  - rewrite replace_pair_skip
      by (apply has_brace_no_char; [reflexivity | apply (resolved_piece_text kw), Hp]).
    rewrite (IH Hps). reflexivity.
  - pose proof (resolved_piece_name kw name Hp) as Hn.
    assert (E : ("{" ++ name ++ "}}") ++ pieces_with "{" "}}" ps
                = ("{" ++ name) ++ String "}" (String "}" (pieces_with "{" "}}" ps))).
    { cbn [append]. rewrite !append_assoc. reflexivity. }
    rewrite E. rewrite replace_pair_skip.
    + rewrite replace_pair_hit, (IH Hps). cbn [append]. rewrite !append_assoc. reflexivity.
    + cbn [append has_char]. cbn [Ascii.eqb Bool.eqb orb].
      apply has_brace_no_char; [reflexivity | exact Hn].
Qed.

Lemma pieces_with_src : forall ps, pieces_with "{" "}" ps = pieces_src ps.
Proof.
  induction ps as [| p ps IH]; [reflexivity |].
  cbn [pieces_with pieces_src]. rewrite IH. destruct p; reflexivity.
Qed.

(** The three replacements on a template without a backslash before an [n]. *)
Lemma collapse_pieces :
  forall kw ps,
    forallb (resolved_piece kw) ps = true ->
    has_pair BACKSLASH "n" (pieces_tags ps) = false ->
    collapse (pieces_tags ps) = pieces_src ps.
Proof.
  intros kw ps Hps Hn. unfold collapse.
  change (String BACKSLASH "n") with (pair_str BACKSLASH "n").
  rewrite (replace_pair_absent _ _ _ _ Hn). unfold pieces_tags.
  rewrite (replace_open_pieces kw ps Hps), (replace_close_pieces kw ps Hps).
  apply pieces_with_src.
Qed.

(** X5: a template made of text without braces and of palette names between
    doubled braces, with no backslash before an [n], is colorized: every
    placeholder is replaced by the escape code of its name, the text is
    kept, and the reset code is appended. *)
Theorem format_string_substitutes :
  forall ext ps,
    forallb (resolved_piece palette) ps = true ->
    has_pair BACKSLASH "n" (pieces_tags ps) = false ->
    format_string ext (pieces_tags ps) = Ok (pieces_value palette ps ++ ENDC).
Proof.
  intros ext ps Hps Hn. unfold format_string.
  rewrite (collapse_pieces palette ps Hps Hn).
  rewrite (str_format_resolved ext palette ps Hps). reflexivity.
Qed.

Lemma format_string_substitutes_witness :
  format_string name_only_ext "{{RED}}error:{{COLOR_NONE}} disk {{BLINK}}full"
  = Ok (RED ++ "error:" ++ ENDC ++ " disk " ++ BLINK ++ "full" ++ ENDC).
Proof.
  apply (format_string_substitutes name_only_ext
           [Field "RED"; Text "error:"; Field "COLOR_NONE"; Text " disk ";
            Field "BLINK"; Text "full"]);
    reflexivity.
Defined.

(** X6: in a string without braces every backslash followed by an [n] is
    replaced by a line feed, from left to right; the result, before the
    reset code, has no brace and no backslash followed by an [n]. *)
Theorem format_string_newlines :
  forall ext s,
    has_brace s = false ->
    exists out,
      format_string ext s = Ok (out ++ ENDC)
      /\ out = str_replace (String BACKSLASH "n") (chr LF) s
      /\ has_pair BACKSLASH "n" out = false
      /\ has_brace out = false.
Proof.
  intros ext s H. destruct (collapse_no_brace s H) as [E Hb].
  exists (collapse s). split; [apply format_string_no_brace; exact H |].
  split; [exact E |]. split; [| exact Hb].
  rewrite E. rewrite <- (append_nil_r (str_replace _ _ s)).
  apply (replace_pair_gone BACKSLASH "n" LF); reflexivity.
Qed.

Lemma format_string_newlines_witness :
  exists out,
    format_string name_only_ext "one\ntwo\\nn" = Ok (out ++ ENDC)
    /\ out = str_replace (String BACKSLASH "n") (chr LF) "one\ntwo\\nn"
    /\ has_pair BACKSLASH "n" out = false
    /\ has_brace out = false.
Proof.
  apply (format_string_newlines name_only_ext "one\ntwo\\nn"). reflexivity.
Defined.

(** ** The boolean formatter on strings, and without colors *)

(** X7: colorizing only wraps the plain answer: when [format_boolean]
    without colors gives an answer, it is [Yes] or [No], and with colors
    the result is the same word after the bright green code for [Yes], the
    bright red code for [No], and before the reset code. *)
Theorem format_boolean_colorize_wraps :
  forall ext value invert_color plain,
    format_boolean ext value false invert_color = Ok plain ->
    (plain = "Yes"
     /\ format_boolean ext value true invert_color = Ok (BRIGHT_GREEN ++ "Yes" ++ ENDC))
    \/ (plain = "No"
        /\ format_boolean ext value true invert_color = Ok (BRIGHT_RED ++ "No" ++ ENDC)).
Proof.
  intros ext value invert_color plain H. unfold format_boolean in *.
  destruct (negb match value with
                 | VBool _ => true
                 | VStr s => str_in (upper s) ["TRUE"; "FALSE"]
                 end); [discriminate |].
  destruct (String.eqb (upper (str_of_value value)) "TRUE").
  - left. injection H as <-. split; reflexivity.
  - right. injection H as <-. split; reflexivity.
Qed.

Lemma format_boolean_colorize_wraps_witness :
  ("No" = "Yes"
   /\ format_boolean name_only_ext (VStr "false") true false
      = Ok (BRIGHT_GREEN ++ "Yes" ++ ENDC))
  \/ ("No" = "No"
      /\ format_boolean name_only_ext (VStr "false") true false
         = Ok (BRIGHT_RED ++ "No" ++ ENDC)).
Proof.
  apply (format_boolean_colorize_wraps name_only_ext (VStr "false") false "No").
  reflexivity.
Defined.

(** X8: a string value is read by its upper-cased form: one that
    upper-cases to [TRUE] is formatted like the boolean true, one that
    upper-cases to [FALSE] like the boolean false, and any other string
    fails the assertion, with or without colors. *)
Theorem format_boolean_string :
  forall ext s colorize invert_color,
    (upper s = "TRUE" ->
     format_boolean ext (VStr s) colorize invert_color
     = format_boolean ext (VBool true) colorize invert_color)
    /\ (upper s = "FALSE" ->
        format_boolean ext (VStr s) colorize invert_color
        = format_boolean ext (VBool false) colorize invert_color)
    /\ (upper s <> "TRUE" -> upper s <> "FALSE" ->
        format_boolean ext (VStr s) colorize invert_color = Raise AssertionError).
Proof.
  intros ext s colorize invert_color. unfold format_boolean. cbn [str_of_value].
  repeat split.
  - intros E. rewrite E. reflexivity.
  - intros E. rewrite E. reflexivity.
  - intros H1 H2. unfold str_in. cbn [existsb].
    destruct (String.eqb (upper s) "TRUE") eqn:E1;
      [apply String.eqb_eq in E1; contradiction |].
    destruct (String.eqb (upper s) "FALSE") eqn:E2;
      [apply String.eqb_eq in E2; contradiction |].
    reflexivity.
Qed.

Lemma format_boolean_string_witness :
  format_boolean name_only_ext (VStr "tRuE") true false
  = format_boolean name_only_ext (VBool true) true false
  /\ format_boolean name_only_ext (VStr "False") false false
     = format_boolean name_only_ext (VBool false) false false
  /\ format_boolean name_only_ext (VStr "yes") true false = Raise AssertionError.
Proof.
  destruct (format_boolean_string name_only_ext "tRuE" true false) as [H1 _].
  destruct (format_boolean_string name_only_ext "False" false false) as [_ [H2 _]].
  destruct (format_boolean_string name_only_ext "yes" true false) as [_ [_ H3]].
  split; [apply H1; reflexivity |].
  split; [apply H2; reflexivity |].
  apply H3; discriminate.
Defined.

(** ** The prompt loop, line by line *)

(** ** The prompt loop: which lines are accepted *)

Lemma upper_char_idem : forall c, upper_char (upper_char c) = upper_char c.
Proof. intros c. destruct c as [[] [] [] [] [] [] [] []]; reflexivity. Qed.

Lemma upper_idem : forall s, upper (upper s) = upper s.
Proof.
  induction s as [| c s IH]; [reflexivity |].
  simpl. rewrite upper_char_idem, IH. reflexivity.
Qed.

Lemma str_in_In : forall x xs, str_in x xs = true <-> In x xs.
Proof.
  intros x xs. unfold str_in. rewrite existsb_exists. split.
  - intros [y [Hy E]]. apply String.eqb_eq in E. subst y. exact Hy.
  - intros H. exists x. split; [exact H | apply String.eqb_refl].
Qed.

Lemma str_in_upper_options :
  forall x legal, str_in (upper x) legal = true -> str_in (upper x) (map upper legal) = true.
Proof.
  intros x legal H. apply str_in_In. apply str_in_In in H.
  rewrite <- (upper_idem x). apply in_map. exact H.
Qed.

Lemma last_cons : forall (A : Type) (ls : list A) (l d : A), last (l :: ls) d = last ls l.
Proof.
  intros A ls. induction ls as [| x ls IH]; intros l d; [reflexivity |].
  change (last (l :: x :: ls) d) with (last (x :: ls) d).
  rewrite (IH x d), (IH x l). reflexivity.
Qed.

Lemma repeat_nat_snoc : forall s n, repeat_nat s n ++ s = repeat_nat s (S n).
Proof.
  intros s n. induction n as [| n IH].
  - cbn [repeat_nat append]. rewrite append_nil_r. reflexivity.
  - cbn [repeat_nat] in *. rewrite append_assoc, IH. reflexivity.
Qed.

Section PromptFacts.

Variable ext :
  forall (value rest : string) (conv : option ascii) (spec : string), result string.
Variables (msgs legal alt : list string) (options_str shown : string).
Hypothesis Hshown : display_message ext (msgs ++ [options_str]) = Ok shown.

(** The lines that are not accepted are asked again. *)
Lemma prompt_loop_rejected :
  forall lines tail answer out,
    accepted legal alt answer = false ->
    forallb (fun l => negb (accepted legal alt l)) lines = true ->
    prompt_loop ext msgs legal alt options_str None (map Line lines ++ tail) answer out
    = prompt_loop ext msgs legal alt options_str None tail (last lines answer)
        (out ++ repeat_nat (shown ++ "> ") (List.length lines)).
Proof.
  induction lines as [| l ls IH]; intros tail answer out Hrej Hall.
  - cbn [map app last List.length repeat_nat]. rewrite append_nil_r. reflexivity.
  - cbn [forallb] in Hall. apply andb_true_iff in Hall. destruct Hall as [Hl Hls].
    apply negb_true_iff in Hl.
    cbn [map app prompt_loop]. rewrite Hrej, Hshown.
    rewrite (IH tail l _ Hl Hls), last_cons.
    cbn [List.length repeat_nat]. rewrite !append_assoc. reflexivity.
Qed.

Lemma last_rejected :
  forall lines answer,
    accepted legal alt answer = false ->
    forallb (fun l => negb (accepted legal alt l)) lines = true ->
    accepted legal alt (last lines answer) = false.
Proof.
  induction lines as [| l ls IH]; intros answer Hrej Hall; [exact Hrej |].
  cbn [forallb] in Hall. apply andb_true_iff in Hall. destruct Hall as [Hl Hls].
  apply negb_true_iff in Hl. rewrite last_cons. apply IH; assumption.
Qed.

(** After the rejected lines, the first accepted line ends the loop. *)
Lemma prompt_loop_accepts :
  forall lines typed rest answer out,
    accepted legal alt answer = false ->
    forallb (fun l => negb (accepted legal alt l)) lines = true ->
    accepted legal alt typed = true ->
    prompt_loop ext msgs legal alt options_str None
      (map Line lines ++ Line typed :: rest) answer out
    = (Ok typed, out ++ repeat_nat (shown ++ "> ") (S (List.length lines))).
Proof.
  intros lines typed rest answer out Hrej Hall Hacc.
  rewrite (prompt_loop_rejected lines _ answer out Hrej Hall).
  cbn [prompt_loop]. rewrite (last_rejected lines answer Hrej Hall), Hshown.
  destruct rest as [| ev rest]; cbn [prompt_loop]; rewrite Hacc;
    rewrite <- repeat_nat_snoc, !append_assoc; reflexivity.
Qed.

End PromptFacts.

(** ** Placeholders between single braces *)

Lemma keyword_name_first :
  forall name, keyword_name name = true ->
    exists c rest, name = String c rest /\ is_brace c = false.
Proof.
  intros name H. unfold keyword_name in H. apply andb_true_iff in H.
  destruct H as [Hn Hd]. destruct name as [| c rest]; [discriminate Hd |].
  exists c, rest. split; [reflexivity |].
  cbn [all_name_chars] in Hn. apply andb_true_iff in Hn. destruct Hn as [Hc _].
  unfold name_char in Hc. apply negb_true_iff in Hc.
  repeat (apply orb_false_elim in Hc; destruct Hc as [Hc ?]).
  unfold is_brace. rewrite Hc. assumption.
Qed.

Lemma resolved_piece_keyword :
  forall kw name, resolved_piece kw (Field name) = true -> keyword_name name = true.
Proof. intros kw name H. cbn in H. apply andb_true_iff in H. apply H. Qed.

Lemma is_brace_neq :
  forall c b, is_brace c = false -> is_brace b = true -> Ascii.eqb c b = false.
Proof.
  intros c b Hc Hb. destruct (Ascii.eqb c b) eqn:E; [| reflexivity].
  apply Ascii.eqb_eq in E. subst c. congruence.
Qed.

Lemma pieces_src_start :
  forall kw ps, forallb (resolved_piece kw) ps = true ->
    starts_with "}" (pieces_src ps) = false.
Proof.
  intros kw ps. induction ps as [| p ps IH]; intros H; [reflexivity |].
  cbn [forallb] in H. apply andb_true_iff in H. destruct H as [Hp Hps].
  cbn [pieces_src]. destruct p as [s | name]; cbn [piece_src]; [| reflexivity].
  apply starts_with_append; [apply IH, Hps |].
  pose proof (resolved_piece_text kw s Hp) as Hs.
  destruct s as [| c s]; [reflexivity |].
  cbn [has_brace] in Hs. apply orb_false_elim in Hs. destruct Hs as [Hc _].
  cbn [starts_with]. apply is_brace_neq; [exact Hc | reflexivity].
Qed.

(** Single braces around keyword names are not collapsed. *)
Lemma replace_open_src :
  forall kw ps,
    forallb (resolved_piece kw) ps = true ->
    str_replace "{{" "{" (pieces_src ps) = pieces_src ps.
Proof.
  intros kw ps. unfold str_replace. change "{{" with (pair_str "{" "{").
  induction ps as [| p ps IH]; intros H; [reflexivity |].
  cbn [forallb] in H. apply andb_true_iff in H. destruct H as [Hp Hps].
  cbn [pieces_src]. destruct p as [s | name]; cbn [piece_src].
  - rewrite replace_pair_skip
      by (apply has_brace_no_char; [reflexivity | apply (resolved_piece_text kw), Hp]).
    rewrite (IH Hps). reflexivity.
  - pose proof (resolved_piece_name kw name Hp) as Hn.
    destruct (keyword_name_first name (resolved_piece_keyword kw name Hp))
      as [c [rest [E Hc]]].
    assert (Es : ("{" ++ name ++ "}") ++ pieces_src ps
                 = String "{" ((name ++ "}") ++ pieces_src ps)).
    { cbn [append]. rewrite !append_assoc. reflexivity. }
    rewrite Es, replace_pair_cons.
    assert (Hst : starts_with "{" ((name ++ "}") ++ pieces_src ps) = false).
    { rewrite E. cbn [append starts_with]. apply is_brace_neq; [exact Hc | reflexivity]. }
    rewrite Hst, andb_false_r.
    rewrite (replace_pair_skip "{" "{" "{" (name ++ "}")).
    + rewrite (IH Hps). reflexivity.
    + apply has_char_append_false; [| reflexivity].
      apply has_brace_no_char; [reflexivity | exact Hn].
Qed.

Lemma replace_close_src :
  forall kw ps,
    forallb (resolved_piece kw) ps = true ->
    str_replace "}}" "}" (pieces_src ps) = pieces_src ps.
Proof.
  intros kw ps. unfold str_replace. change "}}" with (pair_str "}" "}") at 1.
  induction ps as [| p ps IH]; intros H; [reflexivity |].
  cbn [forallb] in H. apply andb_true_iff in H. destruct H as [Hp Hps].
  cbn [pieces_src]. destruct p as [s | name]; cbn [piece_src].
  - rewrite replace_pair_skip
      by (apply has_brace_no_char; [reflexivity | apply (resolved_piece_text kw), Hp]).
    rewrite (IH Hps). reflexivity.
  - pose proof (resolved_piece_name kw name Hp) as Hn.
    assert (Es : ("{" ++ name ++ "}") ++ pieces_src ps
                 = ("{" ++ name) ++ String "}" (pieces_src ps)).
    { cbn [append]. rewrite !append_assoc. reflexivity. }
    rewrite Es, replace_pair_skip.
    + rewrite replace_pair_cons, (pieces_src_start kw ps Hps), andb_false_r, (IH Hps).
      reflexivity.
    + cbn [append has_char]. cbn [Ascii.eqb Bool.eqb orb].
      apply has_brace_no_char; [reflexivity | exact Hn].
Qed.

Lemma collapse_src :
  forall kw ps,
    forallb (resolved_piece kw) ps = true ->
    has_pair BACKSLASH "n" (pieces_src ps) = false ->
    collapse (pieces_src ps) = pieces_src ps.
Proof.
  intros kw ps Hps Hn. unfold collapse.
  change (String BACKSLASH "n") with (pair_str BACKSLASH "n").
  rewrite (replace_pair_absent _ _ _ _ Hn).
  rewrite (replace_open_src kw ps Hps). apply (replace_close_src kw ps Hps).
Qed.

Lemma format_string_src :
  forall ext ps,
    forallb (resolved_piece palette) ps = true ->
    has_pair BACKSLASH "n" (pieces_src ps) = false ->
    format_string ext (pieces_src ps) = Ok (pieces_value palette ps ++ ENDC).
Proof.
  intros ext ps Hps Hn. unfold format_string.
  rewrite (collapse_src palette ps Hps Hn).
  rewrite (str_format_resolved ext palette ps Hps). reflexivity.
Qed.

(** X9: palette names between single braces are substituted as well: a
    template of text without braces and of palette names between single
    braces, with no backslash before an [n], gives the text with every
    placeholder replaced by its escape code, and the reset code. *)
Theorem format_string_single_braces :
  forall ext ps,
    forallb (resolved_piece palette) ps = true ->
    has_pair BACKSLASH "n" (pieces_src ps) = false ->
    format_string ext (pieces_src ps) = Ok (pieces_value palette ps ++ ENDC).
Proof. exact format_string_src. Qed.

Lemma format_string_single_braces_witness :
  format_string name_only_ext "{GREEN}ok{COLOR_NONE}"
  = Ok (GREEN ++ "ok" ++ ENDC ++ ENDC).
Proof.
  apply (format_string_single_braces name_only_ext
           [Field "GREEN"; Text "ok"; Field "COLOR_NONE"]);
    reflexivity.
Defined.

(** ** The prompt of the default answer *)

Lemma is_brace_upper_char : forall c, is_brace (upper_char c) = is_brace c.
Proof. intros c. destruct c as [[] [] [] [] [] [] [] []]; reflexivity. Qed.

Lemma has_brace_upper : forall s, has_brace (upper s) = has_brace s.
Proof.
  induction s as [| c s IH]; [reflexivity |].
  simpl. rewrite is_brace_upper_char, IH. reflexivity.
Qed.

Lemma has_char_upper_lower :
  forall c s, is_lower c = true -> has_char c (upper s) = false.
Proof.
  intros c s Hc. induction s as [| x s IH]; [reflexivity |].
  cbn [upper has_char]. rewrite IH, orb_false_r.
  destruct (Ascii.eqb (upper_char x) c) eqn:E; [| reflexivity].
  apply Ascii.eqb_eq in E. rewrite <- E, upper_char_not_lower in Hc. discriminate.
Qed.

Lemma has_pair_no_second :
  forall a b s t,
    has_char b s = false -> starts_with b t = false ->
    has_pair a b (s ++ t) = has_pair a b t.
Proof.
  intros a b s t. induction s as [| x s IH]; intros Hs Ht; [reflexivity |].
  cbn [has_char] in Hs. apply orb_false_elim in Hs. destruct Hs as [Hx Hs'].
  cbn [append has_pair]. rewrite (IH Hs' Ht).
  assert (Hst : starts_with b (s ++ t) = false).
  { destruct s as [| y s]; [exact Ht |].
    cbn [has_char] in Hs'. apply orb_false_elim in Hs'. cbn [append starts_with]. apply Hs'. }
  rewrite Hst, andb_false_r. reflexivity.
Qed.

(** The prompt that shows the default answer. *)
Lemma prompt_text :
  forall ext d,
    has_brace d = false ->
    format_string ext ("({BRIGHT_YELLOW}" ++ upper d ++ "{COLOR_NONE}) > ")
    = Ok ("(" ++ BRIGHT_YELLOW ++ upper d ++ ENDC ++ ") > " ++ ENDC).
Proof.
  intros ext d Hd.
  assert (Hu : has_brace (upper d) = false) by (rewrite has_brace_upper; exact Hd).
  set (ps := [Text "("; Field "BRIGHT_YELLOW"; Text (upper d); Field "COLOR_NONE";
              Text ") > "]).
  assert (Esrc : "({BRIGHT_YELLOW}" ++ upper d ++ "{COLOR_NONE}) > " = pieces_src ps).
  { unfold ps. cbn [pieces_src piece_src append]. rewrite ?append_assoc. reflexivity. }
  assert (Hps : forallb (resolved_piece palette) ps = true).
  { unfold ps. cbn [forallb resolved_piece]. rewrite Hu. reflexivity. }
  assert (Hn : has_pair BACKSLASH "n" (pieces_src ps) = false).
  { rewrite <- Esrc.
    assert (Ea : "({BRIGHT_YELLOW}" ++ upper d ++ "{COLOR_NONE}) > "
                 = ("({BRIGHT_YELLOW}" ++ upper d) ++ "{COLOR_NONE}) > ").
    { rewrite append_assoc. reflexivity. }
    rewrite Ea, has_pair_no_second; [reflexivity | | reflexivity].
    apply has_char_append_false; [reflexivity |].
    apply has_char_upper_lower. reflexivity. }
  rewrite Esrc, (format_string_src ext ps Hps Hn).
  unfold ps. cbn [pieces_value piece_value].
  change (lookup "BRIGHT_YELLOW" palette) with (Some BRIGHT_YELLOW).
  change (lookup "COLOR_NONE" palette) with (Some ENDC).
  cbn iota. rewrite ?append_assoc. reflexivity.
Qed.

(** ** The prompt: what [multiple_choice_user_input] returns *)

Lemma accepted_no_alias :
  forall legal x, accepted legal [] x = str_in (upper x) legal.
Proof. intros legal x. unfold accepted. apply orb_false_r. Qed.

Lemma rejected_no_alias :
  forall legal lines,
    forallb (fun l => negb (str_in (upper l) legal)) lines = true ->
    forallb (fun l => negb (accepted legal [] l)) lines = true.
Proof.
  intros legal lines H. induction lines as [| l ls IH]; [reflexivity |].
  cbn [forallb] in *. apply andb_true_iff in H. destruct H as [Hl Hls].
  rewrite accepted_no_alias, Hl, (IH Hls). reflexivity.
Qed.

Lemma has_brace_line_feeds : forall n, has_brace (repeat_nat (chr LF) n) = false.
Proof. induction n as [| n IH]; [reflexivity | exact IH]. Qed.

Lemma has_pair_line_feeds : forall a n, has_pair a "n" (repeat_nat (chr LF) n) = false.
Proof.
  intros a n. induction n as [| n IH]; [reflexivity |].
  cbn [repeat_nat chr append has_pair]. rewrite IH, orb_false_r.
  destruct n; cbn [repeat_nat chr append starts_with]; apply andb_false_r.
Qed.

(** The blank lines before the first prompt. *)
Lemma blank_lines_text :
  forall ext blank_lines,
    (if (0 <? blank_lines)%Z
     then display_message ext [str_mul (chr LF) blank_lines]
     else Ok "")
    = Ok (if (0 <? blank_lines)%Z
          then str_mul (chr LF) blank_lines ++ ENDC ++ chr LF
          else "").
Proof.
  intros ext blank_lines. destruct (0 <? blank_lines)%Z; [| reflexivity].
  apply display_message_plain_text.
  - apply has_brace_line_feeds.
  - apply has_pair_line_feeds.
Qed.

(** X10: without aliases and without a default, the function returns the
    upper-cased form of the first line whose upper-cased form is one of the
    legal answers as they were passed; before it, the blank lines are
    written once, and the question with the options and the prompt ["> "]
    once for that line and once for every line before it. The rest of the
    input is not read. *)
Theorem prompt_returns_first_accepted_line :
  forall ext msgs legal blank_lines lines typed rest shown,
    display_message ext (msgs ++ ["(" ++ join "," (map upper legal) ++ ")"]) = Ok shown ->
    str_in "" legal = false ->
    forallb (fun l => negb (str_in (upper l) legal)) lines = true ->
    str_in (upper typed) legal = true ->
    multiple_choice_user_input ext msgs legal None None blank_lines
      (map Line lines ++ Line typed :: rest)
    = (Ok (upper typed),
       (if (0 <? blank_lines)%Z then str_mul (chr LF) blank_lines ++ ENDC ++ chr LF else "")
       ++ repeat_nat (shown ++ "> ") (S (List.length lines))).
Proof.
  intros ext msgs legal blank_lines lines typed rest shown Hshown Hempty Hrej Hacc.
  unfold multiple_choice_user_input. cbn [forallb negb map fold_left].
  rewrite blank_lines_text.
  rewrite (prompt_loop_accepts ext msgs legal [] _ shown Hshown lines typed rest "" _).
  - reflexivity.
  - rewrite accepted_no_alias. exact Hempty.
  - apply rejected_no_alias. exact Hrej.
  - rewrite accepted_no_alias. exact Hacc.
Qed.

Lemma prompt_returns_first_accepted_line_witness :
  exists shown,
    display_message name_only_ext ["Continue?"; "(YES,NO)"] = Ok shown
    /\ multiple_choice_user_input name_only_ext ["Continue?"] ["YES"; "NO"] None None 0
         [Line "maybe"; Line "no"; Line "yes"]
       = (Ok "NO", repeat_nat (shown ++ "> ") 2).
Proof.
  eexists. split; [reflexivity |].
  apply (prompt_returns_first_accepted_line name_only_ext ["Continue?"] ["YES"; "NO"]
           0%Z ["maybe"] "no" [Line "yes"]);
    reflexivity.
Defined.

(** X11: the loop ends only with a legal answer: without aliases and without
    a default, when no line of the input is accepted, the function asks
    once more after the last line and raises [EOFError] at the end of the
    input; an interrupt from the keyboard at a prompt leaves it with
    [SystemExit]. In both cases no answer is returned. *)
Theorem prompt_needs_a_legal_answer :
  forall ext msgs legal blank_lines lines rest shown,
    display_message ext (msgs ++ ["(" ++ join "," (map upper legal) ++ ")"]) = Ok shown ->
    str_in "" legal = false ->
    forallb (fun l => negb (str_in (upper l) legal)) lines = true ->
    multiple_choice_user_input ext msgs legal None None blank_lines (map Line lines)
    = (Raise EOFError,
       (if (0 <? blank_lines)%Z then str_mul (chr LF) blank_lines ++ ENDC ++ chr LF else "")
       ++ repeat_nat (shown ++ "> ") (S (List.length lines)))
    /\ multiple_choice_user_input ext msgs legal None None blank_lines
         (map Line lines ++ Interrupt :: rest)
       = (Raise SystemExit,
          (if (0 <? blank_lines)%Z then str_mul (chr LF) blank_lines ++ ENDC ++ chr LF else "")
          ++ repeat_nat (shown ++ "> ") (S (List.length lines))).
Proof.
  intros ext msgs legal blank_lines lines rest shown Hshown Hempty Hrej.
  assert (H0 : accepted legal [] "" = false) by (rewrite accepted_no_alias; exact Hempty).
  pose proof (rejected_no_alias legal lines Hrej) as Hall.
  unfold multiple_choice_user_input. cbn [forallb negb map fold_left].
  rewrite blank_lines_text. split.
  - rewrite <- (app_nil_r (map Line lines)).
    rewrite (prompt_loop_rejected ext msgs legal [] _ shown Hshown lines [] "" _ H0 Hall).
    cbn [prompt_loop]. rewrite (last_rejected legal [] lines "" H0 Hall), Hshown.
    rewrite <- repeat_nat_snoc, !append_assoc. reflexivity.
  - rewrite (prompt_loop_rejected ext msgs legal [] _ shown Hshown lines _ "" _ H0 Hall).
    cbn [prompt_loop]. rewrite (last_rejected legal [] lines "" H0 Hall), Hshown.
    rewrite <- repeat_nat_snoc, !append_assoc. reflexivity.
Qed.

Lemma prompt_needs_a_legal_answer_witness :
  exists shown,
    display_message name_only_ext ["Continue?"; "(YES,NO)"] = Ok shown
    /\ multiple_choice_user_input name_only_ext ["Continue?"] ["YES"; "NO"] None None 0
         [Line "maybe"; Line "y"]
       = (Raise EOFError, repeat_nat (shown ++ "> ") 3)
    /\ multiple_choice_user_input name_only_ext ["Continue?"] ["YES"; "NO"] None None 0
         [Line "maybe"; Line "y"; Interrupt; Line "yes"]
       = (Raise SystemExit, repeat_nat (shown ++ "> ") 3).
Proof.
  eexists. split; [reflexivity |].
  apply (prompt_needs_a_legal_answer name_only_ext ["Continue?"] ["YES"; "NO"]
           0%Z ["maybe"; "y"] [Line "yes"]);
    reflexivity.
Defined.

(** X12: with a default answer [d] without braces, whose upper-cased form is
    one of the legal answers as they were passed, an empty first line
    returns the upper-cased default; the prompt written before it shows the
    default in bright yellow between parentheses. *)
Theorem prompt_default_on_empty_line :
  forall ext msgs legal d rest shown,
    display_message ext (msgs ++ ["(" ++ join "," (map upper legal) ++ ")"]) = Ok shown ->
    has_brace d = false ->
    str_in "" legal = false ->
    str_in (upper d) legal = true ->
    multiple_choice_user_input ext msgs legal None (Some d) 0 (Line "" :: rest)
    = (Ok (upper d),
       shown ++ "(" ++ BRIGHT_YELLOW ++ upper d ++ ENDC ++ ") > " ++ ENDC).
Proof.
  intros ext msgs legal d rest shown Hshown Hd Hempty Hlegal.
  unfold multiple_choice_user_input. cbn [forallb negb map fold_left].
  rewrite (str_in_upper_options d legal Hlegal). cbn [negb].
  change (0 <? 0)%Z with false. cbv iota.
  assert (H0 : accepted legal [] "" = false) by (rewrite accepted_no_alias; exact Hempty).
  assert (H1 : accepted legal [] (upper d) = true).
  { rewrite accepted_no_alias, upper_idem. exact Hlegal. }
  cbn [prompt_loop]. rewrite H0, Hshown, (prompt_text ext d Hd).
  change (String.eqb "" "") with true. cbv iota.
  destruct rest as [| ev rest]; cbn [prompt_loop]; rewrite H1;
    cbn [str_in existsb]; rewrite upper_idem; reflexivity.
Qed.

Lemma prompt_default_on_empty_line_witness :
  exists shown,
    display_message name_only_ext ["Continue?"; "(YES,NO)"] = Ok shown
    /\ multiple_choice_user_input name_only_ext ["Continue?"] ["YES"; "NO"] None
         (Some "no") 0 [Line ""; Line "yes"]
       = (Ok "NO", shown ++ "(" ++ BRIGHT_YELLOW ++ "NO" ++ ENDC ++ ") > " ++ ENDC).
Proof.
  eexists. split; [reflexivity |].
  apply (prompt_default_on_empty_line name_only_ext ["Continue?"] ["YES"; "NO"] "no"
           [Line "yes"]);
    reflexivity.
Defined.

(** ** The prompt: aliases and the answers returned *)

Lemma lookup_dict_set_same :
  forall k v d, lookup k (dict_set k v d) = Some v.
Proof.
  intros k v d. induction d as [| [k' v'] d IH].
  - cbn [dict_set lookup]. rewrite String.eqb_refl. reflexivity.
  - cbn [dict_set]. destruct (String.eqb k k') eqn:E.
    + cbn [lookup]. rewrite String.eqb_refl. reflexivity.
    + cbn [lookup]. rewrite E. exact IH.
Qed.

Lemma lookup_dict_set_other :
  forall k k' v d, String.eqb k' k = false -> lookup k' (dict_set k v d) = lookup k' d.
Proof.
  intros k k' v d Hne. induction d as [| [k0 v0] d IH].
  - cbn [dict_set lookup]. rewrite Hne. reflexivity.
  - cbn [dict_set]. destruct (String.eqb k k0) eqn:E.
    + apply String.eqb_eq in E. subst k0. cbn [lookup]. rewrite Hne. reflexivity.
    + cbn [lookup]. rewrite IH. reflexivity.
Qed.

Section AliasFacts.

Let step (d : list (string * string)) (kv : string * string) :=
  dict_set (upper (fst kv)) (snd kv) d.

(** A key that no alias upper-cases to keeps its entry. *)
Lemma lookup_fold_other :
  forall l d k,
    ~ In k (map (fun kv => upper (fst kv)) l) ->
    lookup k (fold_left step l d) = lookup k d.
Proof.
  induction l as [| [k0 v0] l IH]; intros d k Hn; [reflexivity |].
  cbn [fold_left]. rewrite IH.
  - unfold step. cbn [fst snd]. apply lookup_dict_set_other.
    destruct (String.eqb k (upper k0)) eqn:E; [| reflexivity].
    apply String.eqb_eq in E. exfalso. apply Hn. left. cbn [fst]. symmetry. exact E.
  - intros Hin. apply Hn. right. exact Hin.
Qed.

(** With aliases whose upper-cased keys differ, each key finds its own value. *)
Lemma lookup_fold_nodup :
  forall l d k v,
    NoDup (map (fun kv => upper (fst kv)) l) ->
    In (k, v) l ->
    lookup (upper k) (fold_left step l d) = Some v.
Proof.
  induction l as [| [k0 v0] l IH]; intros d k v Hnd Hin; [contradiction |].
  cbn [map fst] in Hnd. inversion Hnd as [| x xs Hnotin Hnd' Heq]. subst x xs.
  cbn [fold_left]. destruct Hin as [Hhead | Htail].
  - injection Hhead as -> ->. rewrite (lookup_fold_other l _ _ Hnotin).
    unfold step. cbn [fst snd]. apply lookup_dict_set_same.
  - apply IH; assumption.
Qed.

(** Every entry of the upper-cased dictionary is the value of some alias. *)
Lemma lookup_fold_value :
  forall l d k v,
    lookup k (fold_left step l d) = Some v ->
    (exists kv, In kv l /\ v = snd kv) \/ lookup k d = Some v.
Proof.
  induction l as [| [k0 v0] l IH]; intros d k v H; [right; exact H |].
  cbn [fold_left] in H. destruct (IH _ _ _ H) as [[kv [Hin E]] | Hd].
  - left. exists kv. split; [right; exact Hin | exact E].
  - unfold step in Hd. cbn [fst snd] in Hd.
    destruct (String.eqb k (upper k0)) eqn:E.
    + apply String.eqb_eq in E. subst k. rewrite lookup_dict_set_same in Hd.
      injection Hd as <-. left. exists (k0, v0). split; [left; reflexivity | reflexivity].
    + rewrite (lookup_dict_set_other _ _ _ _ E) in Hd. right. exact Hd.
Qed.

Lemma lookup_fold_kept :
  forall l d k v,
    lookup k d = Some v -> exists v', lookup k (fold_left step l d) = Some v'.
Proof.
  induction l as [| [k0 v0] l IH]; intros d k v H; [exists v; exact H |].
  cbn [fold_left]. unfold step at 2. cbn [fst snd].
  destruct (String.eqb k (upper k0)) eqn:E.
  - apply String.eqb_eq in E. subst k. apply (IH _ _ v0). apply lookup_dict_set_same.
  - apply (IH _ _ v). rewrite (lookup_dict_set_other _ _ _ _ E). exact H.
Qed.

(** Every upper-cased key has an entry. *)
Lemma lookup_fold_key :
  forall l d k,
    In k (map (fun kv => upper (fst kv)) l) ->
    exists v, lookup k (fold_left step l d) = Some v.
Proof.
  induction l as [| [k0 v0] l IH]; intros d k Hin; [contradiction |].
  cbn [map fst] in Hin. cbn [fold_left]. destruct Hin as [Hhead | Htail].
  - subst k. apply (lookup_fold_kept l _ _ v0).
    unfold step. cbn [fst snd]. apply lookup_dict_set_same.
  - apply IH. exact Htail.
Qed.

End AliasFacts.

(** The loop ends with an accepted answer only. *)
Lemma prompt_loop_ok_accepted :
  forall ext msgs legal alt options_str default stdin answer out r out',
    prompt_loop ext msgs legal alt options_str default stdin answer out = (Ok r, out') ->
    accepted legal alt r = true.
Proof.
  intros ext msgs legal alt options_str default stdin.
  induction stdin as [| ev stdin IH]; intros answer out r out' H;
    cbn [prompt_loop] in H;
    destruct (accepted legal alt answer) eqn:Hacc;
    try (injection H as <- _; exact Hacc);
    destruct (display_message ext (msgs ++ [options_str])) as [shown | e];
    try discriminate H;
    destruct (match default with
              | Some d => format_string ext ("({BRIGHT_YELLOW}" ++ upper d ++ "{COLOR_NONE}) > ")
              | None => Ok "> "
              end) as [prompt | e]; try discriminate H.
  destruct ev as [typed |]; [| discriminate H].
  apply (IH _ _ _ _ H).
Qed.

(** X13: whatever is typed, an answer that the function returns is one of
    the upper-cased legal answers: the upper-cased line itself when it is a
    legal answer, the upper-cased target of the alias otherwise. *)
Theorem prompt_answer_is_an_option :
  forall ext msgs legal aliases default blank_lines stdin answer out,
    multiple_choice_user_input ext msgs legal aliases default blank_lines stdin
    = (Ok answer, out) ->
    In answer (map upper legal).
Proof.
  intros ext msgs legal aliases default blank_lines stdin answer out H.
  unfold multiple_choice_user_input in H.
  set (alist := match aliases with Some d => d | None => [] end) in *.
  destruct (forallb (fun kv => str_in (upper (snd kv)) (map upper legal)) alist) eqn:Hval;
    cbn [negb] in H; [| discriminate H].
  destruct (negb match default with
                 | Some d => str_in (upper d) (map upper legal)
                 | None => true
                 end); [discriminate H |].
  destruct (if (0 <? blank_lines)%Z
            then display_message ext [str_mul (chr LF) blank_lines]
            else Ok "") as [blank | e]; [| discriminate H].
  destruct (prompt_loop ext msgs legal (map (fun kv => upper (fst kv)) alist)
              ("(" ++ join "," (map upper legal) ++ ")") default stdin "" blank)
    as [[r | e] out'] eqn:Hloop; [| discriminate H].
  pose proof (prompt_loop_ok_accepted _ _ _ _ _ _ _ _ _ _ _ Hloop) as Hacc.
  injection H as H _. subst answer. apply str_in_In.
  destruct (str_in (upper r) (map (fun kv => upper (fst kv)) alist)) eqn:Halt.
  - apply str_in_In in Halt.
    destruct (lookup_fold_key alist [] _ Halt) as [v Hv]. rewrite Hv.
    destruct (lookup_fold_value alist [] _ _ Hv) as [[kv [Hin ->]] | Hnil];
      [| discriminate Hnil].
    rewrite forallb_forall in Hval. apply (Hval kv Hin).
  - unfold accepted in Hacc. rewrite Halt, orb_false_r in Hacc.
    apply str_in_upper_options. exact Hacc.
Qed.

Lemma prompt_answer_is_an_option_witness :
  In "YES" (map upper ["yes"; "NO"]).
Proof.
  apply (prompt_answer_is_an_option name_only_ext ["Continue?"] ["yes"; "NO"]
           (Some [("y", "yes"); ("n", "no")]) None 0%Z [Line "what"; Line "Y"]
           "YES"
           (snd (multiple_choice_user_input name_only_ext ["Continue?"] ["yes"; "NO"]
                   (Some [("y", "yes"); ("n", "no")]) None 0%Z [Line "what"; Line "Y"]))).
  reflexivity.
Defined.

(** X14: a line that upper-cases like the key of an alias is accepted and
    mapped: with aliases whose values are legal answers and whose
    upper-cased keys differ from each other, the first line, when its
    upper-cased form is that of the key [k] of the alias [(k, v)], returns
    the upper-cased [v] after one prompt. *)
Theorem prompt_alias_is_mapped :
  forall ext msgs legal aliases k v typed rest shown,
    display_message ext (msgs ++ ["(" ++ join "," (map upper legal) ++ ")"]) = Ok shown ->
    str_in "" legal = false ->
    str_in "" (map (fun kv => upper (fst kv)) aliases) = false ->
    forallb (fun kv => str_in (upper (snd kv)) (map upper legal)) aliases = true ->
    NoDup (map (fun kv => upper (fst kv)) aliases) ->
    In (k, v) aliases ->
    upper typed = upper k ->
    multiple_choice_user_input ext msgs legal (Some aliases) None 0 (Line typed :: rest)
    = (Ok (upper v), shown ++ "> ").
Proof.
  intros ext msgs legal aliases k v typed rest shown
         Hshown Hempty Hempty' Hval Hnd Hin Htyped.
  assert (Hkey : str_in (upper typed) (map (fun kv => upper (fst kv)) aliases) = true).
  { apply str_in_In. rewrite Htyped.
    apply (in_map (fun kv => upper (fst kv)) aliases (k, v) Hin). }
  unfold multiple_choice_user_input. rewrite Hval. cbn [negb].
  change (0 <? 0)%Z with false. cbv iota.
  rewrite (prompt_loop_accepts ext msgs legal _ _ shown Hshown [] typed rest "" "").
  - rewrite Hkey, Htyped, (lookup_fold_nodup aliases [] k v Hnd Hin).
    cbn [List.length repeat_nat append]. rewrite append_nil_r. reflexivity.
  - unfold accepted. cbn [upper]. rewrite Hempty, Hempty'. reflexivity.
  - reflexivity.
  - unfold accepted. rewrite Hkey. apply orb_true_r.
Qed.

Lemma prompt_alias_is_mapped_witness :
  exists shown,
    display_message name_only_ext ["Continue?"; "(YES,NO)"] = Ok shown
    /\ multiple_choice_user_input name_only_ext ["Continue?"] ["YES"; "NO"]
         (Some [("y", "yes"); ("n", "no")]) None 0 [Line "N"; Line "yes"]
       = (Ok "NO", shown ++ "> ").
Proof.
  eexists. split; [reflexivity |].
  apply (prompt_alias_is_mapped name_only_ext ["Continue?"] ["YES"; "NO"]
           [("y", "yes"); ("n", "no")] "n" "no" "N" [Line "yes"]).
  - reflexivity.
  - reflexivity.
  - reflexivity.
  - reflexivity.
  - repeat constructor; simpl; intuition discriminate.
  - right. left. reflexivity.
  - reflexivity.
Defined.

(** X15: the arguments are checked before anything is written or read: when
    the value of an alias, or the default, is none of the legal answers
    (compared in upper case), the function raises [AssertionError] and
    writes nothing. *)
Theorem prompt_checks_arguments_first :
  forall ext msgs legal aliases default blank_lines stdin,
    (exists d kv, aliases = Some d /\ In kv d
                  /\ str_in (upper (snd kv)) (map upper legal) = false)
    \/ (exists d, default = Some d /\ str_in (upper d) (map upper legal) = false) ->
    multiple_choice_user_input ext msgs legal aliases default blank_lines stdin
    = (Raise AssertionError, "").
Proof.
  intros ext msgs legal aliases default blank_lines stdin H.
  unfold multiple_choice_user_input.
  destruct (forallb (fun kv => str_in (upper (snd kv)) (map upper legal))
              match aliases with Some d => d | None => [] end) eqn:Hval;
    cbn [negb]; [| reflexivity].
  destruct H as [[d [kv [-> [Hin Hbad]]]] | [d [-> Hbad]]].
  - rewrite forallb_forall in Hval. rewrite (Hval kv Hin) in Hbad. discriminate Hbad.
  - rewrite Hbad. reflexivity.
Qed.

Lemma prompt_checks_arguments_first_witness :
  multiple_choice_user_input name_only_ext ["Continue?"] ["YES"; "NO"]
    (Some [("y", "yes"); ("m", "maybe")]) None 0 [Line "y"]
  = (Raise AssertionError, "")
  /\ multiple_choice_user_input name_only_ext ["Continue?"] ["YES"; "NO"]
       None (Some "quit") 0 [Line "y"]
     = (Raise AssertionError, "").
Proof.
  split.
  - apply prompt_checks_arguments_first. left.
    exists [("y", "yes"); ("m", "maybe")], ("m", "maybe").
    split; [reflexivity |]. split; [right; left; reflexivity | reflexivity].
  - apply prompt_checks_arguments_first. right.
    exists "quit". split; reflexivity.
Defined.

(** ** More on the rounding, and the digits of [repr] *)

Lemma forall_from_spec :
  forall f count from z,
    forall_from f from count = true ->
    (from <= z < from + Z.of_nat count)%Z -> f z = true.
Proof.
  intros f. induction count as [| n IH]; intros from z H Hz; [lia |].
  cbn [forall_from] in H. apply andb_true_iff in H. destruct H as [H0 H1].
  destruct (Z.eq_dec z from) as [-> | Hne]; [exact H0 |].
  apply (IH (from + 1)%Z); [exact H1 | lia].
Qed.

Lemma short_repr_table : forall_from short_repr_ok 1 (Z.to_nat 9999) = true.
Proof. vm_compute. reflexivity. Qed.

Local Open Scope Q_scope.

Lemma round_mag_rel_upper :
  forall x, pow2 (-1022) <= x -> round_mag x <= x * (1 + pow2 (-53)).
Proof.
  intros x Hn.
  assert (Hx : 0 < x) by (pose proof (pow2_pos (-1022)); lra).
  assert (Hl : (-1022 <= ilog2 x)%Z).
  { destruct (ilog2_spec x Hx) as [_ Hhi].
    assert (H : (-1022 < ilog2 x + 1)%Z) by (apply pow2_le_inv; lra). lia. }
  pose proof (scaled_ge x Hx Hl) as Hs.
  destruct (rne_near (x / pow2 (ulp_exp x))) as [Hr _].
  pose proof (pow2_pos (ulp_exp x)) as Hp.
  rewrite round_mag_eq.
  set (y := x / pow2 (ulp_exp x)) in *.
  assert (Ex : x == y * pow2 (ulp_exp x)) by (unfold y; field; lra).
  assert (Hh : (1 # 2) <= y * pow2 (-53)).
  { assert (E : pow2 52 * pow2 (-53) == 1 # 2) by reflexivity.
    pose proof (pow2_pos (-53)). nra. }
  rewrite Ex at 2.
  assert (inject_Z (rne y) <= y * (1 + pow2 (-53))) by lra.
  nra.
Qed.

(** The only integer within less than one half of a rational. *)
Lemma rne_unique :
  forall q z, inject_Z z - (1 # 2) < q -> q < inject_Z z + (1 # 2) -> rne q = z.
Proof.
  intros q z Hlo Hhi. destruct (rne_near q) as [H1 H2].
  assert (Ha : inject_Z (rne q) < inject_Z z + 1) by lra.
  assert (Hb : inject_Z z < inject_Z (rne q) + 1) by lra.
  rewrite <- inject_Z_succ in Ha, Hb. rewrite <- Zlt_Qlt in Ha, Hb. lia.
Qed.

Ltac eval_pows :=
  repeat match goal with
    | |- context [pow10 ?e] =>
        let v := eval vm_compute in (pow10 e) in
        lazymatch v with Qmake _ _ => change (pow10 e) with v end
    | |- context [pow2 ?e] =>
        let v := eval vm_compute in (pow2 e) in
        lazymatch v with Qmake _ _ => change (pow2 e) with v end
    | H : context [pow10 ?e] |- _ =>
        let v := eval vm_compute in (pow10 e) in
        lazymatch v with Qmake _ _ => change (pow10 e) with v in H end
    | H : context [pow2 ?e] |- _ =>
        let v := eval vm_compute in (pow2 e) in
        lazymatch v with Qmake _ _ => change (pow2 e) with v in H end
    end.

Lemma Qle_bool_false : forall a b, Qle_bool a b = false -> b < a.
Proof.
  intros a b H. apply Qnot_le_lt. intros Hle. apply Qle_bool_iff in Hle. congruence.
Qed.

(** The decimal exponent of a rational between 1/16 and 1024. *)
Lemma decpt_of_spec :
  forall x, 1 # 16 <= x -> x < 1024 ->
    pow10 (decpt_of x - 1) <= x /\ x < pow10 (decpt_of x).
Proof.
  intros x Hlo Hhi.
  assert (Hx : 0 < x) by lra.
  destruct (ilog2_spec x Hx) as [Hl1 Hl2].
  assert (Hrange : (-4 <= ilog2 x <= 9)%Z).
  { split.
    - assert (H : (-4 < ilog2 x + 1)%Z).
      { apply pow2_le_inv. change (pow2 (-4)) with (1 # 16). lra. }
      lia.
    - assert (H : (ilog2 x < 10)%Z).
      { apply pow2_le_inv. change (pow2 10) with 1024. lra. }
      lia. }
  unfold decpt_of.
  remember (ilog2 x) as l eqn:Heql. clear Heql.
  assert (Hcases : l = (-4)%Z \/ l = (-3)%Z \/ l = (-2)%Z \/ l = (-1)%Z \/ l = 0%Z
                   \/ l = 1%Z \/ l = 2%Z \/ l = 3%Z \/ l = 4%Z \/ l = 5%Z \/ l = 6%Z
                   \/ l = 7%Z \/ l = 8%Z \/ l = 9%Z) by lia.
  clear Hrange.
  repeat (destruct Hcases as [-> | Hcases]); try subst l;
    match goal with
    | |- context [(?a * 30103 / 100000)%Z] =>
        let v := eval vm_compute in (a * 30103 / 100000)%Z in
        change (a * 30103 / 100000)%Z with v
    end;
    cbv zeta;
    repeat match goal with
      | |- context [Qle_bool ?a ?b] =>
          let E := fresh "E" in
          destruct (Qle_bool a b) eqn:E;
          [apply Qle_bool_iff in E | apply Qle_bool_false in E]
      end;
    eval_pows; split; lra.
Qed.

Local Close Scope Q_scope.

(** ** The width and the total of the progress bar at their edges *)

Lemma even_width_odd : forall k, even_width (2 * k + 1) = (2 * k)%Z.
Proof.
  intros k. unfold even_width.
  assert (E : ((2 * k + 1) mod 2 = 1)%Z).
  { rewrite Z.add_comm, Z.mul_comm, Z_mod_plus_full. reflexivity. }
  rewrite E. cbn. lia.
Qed.

Lemma even_width_double : forall k, even_width (2 * k) = (2 * k)%Z.
Proof.
  intros k. unfold even_width.
  assert (E : ((2 * k) mod 2 = 0)%Z).
  { rewrite Z.mul_comm. apply Z_mod_mult. }
  rewrite E. reflexivity.
Qed.

(** X16: an odd width is rounded down to the even width below it: the call
    with width [2 * k + 1] does what the call with width [2 * k] does. *)
Theorem display_progress_odd_width :
  forall count total old_percent k completed_char empty_char postpend_str,
    display_progress count total old_percent (2 * k + 1)
      completed_char empty_char postpend_str
    = display_progress count total old_percent (2 * k)
        completed_char empty_char postpend_str.
Proof.
  intros count total old_percent k completed_char empty_char postpend_str.
  unfold display_progress. rewrite even_width_odd, even_width_double. reflexivity.
Qed.

Local Open Scope Q_scope.

Lemma py_float_fin :
  forall n, (Z.abs n <= 2 ^ 1023)%Z ->
    py_float n = Ok (Fin (n <? 0)%Z (round_mag (inject_Z (Z.abs n)))).
Proof.
  intros n Hn. unfold py_float. rewrite round_float_fin; [reflexivity | |].
  - apply inject_Z_nonneg. lia.
  - rewrite pow2_nonneg_Z by lia. rewrite <- Zle_Qle. exact Hn.
Qed.

Lemma py_float_0 : py_float 0 = Ok (Fin false 0).
Proof. vm_compute. reflexivity. Qed.

Lemma py_truediv_zero : forall x s, py_truediv x (Fin s 0) = Raise ZeroDivisionError.
Proof. intros x s. reflexivity. Qed.

(** X17: a total of 0 makes the division of the percent fail: for every
    count that converts to a float, the call raises [ZeroDivisionError] and
    writes nothing, whatever the previous percent and the width are. *)
Theorem display_progress_zero_total :
  forall count old_percent width completed_char empty_char postpend_str,
    (Z.abs count <= 2 ^ 1023)%Z ->
    display_progress count 0 old_percent width completed_char empty_char postpend_str
    = Raise ZeroDivisionError.
Proof.
  intros count old_percent width completed_char empty_char postpend_str Hc.
  unfold display_progress, compute_percent.
  rewrite (bind_Ok_eq _ _ _ _ _ (py_float_fin count Hc)). cbv beta.
  rewrite (bind_Ok_eq _ _ _ _ _ py_float_0). cbv beta.
  rewrite py_truediv_zero. reflexivity.
Qed.

Lemma display_progress_zero_total_witness :
  display_progress 5 0 None 50 "#" "." "" = Raise ZeroDivisionError.
Proof.
  apply (display_progress_zero_total 5%Z None 50%Z "#" "." "").
  apply Z.leb_le. reflexivity.
Defined.

(** X18: a width of 0 or 1 leaves no segment to divide by: when the call
    has a percent to draw (it is not the previous one, or it is 0), the
    width of a segment, [100 / width], is a division by zero, and the call
    raises [ZeroDivisionError] without writing. *)
Theorem display_progress_narrow_width :
  forall count total old_percent width completed_char empty_char postpend_str percent,
    compute_percent count total = Ok percent ->
    match old_percent with
    | Some old => float_eqb percent old
    | None => false
    end && negb (float_eqb percent (Fin false 0)) = false ->
    width = 0%Z \/ width = 1%Z ->
    display_progress count total old_percent width completed_char empty_char postpend_str
    = Raise ZeroDivisionError.
Proof.
  intros count total old_percent width completed_char empty_char postpend_str percent
         Hp Hdraw Hw.
  assert (E : even_width width = 0%Z) by (destruct Hw as [-> | ->]; reflexivity).
  unfold display_progress. rewrite E.
  rewrite (bind_Ok_eq _ _ _ _ _ Hp). cbv beta. rewrite Hdraw.
  unfold build_done_str, segments. reflexivity.
Qed.

Lemma display_progress_narrow_width_witness :
  display_progress 50 100 None 1 "#" "." "" = Raise ZeroDivisionError.
Proof.
  apply (display_progress_narrow_width 50%Z 100%Z None 1%Z "#" "." "" (Fin false 50)).
  - exact compute_percent_50_of_100.
  - reflexivity.
  - right. reflexivity.
Defined.

(** ** The percent as a function of the count *)

(** The percent of a count between 0 and the total, rounding by rounding. *)
Lemma compute_percent_value :
  forall count total,
    (0 <= count <= total)%Z -> (0 < total)%Z -> inject_Z total <= pow2 1023 ->
    compute_percent count total = Ok (Fin false (percent_mag count total)).
Proof.
  intros count total Hc Ht Hmax.
  destruct (ratio_range count total Hc Ht Hmax)
    as [c [T [Hpc [Hpt [Hc0 [HcT [HT1 [HTmax HTid]]]]]]]].
  assert (Ec : c = round_mag (inject_Z count)).
  { rewrite py_float_nonneg in Hpc; [congruence | lia |].
    apply Qle_trans with (inject_Z total); [rewrite <- Zle_Qle; lia | exact Hmax]. }
  assert (ET : T = round_mag (inject_Z total)).
  { rewrite py_float_nonneg in Hpt; [congruence | lia | exact Hmax]. }
  pose proof small_le_pow2_1023 as H1023.
  unfold compute_percent, percent_mag. rewrite <- Ec, <- ET.
  rewrite (bind_Ok_eq _ _ _ _ _ Hpc). cbv beta.
  rewrite (bind_Ok_eq _ _ _ _ _ Hpt). cbv beta.
  rewrite fmul_fin, (round_float_fin _ (c * 1)) by lra.
  assert (Hc1 : 0 <= round_mag (c * 1)) by (apply round_mag_nonneg; lra).
  assert (Hc1T : round_mag (c * 1) <= T).
  { rewrite <- HTid. apply round_mag_le; lra. }
  remember (round_mag (c * 1)) as c1 eqn:Heqc1. clear Heqc1.
  rewrite (bind_Ok_eq _ _ _ _ _ (py_truediv_fin _ c1 _ T (Qeq_bool_pos T ltac:(lra)))).
  cbv beta.
  assert (Hr0 : 0 <= c1 / T) by (apply Qle_shift_div_l; [lra | rewrite Qmult_0_l; lra]).
  assert (Hr1 : c1 / T <= 1) by (apply Qle_shift_div_r; [lra | rewrite Qmult_1_l; lra]).
  rewrite (round_float_fin _ (c1 / T)) by lra.
  assert (Hrr0 : 0 <= round_mag (c1 / T)) by (apply round_mag_nonneg; exact Hr0).
  assert (Hrr1 : round_mag (c1 / T) <= 1).
  { apply (round_mag_le_Z _ 1); [exact Hr0 | lia | exact Hr1]. }
  remember (round_mag (c1 / T)) as r eqn:Heqr. clear Heqr.
  rewrite (bind_Ok_eq _ _ _ _ _ py_float_100). cbv beta.
  rewrite fmul_fin, (round_float_fin _ (r * 100)) by lra.
  reflexivity.
Qed.

Lemma Qdiv_le_compat_r :
  forall a b c, 0 < c -> a <= b -> a / c <= b / c.
Proof.
  intros a b c Hc Hab. apply Qle_shift_div_l; [exact Hc |].
  assert (E : a / c * c == a) by (field; lra). rewrite E. exact Hab.
Qed.

Lemma Qdiv_nonneg : forall a c, 0 <= a -> 0 < c -> 0 <= a / c.
Proof.
  intros a c Ha Hc. apply Qle_shift_div_l; [exact Hc | rewrite Qmult_0_l; exact Ha].
Qed.

(** The percent does not decrease when the count grows. *)
Lemma percent_mag_le :
  forall c1 c2 total,
    (0 <= c1 <= c2)%Z -> (0 < total)%Z ->
    percent_mag c1 total <= percent_mag c2 total.
Proof.
  intros c1 c2 total Hc Ht. unfold percent_mag.
  assert (H1 : 0 <= inject_Z c1) by (apply inject_Z_nonneg; lia).
  assert (H12 : inject_Z c1 <= inject_Z c2) by (rewrite <- Zle_Qle; lia).
  assert (HT : 1 <= round_mag (inject_Z total)).
  { apply (round_mag_ge_Z _ 1); [lia |].
    rewrite <- Zle_Qle. lia. }
  remember (round_mag (inject_Z total)) as T eqn:HeqT. clear HeqT.
  assert (Ha0 : 0 <= round_mag (inject_Z c1)) by (apply round_mag_nonneg; exact H1).
  assert (Ha : round_mag (inject_Z c1) <= round_mag (inject_Z c2))
    by (apply round_mag_le; assumption).
  remember (round_mag (inject_Z c1)) as a1 eqn:Heqa1. clear Heqa1.
  remember (round_mag (inject_Z c2)) as a2 eqn:Heqa2. clear Heqa2.
  assert (Hb0 : 0 <= round_mag (a1 * 1)) by (apply round_mag_nonneg; lra).
  assert (Hb : round_mag (a1 * 1) <= round_mag (a2 * 1)) by (apply round_mag_le; lra).
  remember (round_mag (a1 * 1)) as b1 eqn:Heqb1. clear Heqb1.
  remember (round_mag (a2 * 1)) as b2 eqn:Heqb2. clear Heqb2.
  assert (Hd0 : 0 <= b1 / T) by (apply Qdiv_nonneg; lra).
  assert (Hd : b1 / T <= b2 / T) by (apply Qdiv_le_compat_r; lra).
  assert (He0 : 0 <= round_mag (b1 / T)) by (apply round_mag_nonneg; exact Hd0).
  assert (He : round_mag (b1 / T) <= round_mag (b2 / T))
    by (apply round_mag_le; assumption).
  remember (round_mag (b1 / T)) as r1 eqn:Heqr1. clear Heqr1.
  remember (round_mag (b2 / T)) as r2 eqn:Heqr2. clear Heqr2.
  assert (Hf0 : 0 <= round_mag (r1 * 100)) by (apply round_mag_nonneg; lra).
  assert (Hf : round_mag (r1 * 100) <= round_mag (r2 * 100))
    by (apply round_mag_le; lra).
  remember (round_mag (r1 * 100)) as p1 eqn:Heqp1. clear Heqp1.
  remember (round_mag (r2 * 100)) as p2 eqn:Heqp2. clear Heqp2.
  change (pow10 1) with 10.
  assert (Hg0 : (0 <= rne (p1 * 10))%Z) by (apply rne_nonneg; lra).
  assert (Hg : (rne (p1 * 10) <= rne (p2 * 10))%Z) by (apply rne_le; lra).
  remember (rne (p1 * 10)) as t1 eqn:Heqt1. clear Heqt1.
  remember (rne (p2 * 10)) as t2 eqn:Heqt2. clear Heqt2.
  assert (Hq0 : 0 <= inject_Z t1) by (apply inject_Z_nonneg; exact Hg0).
  assert (Hq : inject_Z t1 <= inject_Z t2) by (rewrite <- Zle_Qle; exact Hg).
  apply round_mag_le.
  - apply Qdiv_nonneg; [exact Hq0 | reflexivity].
  - apply Qdiv_le_compat_r; [reflexivity | exact Hq].
Qed.

(** X19: the percent never goes back: for two counts between 0 and the
    total, the call with the larger count computes a percent that is not
    below the percent of the smaller count. *)
Theorem compute_percent_monotone :
  forall count1 count2 total,
    (0 <= count1 <= count2)%Z -> (count2 <= total)%Z -> (0 < total <= 2 ^ 1023)%Z ->
    exists p1 p2,
      compute_percent count1 total = Ok (Fin false p1)
      /\ compute_percent count2 total = Ok (Fin false p2)
      /\ 0 <= p1 /\ p1 <= p2 /\ p2 <= 100.
Proof.
  intros count1 count2 total H12 H2 Ht.
  assert (Hmax : inject_Z total <= pow2 1023).
  { rewrite pow2_nonneg_Z by lia. rewrite <- Zle_Qle. lia. }
  exists (percent_mag count1 total), (percent_mag count2 total).
  split; [apply compute_percent_value; [lia | lia | exact Hmax] |].
  split; [apply compute_percent_value; [lia | lia | exact Hmax] |].
  destruct (compute_percent_range count1 total ltac:(lia) ltac:(lia) Hmax)
    as [q1 [E1 [Hq1 _]]].
  destruct (compute_percent_range count2 total ltac:(lia) ltac:(lia) Hmax)
    as [q2 [E2 [_ Hq2]]].
  rewrite compute_percent_value in E1 by (try lia; exact Hmax).
  rewrite compute_percent_value in E2 by (try lia; exact Hmax).
  injection E1 as E1. injection E2 as E2. subst q1 q2.
  split; [exact Hq1 |].
  split; [apply percent_mag_le; lia | exact Hq2].
Qed.

Lemma compute_percent_monotone_witness :
  exists p1 p2,
    compute_percent 1 3 = Ok (Fin false p1)
    /\ compute_percent 2 3 = Ok (Fin false p2)
    /\ 0 <= p1 /\ p1 <= p2 /\ p2 <= 100.
Proof.
  apply (compute_percent_monotone 1%Z 2%Z 3%Z).
  - lia.
  - lia.
  - split; [reflexivity | apply Z.leb_le; reflexivity].
Defined.

(** ** The bar of a finished task *)


(** Equal rationals round to the same float, digit for digit. *)
Lemma round_mag_leibniz :
  forall x y, 0 <= x -> x == y -> round_mag x = round_mag y.
Proof.
  intros x y Hx E. pose proof (round_mag_proper x y Hx E) as H.
  unfold round_mag in *. cbv zeta in *. rewrite !Qred_correct in H.
  apply Qred_complete. exact H.
Qed.

Lemma rne_half_even_below :
  forall z, Z.even z = true -> rne (inject_Z z - (1 # 2)) = z.
Proof.
  intros z Hz. unfold rne.
  assert (Hf : Qfloor (inject_Z z - (1 # 2)) = (z - 1)%Z).
  { apply Z.le_antisymm.
    - assert (H : (Qfloor (inject_Z z - (1 # 2)) < z)%Z).
      { rewrite Zlt_Qlt. eapply Qle_lt_trans; [apply Qfloor_le |]. lra. }
      lia.
    - rewrite <- (Qfloor_Z (z - 1)) at 1. apply Qfloor_resp_le.
      unfold Z.sub. rewrite inject_Z_plus. change (inject_Z (- (1))) with (- (1)). lra. }
  rewrite Hf.
  assert (H : inject_Z z - (1 # 2) - inject_Z (z - 1) == 1 # 2).
  { unfold Z.sub. rewrite inject_Z_plus. change (inject_Z (- (1))) with (- (1)). ring. }
  rewrite H. simpl.
  assert (Hodd : Z.even (z - 1) = false).
  { rewrite Z.even_sub, Hz. reflexivity. }
  rewrite Hodd. lia.
Qed.

(** The percent of a count that has reached the total. *)
Lemma percent_mag_complete :
  forall total, (0 < total)%Z -> percent_mag total total = 100.
Proof.
  intros total Ht. unfold percent_mag.
  assert (HT : 1 <= round_mag (inject_Z total)).
  { apply (round_mag_ge_Z _ 1); [lia |]. rewrite <- Zle_Qle. lia. }
  assert (Hid : round_mag (round_mag (inject_Z total) * 1) == round_mag (inject_Z total)).
  { rewrite (round_mag_proper _ (round_mag (inject_Z total))); [| lra | ring].
    apply round_mag_idem. apply inject_Z_nonneg. lia. }
  remember (round_mag (inject_Z total)) as T eqn:HeqT. clear HeqT.
  remember (round_mag (T * 1)) as c eqn:Heqc. clear Heqc.
  assert (E : c / T == 1) by (rewrite Hid; field; lra).
  rewrite (round_mag_leibniz (c / T) 1); [| lra | exact E].
  vm_compute. reflexivity.
Qed.

(** The width of a segment is not above [100 / width] by more than one
    part in [2^53]. *)
Lemma per_segment_upper :
  forall width,
    (2 <= width < 2 ^ 52)%Z ->
    exists r, py_int_truediv 100 width = Ok (Fin false r)
              /\ 0 < r /\ r <= 50
              /\ r * inject_Z width <= 100 * (1 + (1 # 9007199254740992)).
Proof.
  intros width Hw.
  pose proof small_le_pow2_1023 as H1023.
  assert (HW2 : 2 <= inject_Z width).
  { change 2 with (inject_Z 2). rewrite <- Zle_Qle. lia. }
  assert (HWmax : inject_Z width <= 4503599627370495).
  { change 4503599627370495 with (inject_Z (2 ^ 52 - 1)). rewrite <- Zle_Qle. lia. }
  destruct (per_segment_range width Hw) as [r [Hdiv [Hr0 _]]].
  assert (Hval : py_int_truediv 100 width
                 = Ok (Fin false (round_mag (100 / inject_Z width)))).
  { apply py_int_truediv_pos; [lia | lia |].
    change (inject_Z 100) with 100.
    apply Qle_trans with 50; [apply Qle_shift_div_r; lra | lra]. }
  assert (Er : r = round_mag (100 / inject_Z width)) by congruence.
  remember (inject_Z width) as W eqn:HeqW.
  assert (HA1 : 100 / W <= 50) by (apply Qle_shift_div_r; lra).
  assert (HA0 : 0 < 100 / W).
  { apply Qlt_shift_div_l; [lra | rewrite Qmult_0_l; reflexivity]. }
  assert (HAW : 100 / W * W == 100) by (field; lra).
  assert (Hnorm : pow2 (-1022) <= 100 / W).
  { apply Qle_shift_div_l; [lra |].
    apply Qle_trans with (pow2 (-1022) * pow2 52).
    - apply Qmult_le_l; [apply pow2_pos |].
      change (pow2 52) with 4503599627370496. lra.
    - rewrite <- pow2_add. apply Qle_trans with (pow2 0); [apply pow2_le; lia |].
      change (pow2 0) with 1. lra. }
  pose proof (round_mag_rel_upper (100 / W) Hnorm) as Hup.
  rewrite pow2_m53 in Hup.
  exists r. split; [exact Hdiv |]. split; [exact Hr0 |].
  rewrite Er. remember (100 / W) as A eqn:HeqA.
  split.
  - change 50 with (inject_Z 50). apply round_mag_le_Z; [lra | lia |].
    change (inject_Z 50) with 50. exact HA1.
  - remember (round_mag A) as r' eqn:Heqr'.
    apply Qle_trans with (A * (1 + (1 # 9007199254740992)) * W).
    + apply Qmult_le_compat_r; lra.
    + assert (E : A * (1 + (1 # 9007199254740992)) * W
                  == A * W * (1 + (1 # 9007199254740992))) by ring.
      rewrite E, HAW. lra.
Qed.

(** At 100 percent every segment of the bar is filled. *)
Lemma full_bar_segments :
  forall width,
    (2 <= width < 2 ^ 51)%Z -> Z.even width = true ->
    exists q, segments (Fin false 100) width = Ok (Fin false q)
              /\ 0 <= q /\ rne q = width.
Proof.
  intros width Hw Heven.
  assert (Hw52 : (2 <= width < 2 ^ 52)%Z) by lia.
  destruct (segments_range 100 width ltac:(lra) ltac:(lra) Hw52) as [q [Hseg [Hq0 Hq1]]].
  exists q. split; [exact Hseg |]. split; [exact Hq0 |].
  apply Z.le_antisymm.
  - rewrite <- (rne_half_even width Heven). apply rne_le. exact Hq1.
  - rewrite <- (rne_half_even_below width Heven) at 1. apply rne_le.
    destruct (per_segment_upper width Hw52) as [r [Hdiv [Hr0 [Hr50 Hup]]]].
    assert (HW2 : 2 <= inject_Z width).
    { change 2 with (inject_Z 2). rewrite <- Zle_Qle. lia. }
    assert (HWmax : inject_Z width <= 2251799813685248).
    { change 2251799813685248 with (inject_Z (2 ^ 51)). rewrite <- Zle_Qle. lia. }
    unfold segments in Hseg.
    rewrite (bind_Ok_eq _ _ _ _ _ Hdiv) in Hseg. cbv beta in Hseg.
    rewrite (py_truediv_fin _ 100 _ r (Qeq_bool_pos r Hr0)) in Hseg.
    assert (HB0 : 2 <= 100 / r) by (apply Qle_shift_div_l; lra).
    assert (HBr : 100 / r * r == 100) by (field; lra).
    assert (HBW : inject_Z width <= 100 / r * (1 + (1 # 9007199254740992))).
    { assert (E : 100 / r * (1 + (1 # 9007199254740992))
                  == (100 * (1 + (1 # 9007199254740992))) / r) by (field; lra).
      rewrite E. apply Qle_shift_div_l; [exact Hr0 |].
      rewrite Qmult_comm. exact Hup. }
    assert (HBmax : 100 / r <= pow2 1023).
    { apply Qle_trans with (pow2 53); [| apply pow2_le; lia].
      change (pow2 53) with 9007199254740992.
      assert (Hle : 100 / r <= 4503599627370496).
      { apply Qle_shift_div_r; [exact Hr0 |].
        destruct (per_segment_range width Hw52) as [r2 [Hdiv2 [_ Hkey]]].
        assert (r2 = r) by congruence. subst r2.
        assert (Hx : r * (inject_Z width + (1 # 2)) <= r * 4503599627370496).
        { apply Qmult_le_l; [exact Hr0 | lra]. }
        rewrite Qmult_comm. lra. }
      lra. }
    rewrite round_float_fin in Hseg by lra.
    injection Hseg as Hq. subst q.
    assert (Hnorm : pow2 (-1022) <= 100 / r).
    { apply Qle_trans with (pow2 0); [apply pow2_le; lia |].
      change (pow2 0) with 1. lra. }
    pose proof (round_mag_rel_lower (100 / r) Hnorm) as Hlow.
    rewrite pow2_m53 in Hlow.
    remember (100 / r) as B eqn:HeqB.
    remember (round_mag B) as q eqn:Heqq.
    remember (inject_Z width) as W eqn:HeqW.
    lra.
Qed.

(** X20: a finished task shows 100.0 and a full bar: when the count has
    reached the total, the percent is exactly 100.0, all the segments of
    the (even) width are filled, and the empty part is the empty string. *)
Theorem display_progress_complete :
  forall total width completed_char empty_char,
    (0 < total <= 2 ^ 1023)%Z ->
    (2 <= width < 2 ^ 51)%Z ->
    compute_percent total total = Ok (Fin false 100)
    /\ build_done_str (Fin false 100) (even_width width) completed_char
       = Ok (str_mul completed_char (even_width width))
    /\ build_empty_str (Fin false 100) (even_width width) empty_char = Ok "".
Proof.
  intros total width completed_char empty_char Ht Hw.
  assert (Hmax : inject_Z total <= pow2 1023).
  { rewrite pow2_nonneg_Z by lia. rewrite <- Zle_Qle. lia. }
  assert (Hw' : (2 <= even_width width < 2 ^ 51)%Z).
  { pose proof (even_width_range width ltac:(lia)) as H.
    unfold even_width in *. destruct (negb (width mod 2 =? 0)%Z); lia. }
  assert (Heven : Z.even (even_width width) = true).
  { unfold even_width. destruct (width mod 2 =? 0)%Z eqn:E; cbn [negb].
    - apply Z.eqb_eq in E. rewrite Zeven_mod, E. reflexivity.
    - apply Z.eqb_neq in E. rewrite Z.even_sub. cbn.
      rewrite Zeven_mod. destruct (Z.mod_pos_bound width 2 ltac:(lia)) as [H0 H1].
      assert (Hm : (width mod 2 = 1)%Z) by lia. rewrite Hm. reflexivity. }
  destruct (full_bar_segments (even_width width) Hw' Heven) as [q [Hseg [Hq0 Hq]]].
  split; [| split].
  - rewrite compute_percent_value by (try lia; exact Hmax).
    rewrite percent_mag_complete by lia. reflexivity.
  - unfold build_done_str. rewrite (bind_Ok_eq _ _ _ _ _ Hseg). cbv beta.
    rewrite (bind_Ok_eq _ _ _ _ _ (int_round_0 q Hq0 ltac:(lia))). cbv beta.
    rewrite Hq. reflexivity.
  - unfold build_empty_str. rewrite (bind_Ok_eq _ _ _ _ _ Hseg). cbv beta.
    rewrite (bind_Ok_eq _ _ _ _ _ (py_round_fin_pos q)). cbv beta.
    rewrite Hq, Z.sub_diag. reflexivity.
Qed.

Lemma display_progress_complete_witness :
  compute_percent 7 7 = Ok (Fin false 100)
  /\ build_done_str (Fin false 100) (even_width 51) "#" = Ok (str_mul "#" (even_width 51))
  /\ build_empty_str (Fin false 100) (even_width 51) "." = Ok "".
Proof.
  apply (display_progress_complete 7%Z 51%Z "#" ".").
  - split; [reflexivity | apply Z.leb_le; reflexivity].
  - split; [apply Z.leb_le; reflexivity | reflexivity].
Defined.

(** ** The width of the percentage label *)


Lemma pow10_pos : forall e, 0 < pow10 e.
Proof. intros e. unfold pow10. apply Qpower_0_lt. reflexivity. Qed.

Lemma pow10_add : forall a b, pow10 (a + b) == pow10 a * pow10 b.
Proof. intros a b. unfold pow10. apply Qpower_plus. discriminate. Qed.

Lemma pow10_le : forall a b, (a <= b)%Z -> pow10 a <= pow10 b.
Proof. intros a b H. unfold pow10. apply Qpower_le_compat_l; [exact H | discriminate]. Qed.

Lemma pow10_lt_inv : forall a b, pow10 a < pow10 b -> (a < b)%Z.
Proof.
  intros a b H. destruct (Z_lt_le_dec a b) as [Hlt | Hge]; [exact Hlt |].
  apply pow10_le in Hge. lra.
Qed.

Lemma pow10_nonneg_Z : forall a, (0 <= a)%Z -> pow10 a == inject_Z (10 ^ a).
Proof. intros a H. unfold pow10. rewrite Zpower_Qpower by exact H. reflexivity. Qed.

(** *** The search for the shortest digits *)

Lemma shortest_from_found :
  forall x k fuel n (j : nat) c0,
    (j < fuel)%nat ->
    digits_at x k (n + Z.of_nat j) = Some c0 ->
    exists c n',
      shortest_from x k n fuel = (c, n')
      /\ (n <= n' <= n + Z.of_nat j)%Z
      /\ digits_at x k n' = Some c.
Proof.
  intros x k. induction fuel as [| fuel IH]; intros n j c0 Hj Hc0; [lia |].
  cbn [shortest_from]. destruct (digits_at x k n) as [c |] eqn:Hn.
  - exists c, n. split; [reflexivity |]. split; [lia | exact Hn].
  - destruct j as [| j].
    + replace (n + Z.of_nat 0)%Z with n in Hc0 by lia. congruence.
    + replace (n + Z.of_nat (S j))%Z with (n + 1 + Z.of_nat j)%Z in Hc0 by lia.
      destruct (IH (n + 1)%Z j c0 ltac:(lia) Hc0) as [c [n' [E [Hr Hd]]]].
      exists c, n'. split; [exact E |]. split; [lia | exact Hd].
Qed.

Lemma if_some_cases :
  forall (b1 b2 : bool) (c1 c2 c : Z),
    (if b1 then Some c1 else if b2 then Some c2 else None) = Some c ->
    (b1 = true /\ c = c1) \/ (b2 = true /\ c = c2).
Proof.
  intros b1 b2 c1 c2 c H. destruct b1.
  - left. split; [reflexivity | congruence].
  - destruct b2; [| discriminate H]. right. split; [reflexivity | congruence].
Qed.

(** The two tests of [digits_at], written out. *)
Lemma digits_at_eq :
  forall x k n,
    (if Qeq_bool (round_mag (inject_Z (rne (x / pow10 (k - n))) * pow10 (k - n))) x
     then Some (rne (x / pow10 (k - n)))
     else if Qeq_bool
               (round_mag
                  (inject_Z
                     (if (rne (x / pow10 (k - n)) =? Qfloor (x / pow10 (k - n)))%Z
                      then (Qfloor (x / pow10 (k - n)) + 1)%Z
                      else Qfloor (x / pow10 (k - n)))
                   * pow10 (k - n))) x
          then Some (if (rne (x / pow10 (k - n)) =? Qfloor (x / pow10 (k - n)))%Z
                     then (Qfloor (x / pow10 (k - n)) + 1)%Z
                     else Qfloor (x / pow10 (k - n)))
          else None)
    = digits_at x k n.
Proof.
  intros x k n. match goal with |- ?l = _ => exact (@eq_refl _ l) end.
Qed.

(** The digits that [digits_at] finds are [n] digits. *)
Lemma digits_at_range :
  forall x k n c,
    pow10 (k - 1) <= x -> x < pow10 k ->
    (0 <= k <= 15)%Z -> (1 <= n)%Z ->
    digits_at x k n = Some c ->
    (10 ^ (n - 1) <= c < 10 ^ n)%Z.
Proof.
  intros x k n c Hlo Hhi Hk Hn H.
  assert (Hx : 0 < x) by (pose proof (pow10_pos (k - 1)); lra).
  rewrite <- digits_at_eq in H.
  pose proof (pow10_pos (k - n)) as Hs.
  assert (E1 : pow10 (n - 1) * pow10 (k - n) == pow10 (k - 1)).
  { rewrite <- pow10_add. replace (n - 1 + (k - n))%Z with (k - 1)%Z by lia. reflexivity. }
  assert (E2 : pow10 n * pow10 (k - n) == pow10 k).
  { rewrite <- pow10_add. replace (n + (k - n))%Z with k by lia. reflexivity. }
  remember (pow10 (k - n)) as s eqn:Heqs.
  assert (Hq1 : pow10 (n - 1) <= x / s).
  { apply Qle_shift_div_l; [exact Hs |]. rewrite E1. exact Hlo. }
  assert (Hq2 : x / s < pow10 n).
  { apply Qlt_shift_div_r; [exact Hs |]. rewrite E2. exact Hhi. }
  rewrite (pow10_nonneg_Z (n - 1)) in Hq1 by lia.
  rewrite (pow10_nonneg_Z n) in Hq2 by lia.
  assert (E10 : (10 ^ n = 10 * 10 ^ (n - 1))%Z).
  { replace n with (Z.succ (n - 1)) at 1 by lia. rewrite Z.pow_succ_r by lia. reflexivity. }
  assert (Hfl1 : (10 ^ (n - 1) <= Qfloor (x / s))%Z).
  { rewrite <- (Qfloor_Z (10 ^ (n - 1))). apply Qfloor_resp_le. exact Hq1. }
  assert (Hfl2 : (Qfloor (x / s) < 10 ^ n)%Z).
  { rewrite Zlt_Qlt. eapply Qle_lt_trans; [apply Qfloor_le | exact Hq2]. }
  assert (Hr1 : (10 ^ (n - 1) <= rne (x / s))%Z).
  { rewrite <- (rne_inject_Z (10 ^ (n - 1))). apply rne_le. exact Hq1. }
  assert (Hr2 : (rne (x / s) <= 10 ^ n)%Z).
  { rewrite <- (rne_inject_Z (10 ^ n)). apply rne_le. lra. }
  assert (Hnot : forall c', c' = (10 ^ n)%Z ->
                   Qeq_bool (round_mag (inject_Z c' * s)) x = true -> False).
  { intros c' -> Hb. apply Qeq_bool_iff in Hb.
    assert (Ek : inject_Z (10 ^ n) * s == inject_Z (10 ^ k)).
    { rewrite <- (pow10_nonneg_Z n) by lia. rewrite E2. apply pow10_nonneg_Z. lia. }
    assert (Hpow : (0 <= 10 ^ k < 2 ^ 53)%Z).
    { split; [apply Z.pow_nonneg; lia |].
      apply Z.le_lt_trans with (10 ^ 15)%Z; [apply Z.pow_le_mono_r; lia | reflexivity]. }
    rewrite (round_mag_proper _ (inject_Z (10 ^ k))) in Hb.
    - rewrite (round_mag_inject_Z _ Hpow) in Hb.
      rewrite <- (pow10_nonneg_Z k) in Hb by lia. lra.
    - rewrite Ek. apply inject_Z_nonneg. lia.
    - exact Ek. }
  remember (rne (x / s)) as c1 eqn:Heqc1.
  remember (Qfloor (x / s)) as lo eqn:Heqlo.
  apply if_some_cases in H. destruct H as [[Hb1 ->] | [Hb2 ->]].
  - split; [exact Hr1 |].
    destruct (Z.eq_dec c1 (10 ^ n)) as [E | Hne]; [exfalso; exact (Hnot c1 E Hb1) | lia].
  - destruct (c1 =? lo)%Z.
    + split; [lia |].
      destruct (Z.eq_dec (lo + 1) (10 ^ n)) as [E | Hne];
        [exfalso; exact (Hnot _ E Hb2) | lia].
    + split; [exact Hfl1 | exact Hfl2].
Qed.

Lemma digits_4_of_range :
  forall c n, (1 <= n <= 4)%Z -> (10 ^ (n - 1) <= c < 10 ^ n)%Z -> digits_4 c = n.
Proof.
  intros c n Hn Hc.
  assert (Hcases : n = 1%Z \/ n = 2%Z \/ n = 3%Z \/ n = 4%Z) by lia.
  unfold digits_4.
  destruct Hcases as [-> | [-> | [-> | ->]]];
    repeat match type of Hc with
      | context [Z.pow ?a ?b] =>
          let v := eval vm_compute in (Z.pow a b) in change (Z.pow a b) with v in Hc
      end;
    destruct (Z.ltb_spec c 10); destruct (Z.ltb_spec c 100);
    destruct (Z.ltb_spec c 1000); lia.
Qed.

(** *** The percent with [t] tenths *)

Lemma tenths_bounds :
  forall t, (0 <= t <= 9999)%Z ->
    inject_Z (t / 10) <= round_mag (inject_Z t / pow10 1)
    /\ round_mag (inject_Z t / pow10 1) <= inject_Z (t / 10) + (15 # 16).
Proof.
  intros t Ht. change (pow10 1) with 10.
  pose proof (Z.div_mod t 10 ltac:(lia)) as Hdm.
  pose proof (Z.mod_pos_bound t 10 ltac:(lia)) as Hmod.
  assert (Hw : (0 <= t / 10 <= 999)%Z).
  { pose proof (Z.div_mod t 10 ltac:(lia)). pose proof (Z.mod_pos_bound t 10 ltac:(lia)).
    lia. }
  set (w := (t / 10)%Z) in *.
  assert (H1 : inject_Z w <= inject_Z t / 10).
  { apply Qle_shift_div_l; [reflexivity |]. change 10 with (inject_Z 10).
    rewrite <- inject_Z_mult, <- Zle_Qle. lia. }
  assert (H2 : inject_Z t / 10 <= inject_Z w + (15 # 16)).
  { apply Qle_shift_div_r; [reflexivity |].
    assert (Ht' : inject_Z t <= inject_Z (10 * w + 9)) by (rewrite <- Zle_Qle; lia).
    rewrite inject_Z_plus, inject_Z_mult in Ht'.
    change (inject_Z 10) with 10 in Ht'. change (inject_Z 9) with 9 in Ht'. lra. }
  assert (H0 : 0 <= inject_Z w) by (apply inject_Z_nonneg; lia).
  split.
  - apply round_mag_ge_Z; [lia | exact H1].
  - assert (E : inject_Z w + (15 # 16) == inject_Z (16 * w + 15) * pow2 (-4)).
    { rewrite inject_Z_plus, inject_Z_mult.
      change (pow2 (-4)) with (1 # 16). change (inject_Z 16) with 16.
      change (inject_Z 15) with 15. ring. }
    rewrite E. rewrite <- (round_mag_exact (16 * w + 15) (-4)) by lia.
    apply round_mag_le; [lra |]. rewrite <- E. exact H2.
Qed.

Lemma tenths_floor :
  forall t, (0 <= t <= 9999)%Z ->
    Qfloor (round_mag (inject_Z t / pow10 1)) = (t / 10)%Z.
Proof.
  intros t Ht. destruct (tenths_bounds t Ht) as [H1 H2].
  remember (round_mag (inject_Z t / pow10 1)) as x eqn:Heqx.
  apply Z.le_antisymm.
  - assert (H : (Qfloor x < t / 10 + 1)%Z).
    { rewrite Zlt_Qlt. eapply Qle_lt_trans; [apply Qfloor_le |].
      rewrite inject_Z_plus. change (inject_Z 1) with 1. lra. }
    lia.
  - rewrite <- (Qfloor_Z (t / 10)). apply Qfloor_resp_le. exact H1.
Qed.

Lemma round_mag_tenth : 1 # 10 <= round_mag (1 # 10).
Proof. apply Qle_bool_iff. vm_compute. reflexivity. Qed.

Lemma tenths_lower :
  forall t, (1 <= t <= 9999)%Z -> 1 # 10 <= round_mag (inject_Z t / pow10 1).
Proof.
  intros t Ht. apply Qle_trans with (round_mag (1 # 10)); [apply round_mag_tenth |].
  apply round_mag_le; [lra |]. change (pow10 1) with 10.
  apply Qle_shift_div_l; [reflexivity |].
  assert (H : 1 <= inject_Z t).
  { change 1 with (inject_Z 1). rewrite <- Zle_Qle. lia. }
  lra.
Qed.

(** Ten times the percent rounds back to the tenths. *)
Lemma tenths_rne :
  forall t, (1 <= t <= 9999)%Z ->
    rne (round_mag (inject_Z t / pow10 1) / pow10 (-1)) = t.
Proof.
  intros t Ht.
  assert (H1 : 1 <= inject_Z t).
  { change 1 with (inject_Z 1). rewrite <- Zle_Qle. lia. }
  assert (H2 : inject_Z t <= 9999).
  { change 9999 with (inject_Z 9999). rewrite <- Zle_Qle. lia. }
  change (pow10 1) with 10. change (pow10 (-1)) with (1 # 10).
  assert (Hy0 : 1 # 10 <= inject_Z t / 10) by (apply Qle_shift_div_l; lra).
  assert (Hy1 : inject_Z t / 10 * 10 == inject_Z t) by (field; lra).
  assert (Hnorm : pow2 (-1022) <= inject_Z t / 10).
  { apply Qle_trans with (pow2 (-4)); [apply pow2_le; lia |].
    change (pow2 (-4)) with (1 # 16). lra. }
  pose proof (round_mag_rel_lower _ Hnorm) as Hlo.
  pose proof (round_mag_rel_upper _ Hnorm) as Hhi.
  rewrite pow2_m53 in Hlo, Hhi.
  remember (inject_Z t / 10) as y eqn:Heqy.
  remember (round_mag y) as x eqn:Heqx.
  assert (E : x / (1 # 10) == x * 10) by (field; lra).
  rewrite E. apply rne_unique; lra.
Qed.

(** The digits of the percent: at most one more than its decimal exponent. *)
Lemma tenths_digits :
  forall t k,
    (1 <= t <= 9999)%Z -> (0 <= k)%Z ->
    digits_at (round_mag (inject_Z t / pow10 1)) k (k + 1) = Some t.
Proof.
  intros t k Ht Hk. unfold digits_at. cbv zeta.
  replace (k - (k + 1))%Z with (-1)%Z by lia.
  rewrite (tenths_rne t Ht).
  assert (Hb : Qeq_bool (round_mag (inject_Z t * pow10 (-1)))
                 (round_mag (inject_Z t / pow10 1)) = true).
  { apply Qeq_bool_iff. apply round_mag_proper.
    - change (pow10 (-1)) with (1 # 10).
      assert (0 <= inject_Z t) by (apply inject_Z_nonneg; lia). lra.
    - change (pow10 (-1)) with (1 # 10). change (pow10 1) with 10. field. }
  rewrite Hb. reflexivity.
Qed.

Lemma len_length : forall s v, len s = v -> String.length s = Z.to_nat v.
Proof. intros s v H. unfold len in H. lia. Qed.

Lemma short_repr_spec :
  forall c, (1 <= c <= 9999)%Z ->
    len (str_of_int c) = digits_4 c
    /\ forall k, (0 <= k <= 3)%Z -> (digits_4 c <= k + 1)%Z ->
         len (format_repr k (digits_4 c) c) = (Z.max k 1 + 2)%Z.
Proof.
  intros c Hc.
  pose proof (forall_from_spec short_repr_ok _ 1 c short_repr_table) as H.
  assert (Hok : short_repr_ok c = true) by (apply H; lia).
  unfold short_repr_ok in Hok. cbv zeta in Hok.
  apply andb_true_iff in Hok. destruct Hok as [H1 H2].
  apply Z.eqb_eq in H1. split; [exact H1 |].
  intros k Hk Hd. rewrite forallb_forall in H2.
  apply Z.eqb_eq. apply H2. apply filter_In. split.
  - assert (Hcases : k = 0%Z \/ k = 1%Z \/ k = 2%Z \/ k = 3%Z) by lia.
    destruct Hcases as [-> | [-> | [-> | ->]]]; simpl; tauto.
  - apply Z.leb_le. exact Hd.
Qed.

(** The label of a percent with [t] tenths, below 1000, is 8 characters wide. *)
Lemma label_width_tenths :
  forall t, (0 <= t <= 9999)%Z ->
    exists s, build_percent_str (percent_of_tenths t) = Ok s
              /\ String.length s = 8%nat.
Proof.
  intros t Ht. destruct (Z.eq_dec t 0) as [-> | Hne].
  { eexists. split; [vm_compute; reflexivity | reflexivity]. }
  assert (Ht1 : (1 <= t <= 9999)%Z) by lia.
  pose proof (tenths_floor t Ht) as Hfl.
  destruct (tenths_bounds t Ht) as [Hb1 Hb2].
  pose proof (tenths_lower t Ht1) as Hlow.
  pose proof (fun k => tenths_digits t k Ht1) as Hdig.
  assert (Hw : (0 <= t / 10 <= 999)%Z).
  { pose proof (Z.div_mod t 10 ltac:(lia)). pose proof (Z.mod_pos_bound t 10 ltac:(lia)).
    lia. }
  unfold percent_of_tenths, build_percent_str.
  remember (round_mag (inject_Z t / pow10 1)) as x eqn:Heqx.
  remember (t / 10)%Z as w eqn:Heqw.
  assert (Hwq : inject_Z w <= 999).
  { change 999 with (inject_Z 999). rewrite <- Zle_Qle. lia. }
  assert (Hmf : math_floor (Fin false x) = Ok w).
  { unfold math_floor, signed. rewrite Hfl. reflexivity. }
  rewrite (bind_Ok_eq _ _ _ _ _ Hmf). cbv beta.
  eexists. split; [reflexivity |].
  assert (Hx0 : Qeq_bool x 0 = false) by (apply Qeq_bool_pos; lra).
  unfold str_of_float. rewrite Hx0. cbn [append].
  destruct (decpt_of_spec x ltac:(lra) ltac:(lra)) as [Hk1 Hk2].
  unfold repr_mag. cbv zeta.
  remember (decpt_of x) as k eqn:Heqk.
  assert (Hk : (0 <= k <= 3)%Z).
  { split.
    - assert (H : (-1 < k)%Z).
      { apply pow10_lt_inv. change (pow10 (-1)) with (1 # 10). lra. }
      lia.
    - assert (H : (k - 1 < 3)%Z).
      { apply pow10_lt_inv. change (pow10 3) with 1000. lra. }
      lia. }
  destruct (shortest_from_found x k 16 1 (Z.to_nat k) t) as [c [n [Es [Hn Hd]]]].
  - lia.
  - rewrite Z2Nat.id by lia. replace (1 + k)%Z with (k + 1)%Z by lia. apply Hdig. lia.
  - rewrite Z2Nat.id in Hn by lia. rewrite Es.
    pose proof (digits_at_range x k n c Hk1 Hk2 ltac:(lia) ltac:(lia) Hd) as Hc.
    assert (Hn4 : (1 <= n <= 4)%Z) by lia.
    pose proof (digits_4_of_range c n Hn4 Hc) as Hd4.
    assert (Hc9 : (1 <= c <= 9999)%Z).
    { split.
      - apply Z.le_trans with (10 ^ (n - 1))%Z; [| lia].
        apply (Z.pow_le_mono_r 10 0 (n - 1)); lia.
      - assert (H : (10 ^ n <= 10 ^ 4)%Z) by (apply Z.pow_le_mono_r; lia).
        change (10 ^ 4)%Z with 10000%Z in H. lia. }
    destruct (short_repr_spec c Hc9) as [_ Hfmt].
    rewrite Hd4 in Hfmt. specialize (Hfmt k Hk ltac:(lia)).
    assert (Hlw : len (str_of_int w) = Z.max k 1).
    { destruct (Z.eq_dec w 0) as [Hw0 | Hw0].
      - rewrite Hw0. change (len (str_of_int 0)) with 1%Z.
        assert (Hk0 : k = 0%Z).
        { destruct (Z.eq_dec k 0) as [E | E]; [exact E | exfalso].
          assert (H : pow10 0 <= pow10 (k - 1)) by (apply pow10_le; lia).
          change (pow10 0) with 1 in H. rewrite Hw0 in Hb2.
          change (inject_Z 0) with 0 in Hb2. lra. }
        rewrite Hk0. reflexivity.
      - assert (Hw1 : (1 <= w <= 9999)%Z) by lia.
        destruct (short_repr_spec w Hw1) as [Hlen _]. rewrite Hlen.
        assert (Hk0 : (1 <= k)%Z).
        { destruct (Z.eq_dec k 0) as [E | E]; [exfalso | lia].
          rewrite E in Hk2. change (pow10 0) with 1 in Hk2.
          assert (H : 1 <= inject_Z w).
          { change 1 with (inject_Z 1). rewrite <- Zle_Qle. lia. }
          lra. }
        rewrite Z.max_l by lia.
        apply digits_4_of_range; [lia |]. split.
        + rewrite <- Hfl. rewrite <- (Qfloor_Z (10 ^ (k - 1))).
          apply Qfloor_resp_le. rewrite <- pow10_nonneg_Z by lia. exact Hk1.
        + rewrite Zlt_Qlt. rewrite <- pow10_nonneg_Z by lia. lra. }
    rewrite !length_append.
    assert (L1 : String.length (str_mul " " (4 - len (str_of_int w)))
                 = Z.to_nat (4 - Z.max k 1)).
    { rewrite Hlw. apply (length_str_mul_char " "). }
    assert (L2 : String.length (format_repr k n c) = Z.to_nat (Z.max k 1 + 2)).
    { apply len_length. exact Hfmt. }
    rewrite L1, L2. cbn [String.length]. lia.
Qed.

Lemma math_floor_fin : forall q, math_floor (Fin false q) = Ok (Qfloor q).
Proof. intros q. reflexivity. Qed.

(** X21: the label of the percent is 8 characters wide: for every float
    that is not negative, rounded to one digit, with an integer part below
    1000, the label (the padding, the digits with their point, the percent
    sign and the space) has exactly 8 characters. *)
Theorem percent_label_is_8_wide :
  forall (m : Q) (whole : Z),
    0 <= m ->
    math_floor (py_round_ndigits (Fin false m) 1) = Ok whole ->
    (whole < 1000)%Z ->
    exists s, build_percent_str (py_round_ndigits (Fin false m) 1) = Ok s
              /\ String.length s = 8%nat.
Proof.
  intros m whole Hm Hfloor Hwhole.
  rewrite py_round_ndigits_fin in Hfloor |- *.
  assert (Ht0 : (0 <= rne (m * pow10 1))%Z).
  { apply rne_nonneg. change (pow10 1) with 10. lra. }
  remember (rne (m * pow10 1)) as t eqn:Heqt. clear Heqt.
  rewrite math_floor_fin in Hfloor.
  assert (Hf : Qfloor (round_mag (inject_Z t / pow10 1)) = whole) by congruence.
  assert (Ht1 : (t <= 9999)%Z).
  { destruct (Z_le_gt_dec t 9999) as [Hle | Hgt]; [exact Hle | exfalso].
    assert (H1 : inject_Z 1000 <= inject_Z t / pow10 1).
    { change (pow10 1) with 10. apply Qle_shift_div_l; [reflexivity |].
      change (inject_Z 1000 * 10) with (inject_Z 10000). rewrite <- Zle_Qle. lia. }
    pose proof (round_mag_ge_Z _ 1000 ltac:(lia) H1) as H2.
    apply Qfloor_resp_le in H2. rewrite Qfloor_Z in H2. lia. }
  apply (label_width_tenths t). lia.
Qed.

Lemma percent_label_is_8_wide_witness :
  exists s, build_percent_str (py_round_ndigits (Fin false (333 # 10)) 1) = Ok s
            /\ String.length s = 8%nat.
Proof.
  apply (percent_label_is_8_wide (333 # 10) 33).
  - apply Qle_bool_iff. reflexivity.
  - vm_compute. reflexivity.
  - reflexivity.
Defined.

(** ** The line of the progress bar *)

(** The percent of a count between 0 and the total has from 0 to 1000 tenths. *)
Lemma percent_mag_tenths :
  forall count total,
    (0 <= count <= total)%Z -> (0 < total)%Z -> inject_Z total <= pow2 1023 ->
    exists t, (0 <= t <= 1000)%Z
              /\ percent_mag count total = round_mag (inject_Z t / pow10 1).
Proof.
  intros count total Hc Ht Hmax. unfold percent_mag.
  destruct (ratio_range count total Hc Ht Hmax)
    as [c [T [Hpc [Hpt [Hc0 [HcT [HT1 [HTmax HTid]]]]]]]].
  assert (Ec : c = round_mag (inject_Z count)).
  { rewrite py_float_nonneg in Hpc; [congruence | lia |].
    apply Qle_trans with (inject_Z total); [rewrite <- Zle_Qle; lia | exact Hmax]. }
  assert (ET : T = round_mag (inject_Z total)).
  { rewrite py_float_nonneg in Hpt; [congruence | lia | exact Hmax]. }
  rewrite <- Ec, <- ET.
  assert (Hc1 : 0 <= round_mag (c * 1)) by (apply round_mag_nonneg; lra).
  assert (Hc1T : round_mag (c * 1) <= T).
  { rewrite <- HTid. apply round_mag_le; lra. }
  remember (round_mag (c * 1)) as c1 eqn:Heqc1. clear Heqc1.
  assert (Hr0 : 0 <= c1 / T) by (apply Qle_shift_div_l; [lra | rewrite Qmult_0_l; lra]).
  assert (Hr1 : c1 / T <= 1) by (apply Qle_shift_div_r; [lra | rewrite Qmult_1_l; lra]).
  assert (Hrr0 : 0 <= round_mag (c1 / T)) by (apply round_mag_nonneg; exact Hr0).
  assert (Hrr1 : round_mag (c1 / T) <= 1).
  { apply (round_mag_le_Z _ 1); [exact Hr0 | lia | exact Hr1]. }
  remember (round_mag (c1 / T)) as r eqn:Heqr. clear Heqr.
  assert (Hp0 : 0 <= round_mag (r * 100)) by (apply round_mag_nonneg; lra).
  assert (Hp1 : round_mag (r * 100) <= 100).
  { apply (round_mag_le_Z _ 100); [lra | lia |]. change (inject_Z 100) with 100. lra. }
  remember (round_mag (r * 100)) as p1 eqn:Heqp1. clear Heqp1.
  exists (rne (p1 * pow10 1)). split; [| reflexivity].
  split.
  - apply rne_nonneg. change (pow10 1) with 10. lra.
  - rewrite <- (rne_inject_Z 1000). apply rne_le.
    change (pow10 1) with 10. change (inject_Z 1000) with 1000. lra.
Qed.

(** *** Sums and differences of small integers as floats *)

Lemma small_int_le_pow2_1023 : forall z, (0 <= z <= 2 ^ 53)%Z -> inject_Z z <= pow2 1023.
Proof.
  intros z Hz. apply Qle_trans with (pow2 53); [| apply pow2_le; lia].
  rewrite pow2_nonneg_Z by lia. rewrite <- Zle_Qle. lia.
Qed.

Lemma py_int_fadd_small :
  forall (a b : Z) (A B : Q),
    A == inject_Z a -> B == inject_Z b ->
    (0 <= a < 2 ^ 52)%Z -> (0 <= b < 2 ^ 52)%Z ->
    py_int (fadd (Fin false A) (Fin false B)) = Ok (a + b)%Z.
Proof.
  intros a b A B HA HB Ha Hb. unfold fadd, signed.
  assert (Hab : A + B == inject_Z (a + b)) by (rewrite HA, HB, inject_Z_plus; reflexivity).
  assert (H0 : 0 <= inject_Z (a + b)) by (apply inject_Z_nonneg; lia).
  destruct (Qeq_bool (A + B) 0) eqn:E.
  - apply Qeq_bool_iff in E. rewrite Hab in E.
    assert (Hz : (a + b = 0)%Z) by (apply inject_Z_injective; exact E).
    rewrite Hz. reflexivity.
  - assert (Hle : Qle_bool 0 (A + B) = true) by (apply Qle_bool_iff; lra).
    rewrite Hle. cbn [negb].
    assert (Habs : Qabs (A + B) == inject_Z (a + b)).
    { rewrite Qabs_pos by lra. exact Hab. }
    rewrite round_float_fin;
      [| apply Qabs_nonneg | rewrite Habs; apply small_int_le_pow2_1023; lia].
    rewrite py_int_fin_pos. f_equal.
    assert (Er : round_mag (Qabs (A + B)) == inject_Z (a + b)).
    { rewrite (round_mag_proper _ (inject_Z (a + b))); [| apply Qabs_nonneg | exact Habs].
      apply round_mag_inject_Z. lia. }
    rewrite Er. apply Qfloor_Z.
Qed.

Lemma py_int_fsub_small :
  forall (a b : Z) (A B : Q),
    A == inject_Z a -> B == inject_Z b ->
    (0 <= a < 2 ^ 52)%Z -> (0 <= b < 2 ^ 52)%Z ->
    py_int (fsub (Fin false A) (Fin false B)) = Ok (a - b)%Z.
Proof.
  intros a b A B HA HB Ha Hb. unfold fsub, fneg, fadd, signed. cbn [negb andb].
  assert (Hab : A + - B == inject_Z (a - b)).
  { rewrite HA, HB. unfold Z.sub. rewrite inject_Z_plus, inject_Z_opp. reflexivity. }
  destruct (Qeq_bool (A + - B) 0) eqn:E.
  - apply Qeq_bool_iff in E. rewrite Hab in E.
    assert (Hz : (a - b = 0)%Z) by (apply inject_Z_injective; exact E).
    rewrite Hz. reflexivity.
  - assert (Habs : Qabs (A + - B) == inject_Z (Z.abs (a - b))).
    { rewrite Hab. unfold Qabs, inject_Z. reflexivity. }
    rewrite round_float_fin;
      [| apply Qabs_nonneg | rewrite Habs; apply small_int_le_pow2_1023; lia].
    assert (Er : round_mag (Qabs (A + - B)) == inject_Z (Z.abs (a - b))).
    { rewrite (round_mag_proper _ (inject_Z (Z.abs (a - b))));
        [| apply Qabs_nonneg | exact Habs].
      apply round_mag_inject_Z. lia. }
    assert (Ef : Qfloor (round_mag (Qabs (A + - B))) = Z.abs (a - b)).
    { rewrite Er. apply Qfloor_Z. }
    unfold py_int. rewrite Ef. f_equal.
    destruct (Qle_bool 0 (A + - B)) eqn:Hs; cbn [negb].
    + apply Qle_bool_iff in Hs. rewrite Hab in Hs.
      assert (0 <= a - b)%Z by (rewrite Zle_Qle; exact Hs). lia.
    + apply Qle_bool_false in Hs. rewrite Hab in Hs.
      assert (a - b < 0)%Z by (rewrite Zlt_Qlt; exact Hs). lia.
Qed.

Lemma half_even_len :
  forall h, (0 <= h < 2 ^ 52)%Z ->
    exists H, py_int_truediv (2 * h) 2 = Ok (Fin false H) /\ H == inject_Z h.
Proof.
  intros h Hh.
  assert (E : inject_Z (2 * h) / inject_Z 2 == inject_Z h).
  { rewrite inject_Z_mult. change (inject_Z 2) with 2. field. }
  exists (round_mag (inject_Z (2 * h) / inject_Z 2)). split.
  - apply py_int_truediv_pos; [lia | lia |].
    rewrite E. apply small_int_le_pow2_1023. lia.
  - rewrite (round_mag_proper _ (inject_Z h)); [| rewrite E; apply inject_Z_nonneg; lia | exact E].
    apply round_mag_inject_Z. lia.
Qed.

Lemma half_label : py_int_truediv 8 2 = Ok (Fin false 4).
Proof. vm_compute. reflexivity. Qed.

Lemma py_float_4 : py_float 4 = Ok (Fin false 4).
Proof. vm_compute. reflexivity. Qed.

(** The two slices around a label of 8 characters, for a bar of [2 * h]
    characters. *)
Lemma build_progress_left_value :
  forall bar label h,
    len bar = (2 * h)%Z -> (0 <= h < 2 ^ 52)%Z -> len label = 8%Z ->
    build_progress_left bar label = Ok (slice_to bar (h - 2)).
Proof.
  intros bar label h Hbar Hh Hlabel. unfold build_progress_left.
  rewrite Hbar, Hlabel.
  destruct (half_even_len h Hh) as [H [Hdiv HH]].
  rewrite (bind_Ok_eq _ _ _ _ _ Hdiv). cbv beta.
  rewrite (bind_Ok_eq _ _ _ _ _ half_label). cbv beta.
  rewrite (bind_Ok_eq _ _ _ _ _ (math_floor_fin 4)). cbv beta.
  change (Qfloor 4) with 4%Z.
  rewrite (bind_Ok_eq _ _ _ _ _ py_float_4). cbv beta.
  rewrite (bind_Ok_eq _ _ _ _ _ (py_int_fsub_small h 4 H 4 HH ltac:(reflexivity)
                                     Hh ltac:(lia))).
  cbv beta. f_equal. f_equal. lia.
Qed.

Lemma math_ceil_4 : math_ceil (Fin false 4) = Ok 4%Z.
Proof. reflexivity. Qed.

Lemma build_progress_right_value :
  forall bar label h,
    len bar = (2 * h)%Z -> (0 <= h < 2 ^ 52)%Z -> len label = 8%Z ->
    build_progress_right bar label = Ok (slice_from bar (h + 6)).
Proof.
  intros bar label h Hbar Hh Hlabel. unfold build_progress_right.
  rewrite Hbar, Hlabel.
  destruct (half_even_len h Hh) as [H [Hdiv HH]].
  rewrite (bind_Ok_eq _ _ _ _ _ Hdiv). cbv beta.
  rewrite (bind_Ok_eq _ _ _ _ _ half_label). cbv beta.
  rewrite (bind_Ok_eq _ _ _ _ _ math_ceil_4). cbv beta.
  rewrite (bind_Ok_eq _ _ _ _ _ py_float_4). cbv beta.
  rewrite (bind_Ok_eq _ _ _ _ _ (py_int_fadd_small h 4 H 4 HH ltac:(reflexivity)
                                     Hh ltac:(lia))).
  cbv beta. f_equal. f_equal. lia.
Qed.

Local Close Scope Q_scope.

(** *** The lengths of the slices *)

Lemma length_substring :
  forall s n m, (n + m <= String.length s)%nat ->
    String.length (String.substring n m s) = m.
Proof.
  induction s as [| c s IH]; intros n m H.
  - simpl in H. assert (n = O) by lia. assert (m = O) by lia. subst. reflexivity.
  - destruct n as [| n].
    + destruct m as [| m]; [reflexivity |].
      cbn [String.substring String.length]. f_equal. apply IH. simpl in H. lia.
    + cbn [String.substring]. apply IH. simpl in H. lia.
Qed.

Lemma length_slice_to :
  forall s i, (0 <= i <= len s)%Z -> String.length (slice_to s i) = Z.to_nat i.
Proof.
  intros s i Hi. unfold slice_to, clip_index. cbv zeta.
  assert (E : (i <? 0)%Z = false) by (apply Z.ltb_ge; lia). rewrite E.
  rewrite length_substring; unfold len in *; lia.
Qed.

Lemma length_slice_from :
  forall s i, (0 <= i)%Z ->
    String.length (slice_from s i) = (String.length s - Z.to_nat i)%nat.
Proof.
  intros s i Hi. unfold slice_from, clip_index. cbv zeta.
  assert (E : (i <? 0)%Z = false) by (apply Z.ltb_ge; lia). rewrite E.
  rewrite length_substring; unfold len in *; lia.
Qed.

Lemma even_width_is_even : forall width, Z.even (even_width width) = true.
Proof.
  intros width. unfold even_width. destruct (width mod 2 =? 0)%Z eqn:E; cbn [negb].
  - apply Z.eqb_eq in E. rewrite Zeven_mod, E. reflexivity.
  - apply Z.eqb_neq in E. rewrite Z.even_sub. cbn.
    rewrite Zeven_mod. destruct (Z.mod_pos_bound width 2 ltac:(lia)) as [H0 H1].
    assert (Hm : (width mod 2 = 1)%Z) by lia. rewrite Hm. reflexivity.
Qed.

(** What [display_progress] does for a count between 0 and the total. *)
Lemma display_progress_value :
  forall count total width completed_char empty_char postpend_str,
    (0 <= count <= total)%Z -> (0 < total <= 2 ^ 1023)%Z ->
    (2 <= width < 2 ^ 52)%Z ->
    String.length completed_char = 1%nat -> String.length empty_char = 1%nat ->
    exists percent label filled,
      compute_percent count total = Ok percent
      /\ build_percent_str percent = Ok label
      /\ String.length label = 8%nat
      /\ (0 <= filled <= even_width width)%Z
      /\ forall old_percent,
           display_progress count total old_percent width
             completed_char empty_char postpend_str
           = Ok (percent,
                 if match old_percent with
                    | Some old => float_eqb percent old
                    | None => false
                    end && negb (float_eqb percent (Fin false 0))
                 then []
                 else
                   let bar := "[" ++ str_mul completed_char filled
                                  ++ str_mul empty_char (even_width width - filled)
                                  ++ "]" in
                   let line := slice_to bar (even_width width / 2 - 1)
                                 ++ BRIGHT_YELLOW ++ label ++ ENDC
                                 ++ slice_from bar (even_width width / 2 + 7)
                                 ++ build_count_str count total ++ postpend_str in
                   [Write line; Flush; Write (str_mul (chr BS) (len line))]).
Proof.
  intros count total width completed_char empty_char postpend_str Hc Ht Hw Hcc Hec.
  assert (Hmax : (inject_Z total <= pow2 1023)%Q).
  { rewrite pow2_nonneg_Z by lia. rewrite <- Zle_Qle. lia. }
  pose proof (compute_percent_value count total Hc ltac:(lia) Hmax) as Hp.
  destruct (percent_mag_tenths count total Hc ltac:(lia) Hmax) as [t [Ht' Et]].
  destruct (compute_percent_range count total Hc ltac:(lia) Hmax) as [p [Hp' [Hp0 Hp1]]].
  assert (Ep : p = percent_mag count total) by congruence.
  destruct (label_width_tenths t ltac:(lia)) as [label [Hlabel Hlen]].
  unfold percent_of_tenths in Hlabel. rewrite <- Et, <- Ep in Hlabel.
  pose proof (even_width_range width Hw) as Hw'.
  pose proof (even_width_is_even width) as Heven.
  remember (even_width width) as w eqn:Heqw.
  destruct (filled_range p w Hp0 Hp1 Hw' Heven) as [filled [Hf [Hdone Hempty]]].
  exists (Fin false p), label, filled.
  split; [exact Hp' |]. split; [exact Hlabel |]. split; [exact Hlen |].
  split; [exact Hf |].
  intros old_percent. unfold display_progress. rewrite <- Heqw.
  rewrite (bind_Ok_eq _ _ _ _ _ Hp'). cbv beta.
  destruct (match old_percent with
            | Some old => float_eqb (Fin false p) old
            | None => false
            end && negb (float_eqb (Fin false p) (Fin false 0))); [reflexivity |].
  rewrite (bind_Ok_eq _ _ _ _ _ (Hdone completed_char)). cbv beta.
  rewrite (bind_Ok_eq _ _ _ _ _ (Hempty empty_char)). cbv beta.
  rewrite (bind_Ok_eq _ _ _ _ _ Hlabel). cbv beta.
  assert (Hhalf : exists h, w = (2 * h)%Z).
  { exists (w / 2)%Z. apply Zeven_bool_iff in Heven. apply Zeven_div2 in Heven.
    rewrite Z.div2_div in Heven. exact Heven. }
  destruct Hhalf as [h Eh].
  assert (Hbar : len ("[" ++ str_mul completed_char filled
                          ++ str_mul empty_char (w - filled) ++ "]")
                 = (2 * (h + 1))%Z).
  { rewrite !len_append, !len_str_mul, (len_one_char _ Hcc), (len_one_char _ Hec).
    change (len "[") with 1%Z. change (len "]") with 1%Z. lia. }
  assert (Hl8 : len label = 8%Z) by (unfold len; rewrite Hlen; reflexivity).
  rewrite (bind_Ok_eq _ _ _ _ _
             (build_progress_left_value _ label (h + 1) Hbar ltac:(lia) Hl8)).
  cbv beta.
  rewrite (bind_Ok_eq _ _ _ _ _
             (build_progress_right_value _ label (h + 1) Hbar ltac:(lia) Hl8)).
  cbv beta zeta.
  assert (E1 : (h + 1 - 2 = w / 2 - 1)%Z).
  { rewrite Eh, Z.mul_comm, Z.div_mul by lia. lia. }
  assert (E2 : (h + 1 + 6 = w / 2 + 7)%Z).
  { rewrite Eh, Z.mul_comm, Z.div_mul by lia. lia. }
  rewrite E1, E2. rewrite !append_assoc. reflexivity.
Qed.

(** X22: for a count between 0 and the total, the call returns the percent
    and, unless the percent is the previous one and not 0, writes one line,
    flushes, and writes one backspace per character of the line. The line
    is made of the first [w/2 - 1] characters of the bar, for the even width
    [w], the label of 8 characters between the bright yellow code and the
    reset code, the characters of the bar from the [w/2 + 7]th on (there
    are [w/2 - 5] of them, none for a width below 12), the count of the
    total, and the suffix. The label so takes the place of 9 characters of
    the bar for a width from 10 on, and the closing bracket is written for a
    width from 12 on. *)
Theorem display_progress_line :
  forall count total width completed_char empty_char postpend_str,
    (0 <= count <= total)%Z -> (0 < total <= 2 ^ 1023)%Z ->
    (2 <= width < 2 ^ 52)%Z ->
    String.length completed_char = 1%nat -> String.length empty_char = 1%nat ->
    exists percent label filled,
      let w := even_width width in
      let bar := "[" ++ str_mul completed_char filled
                     ++ str_mul empty_char (w - filled) ++ "]" in
      let left := slice_to bar (w / 2 - 1) in
      let right := slice_from bar (w / 2 + 7) in
      let line := left ++ BRIGHT_YELLOW ++ label ++ ENDC ++ right
                       ++ build_count_str count total ++ postpend_str in
      compute_percent count total = Ok percent
      /\ build_percent_str percent = Ok label
      /\ String.length label = 8%nat
      /\ (0 <= filled <= w)%Z
      /\ String.length left = Z.to_nat (w / 2 - 1)
      /\ String.length right = Z.to_nat (w / 2 - 5)
      /\ forall old_percent,
           display_progress count total old_percent width
             completed_char empty_char postpend_str
           = Ok (percent,
                 if match old_percent with
                    | Some old => float_eqb percent old
                    | None => false
                    end && negb (float_eqb percent (Fin false 0))
                 then []
                 else [Write line; Flush; Write (str_mul (chr BS) (len line))]).
Proof.
  intros count total width completed_char empty_char postpend_str Hc Ht Hw Hcc Hec.
  destruct (display_progress_value count total width completed_char empty_char
              postpend_str Hc Ht Hw Hcc Hec)
    as [percent [label [filled [Hp [Hlabel [Hlen [Hf Hcall]]]]]]].
  exists percent, label, filled. cbv zeta.
  pose proof (even_width_range width Hw) as Hw'.
  pose proof (even_width_is_even width) as Heven.
  remember (even_width width) as w eqn:Heqw.
  assert (Hhalf : (w = 2 * (w / 2))%Z).
  { apply Zeven_bool_iff in Heven. apply Zeven_div2 in Heven.
    rewrite Z.div2_div in Heven. exact Heven. }
  assert (Hbar : len ("[" ++ str_mul completed_char filled
                          ++ str_mul empty_char (w - filled) ++ "]") = (w + 2)%Z).
  { rewrite !len_append, !len_str_mul, (len_one_char _ Hcc), (len_one_char _ Hec).
    change (len "[") with 1%Z. change (len "]") with 1%Z. lia. }
  split; [exact Hp |]. split; [exact Hlabel |]. split; [exact Hlen |].
  split; [exact Hf |]. split; [| split].
  - apply length_slice_to. rewrite Hbar. lia.
  - rewrite length_slice_from by lia. unfold len in Hbar. lia.
  - exact Hcall.
Qed.

Lemma display_progress_line_witness :
  exists percent label filled,
    let w := even_width 10 in
    let bar := "[" ++ str_mul "#" filled ++ str_mul "." (w - filled) ++ "]" in
    let left := slice_to bar (w / 2 - 1) in
    let right := slice_from bar (w / 2 + 7) in
    let line := left ++ BRIGHT_YELLOW ++ label ++ ENDC ++ right
                     ++ build_count_str 50 100 ++ "" in
    compute_percent 50 100 = Ok percent
    /\ build_percent_str percent = Ok label
    /\ String.length label = 8%nat
    /\ (0 <= filled <= w)%Z
    /\ String.length left = Z.to_nat (w / 2 - 1)
    /\ String.length right = Z.to_nat (w / 2 - 5)
    /\ forall old_percent,
         display_progress 50 100 old_percent 10 "#" "." ""
         = Ok (percent,
               if match old_percent with
                  | Some old => float_eqb percent old
                  | None => false
                  end && negb (float_eqb percent (Fin false 0))
               then []
               else [Write line; Flush; Write (str_mul (chr BS) (len line))]).
Proof.
  apply (display_progress_line 50%Z 100%Z 10%Z "#" "." "").
  - lia.
  - split; [reflexivity | apply Z.leb_le; reflexivity].
  - split; [apply Z.leb_le; reflexivity | reflexivity].
  - reflexivity.
  - reflexivity.
Defined.

(** ** The cursor after the progress bar *)

(** *** Printable text *)

Lemma all_printable_append :
  forall a b, all_printable (a ++ b) = all_printable a && all_printable b.
Proof.
  induction a as [| c a IH]; intros b; [reflexivity |].
  cbn [append all_printable]. rewrite IH, andb_assoc. reflexivity.
Qed.

Lemma all_printable_repeat_nat :
  forall s n, all_printable s = true -> all_printable (repeat_nat s n) = true.
Proof.
  intros s n H. induction n as [| n IH]; [reflexivity |].
  cbn [repeat_nat]. rewrite all_printable_append, H, IH. reflexivity.
Qed.

Lemma all_printable_str_mul :
  forall s n, all_printable s = true -> all_printable (str_mul s n) = true.
Proof. intros s n H. apply all_printable_repeat_nat. exact H. Qed.

Lemma all_printable_substring :
  forall s n m, all_printable s = true -> all_printable (String.substring n m s) = true.
Proof.
  induction s as [| c s IH]; intros n m H.
  - destruct n, m; reflexivity.
  - cbn [all_printable] in H. apply andb_true_iff in H. destruct H as [Hc Hs].
    destruct n as [| n].
    + destruct m as [| m]; [reflexivity |].
      cbn [String.substring all_printable]. rewrite Hc, (IH _ _ Hs). reflexivity.
    + cbn [String.substring]. apply IH. exact Hs.
Qed.

Lemma all_printable_slice_to :
  forall s i, all_printable s = true -> all_printable (slice_to s i) = true.
Proof. intros s i H. apply all_printable_substring. exact H. Qed.

Lemma all_printable_slice_from :
  forall s i, all_printable s = true -> all_printable (slice_from s i) = true.
Proof. intros s i H. apply all_printable_substring. exact H. Qed.

Lemma all_printable_digits :
  forall d, all_printable (NilEmpty.string_of_uint d) = true.
Proof.
  induction d as [| d IH | d IH | d IH | d IH | d IH | d IH | d IH | d IH | d IH | d IH];
    [reflexivity | simpl; exact IH ..].
Qed.

Lemma all_printable_uint :
  forall d, all_printable (NilZero.string_of_uint d) = true.
Proof.
  intros d. unfold NilZero.string_of_uint.
  destruct d; [reflexivity | apply all_printable_digits ..].
Qed.

Lemma all_printable_str_of_int : forall n, all_printable (str_of_int n) = true.
Proof.
  intros n. unfold str_of_int, NilZero.string_of_int.
  destruct (Z.to_int n) as [d | d]; [apply all_printable_uint |].
  cbn [all_printable]. rewrite all_printable_uint. reflexivity.
Qed.

Lemma all_printable_of_list :
  forall l, all_printable (string_of_list_ascii l) = forallb printable l.
Proof.
  induction l as [| c l IH]; [reflexivity |]. simpl. rewrite IH. reflexivity.
Qed.

Lemma all_printable_to_list :
  forall s, forallb printable (list_ascii_of_string s) = all_printable s.
Proof.
  induction s as [| c s IH]; [reflexivity |]. simpl. rewrite IH. reflexivity.
Qed.

Lemma strip_zeros_rev_In :
  forall l x, In x (strip_zeros_rev l) -> In x l.
Proof.
  induction l as [| c l IH]; intros x H; [exact H |].
  destruct c as [[] [] [] [] [] [] [] []]; try exact H; right; apply IH; exact H.
Qed.

Lemma all_printable_strip_trailing_zeros :
  forall s, all_printable s = true -> all_printable (strip_trailing_zeros s) = true.
Proof.
  intros s H. unfold strip_trailing_zeros. rewrite all_printable_of_list.
  rewrite <- all_printable_to_list in H.
  apply forallb_forall. intros x Hx.
  apply in_rev in Hx. apply strip_zeros_rev_In in Hx. apply in_rev in Hx.
  exact (proj1 (forallb_forall _ _) H x Hx).
Qed.

Lemma all_printable_exp_suffix : forall e, all_printable (exp_suffix e) = true.
Proof.
  intros e. unfold exp_suffix.
  pose proof (all_printable_str_of_int (Z.abs e)) as H.
  destruct (e <? 0)%Z, (String.length (str_of_int (Z.abs e)) <? 2)%nat;
    cbn [append all_printable]; rewrite H; reflexivity.
Qed.

Lemma all_printable_format_repr :
  forall k n c, all_printable (format_repr k n c) = true.
Proof.
  intros k n c. unfold format_repr.
  pose proof (all_printable_strip_trailing_zeros _ (all_printable_str_of_int c)) as H.
  remember (strip_trailing_zeros (str_of_int c)) as ds eqn:Hds. clear Hds.
  remember (k - n + len (str_of_int c))%Z as decpt eqn:Hd. clear Hd.
  cbv zeta.
  destruct ((decpt <=? -4) || (16 <? decpt))%Z.
  - rewrite !all_printable_append, all_printable_exp_suffix,
      (all_printable_substring _ _ _ H).
    destruct (1 <? len ds)%Z; [| reflexivity].
    rewrite all_printable_append, (all_printable_slice_from _ _ H). reflexivity.
  - destruct (decpt <=? 0)%Z.
    + rewrite !all_printable_append, H, all_printable_str_mul; reflexivity.
    + destruct (len ds <=? decpt)%Z.
      * rewrite !all_printable_append, H, all_printable_str_mul; reflexivity.
      * rewrite !all_printable_append, (all_printable_slice_to _ _ H),
          (all_printable_slice_from _ _ H). reflexivity.
Qed.

Lemma all_printable_str_of_float :
  forall s m, all_printable (str_of_float (Fin s m)) = true.
Proof.
  intros s m. unfold str_of_float, repr_mag. rewrite all_printable_append.
  destruct (shortest_from m (decpt_of m) 1 16) as [c n].
  pose proof (all_printable_format_repr (decpt_of m) n c) as H.
  destruct s, (Qeq_bool m 0); cbn [all_printable andb]; try reflexivity; exact H.
Qed.

(** The label of the percent has printable characters only. *)
Lemma all_printable_percent_str :
  forall percent label,
    build_percent_str percent = Ok label -> all_printable label = true.
Proof.
  intros [s m | s |] label H; try discriminate H.
  assert (E : build_percent_str (Fin s m)
              = Ok (str_mul " " (4 - len (str_of_int (Qfloor (signed s m))))
                      ++ str_of_float (Fin s m) ++ "%" ++ " ")) by reflexivity.
  pose proof (all_printable_str_of_float s m) as Hf.
  pose proof (all_printable_str_mul " " (4 - len (str_of_int (Qfloor (signed s m))))
                eq_refl) as Hpad.
  rewrite E in H. clear E.
  remember (str_mul " " (4 - len (str_of_int (Qfloor (signed s m))))) as pad eqn:Ep.
  remember (str_of_float (Fin s m)) as f eqn:Ef. clear Ep Ef.
  injection H as <-. rewrite !all_printable_append, Hpad, Hf. reflexivity.
Qed.

(** *** The columns of the line *)

Lemma printable_not_ESC : forall c, printable c = true -> Ascii.eqb c ESC = false.
Proof.
  intros c H. destruct c as [[] [] [] [] [] [] [] []]; try discriminate H; reflexivity.
Qed.

Lemma visible_printable :
  forall s t, all_printable s = true ->
    visible_from TText (s ++ t) = (String.length s + visible_from TText t)%nat.
Proof.
  induction s as [| c s IH]; intros t H; [reflexivity |].
  cbn [all_printable] in H. apply andb_true_iff in H. destruct H as [Hc Hs].
  cbn [append visible_from String.length]. rewrite (printable_not_ESC c Hc), Hc, (IH _ Hs).
  reflexivity.
Qed.

Lemma visible_all_printable :
  forall s, all_printable s = true -> visible_from TText s = String.length s.
Proof.
  intros s H. pose proof (visible_printable s "" H) as E.
  rewrite append_nil_r in E. rewrite E. simpl. lia.
Qed.

Lemma term_run_BRIGHT_YELLOW :
  forall col, term_run (TText, col) BRIGHT_YELLOW = (TText, col).
Proof. intros col. reflexivity. Qed.

Lemma term_run_BRIGHT_WHITE :
  forall col, term_run (TText, col) BRIGHT_WHITE = (TText, col).
Proof. intros col. reflexivity. Qed.

(** The count of the total takes the columns of its text. *)
Lemma count_str_columns :
  forall count total rest col,
    visible_from TText (build_count_str count total ++ rest)
    = (String.length (str_of_int count) + String.length (str_of_int total) + 7
       + visible_from TText rest)%nat
    /\ term_run (TText, col) (build_count_str count total)
       = (TText, (col + (String.length (str_of_int count)
                         + String.length (str_of_int total) + 7))%nat).
Proof.
  intros count total rest col. unfold build_count_str.
  pose proof (all_printable_str_of_int count) as Hc.
  pose proof (all_printable_str_of_int total) as Ht.
  split.
  - rewrite !append_assoc.
    rewrite (visible_printable " (" _ eq_refl).
    change (visible_from TText (BRIGHT_WHITE ++ ?x)) with (visible_from TText x).
    rewrite (visible_printable _ _ Hc).
    change (visible_from TText (ENDC ++ ?x)) with (visible_from TText x).
    rewrite (visible_printable " of " _ eq_refl).
    change (visible_from TText (BRIGHT_WHITE ++ ?x)) with (visible_from TText x).
    rewrite (visible_printable _ _ Ht).
    change (visible_from TText (ENDC ++ ?x)) with (visible_from TText x).
    rewrite (visible_printable ")" _ eq_refl).
    simpl String.length. lia.
  - rewrite !term_run_append.
    rewrite (term_run_printable " (" _ eq_refl), term_run_BRIGHT_WHITE.
    rewrite (term_run_printable _ _ Hc), term_run_ENDC.
    rewrite (term_run_printable " of " _ eq_refl), term_run_BRIGHT_WHITE.
    rewrite (term_run_printable _ _ Ht), term_run_ENDC.
    rewrite (term_run_printable ")" _ eq_refl).
    simpl String.length. f_equal. lia.
Qed.

(** The line of the progress bar: its columns, its characters, and the
    cursor after it. *)
Lemma progress_line_columns :
  forall left label right count total post,
    all_printable left = true -> all_printable label = true ->
    all_printable right = true -> all_printable post = true ->
    let line := left ++ BRIGHT_YELLOW ++ label ++ ENDC ++ right
                     ++ build_count_str count total ++ post in
    String.length line = (visible_length line + 27)%nat
    /\ forall col,
         term_run (TText, col) line = (TText, (col + visible_length line)%nat).
Proof.
  intros left label right count total post Hl Hb Hr Hp line.
  assert (Hv : visible_length line
               = (String.length left + String.length label + String.length right
                  + (String.length (str_of_int count)
                     + String.length (str_of_int total) + 7)
                  + String.length post)%nat).
  { unfold visible_length, line.
    rewrite (visible_printable _ _ Hl).
    change (visible_from TText (BRIGHT_YELLOW ++ ?x)) with (visible_from TText x).
    rewrite (visible_printable _ _ Hb).
    change (visible_from TText (ENDC ++ ?x)) with (visible_from TText x).
    rewrite (visible_printable _ _ Hr).
    rewrite (proj1 (count_str_columns count total post O)).
    rewrite (visible_all_printable _ Hp). lia. }
  split.
  - rewrite Hv. unfold line. rewrite !length_append, length_count_str.
    change (String.length BRIGHT_YELLOW) with 5%nat.
    change (String.length ENDC) with 4%nat. lia.
  - intros col. rewrite Hv. unfold line. rewrite !term_run_append.
    rewrite (term_run_printable _ _ Hl), term_run_BRIGHT_YELLOW.
    rewrite (term_run_printable _ _ Hb), term_run_ENDC.
    rewrite (term_run_printable _ _ Hr).
    rewrite (proj2 (count_str_columns count total "" _)).
    rewrite (term_run_printable _ _ Hp). f_equal. lia.
Qed.

(** What the parts of the bar are made of. *)
Ltac bind_case :=
  match goal with
  | |- bind ?r _ = Ok _ -> _ => destruct r; cbn [bind]; [| discriminate]
  end.

Lemma build_done_str_ok :
  forall percent width completed_char s,
    build_done_str percent width completed_char = Ok s ->
    exists n, s = str_mul completed_char n.
Proof.
  intros percent width completed_char s. unfold build_done_str.
  do 2 bind_case. intros H. eexists. symmetry. injection H as H. exact H.
Qed.

Lemma build_empty_str_ok :
  forall percent width empty_char s,
    build_empty_str percent width empty_char = Ok s ->
    exists n, s = str_mul empty_char n.
Proof.
  intros percent width empty_char s. unfold build_empty_str.
  do 2 bind_case. intros H. eexists. symmetry. injection H as H. exact H.
Qed.

Lemma build_progress_left_ok_slice :
  forall bar label s,
    build_progress_left bar label = Ok s -> exists i, s = slice_to bar i.
Proof.
  intros bar label s. unfold build_progress_left.
  do 5 bind_case. intros H. eexists. symmetry. injection H as H. exact H.
Qed.

Lemma build_progress_right_ok_slice :
  forall bar label s,
    build_progress_right bar label = Ok s -> exists j, s = slice_from bar j.
Proof.
  intros bar label s. unfold build_progress_right.
  do 5 bind_case. intros H. eexists. symmetry. injection H as H. exact H.
Qed.

(** What a call that draws has written, part by part. *)
Lemma display_progress_drawn_parts :
  forall count total old_percent width completed_char empty_char postpend_str percent out,
    display_progress count total old_percent width completed_char empty_char postpend_str
    = Ok (percent, out) ->
    out = []
    \/ exists filled unfilled label i j,
        let bar := "[" ++ str_mul completed_char filled
                       ++ str_mul empty_char unfilled ++ "]" in
        let line := slice_to bar i ++ BRIGHT_YELLOW ++ label ++ ENDC ++ slice_from bar j
                      ++ build_count_str count total ++ postpend_str in
        build_percent_str percent = Ok label
        /\ out = [Write line; Flush; Write (str_mul (chr BS) (len line))].
Proof.
  intros count total old_percent width completed_char empty_char postpend_str percent out H.
  unfold display_progress in H. bind_inv H.
  destruct (match old_percent with Some old => float_eqb v old | None => false end
            && negb (float_eqb v (Fin false 0))).
  - left. injection H as _ <-. reflexivity.
  - right. do 5 bind_inv H. injection H as <- <-.
    apply build_done_str_ok in Hv0. destruct Hv0 as [filled ->].
    apply build_empty_str_ok in Hv1. destruct Hv1 as [unfilled ->].
    apply build_progress_left_ok_slice in Hv3. destruct Hv3 as [i ->].
    apply build_progress_right_ok_slice in Hv4. destruct Hv4 as [j ->].
    exists filled, unfilled, v2, i, j. cbv zeta. split; [exact Hv2 |].
    repeat (progress (rewrite ?append_assoc; simpl)). reflexivity.
Qed.

(** C4 (where the code departs from it): a call of the progress renderer
    that draws writes its line and then one backspace per character of the
    line, the characters of the six escape codes included, and not one per
    visible character: for printable segment characters and a printable
    suffix the backspaces are 27 more than the visible characters of the
    line. The cursor so ends 27 columns to the left of the column it started
    at, or at the left margin; it returns to the column it started at only
    when that column is the margin. *)
Theorem display_progress_backspaces :
  forall count total old_percent width completed_char empty_char postpend_str
         percent line back,
    display_progress count total old_percent width completed_char empty_char postpend_str
    = Ok (percent, [Write line; Flush; Write back]) ->
    all_printable completed_char = true ->
    all_printable empty_char = true ->
    all_printable postpend_str = true ->
    back = str_mul (chr BS) (len line)
    /\ String.length back = String.length line
    /\ String.length back = (visible_length line + 27)%nat
    /\ forall col,
         cursor_after (TText, col) [Write line] = (TText, (col + visible_length line)%nat)
         /\ cursor_after (TText, col) [Write line; Flush; Write back]
            = (TText, (col - 27)%nat)
         /\ (cursor_after (TText, col) [Write line; Flush; Write back] = (TText, col)
             <-> col = O).
Proof.
  intros count total old_percent width completed_char empty_char postpend_str
         percent line back H Hcc Hec Hpost.
  apply display_progress_drawn_parts in H.
  destruct H as [H | [filled [unfilled [label [i [j [Hlabel H]]]]]]]; [discriminate |].
  cbv zeta in H. injection H as -> ->.
  match goal with
  | |- _ = str_mul _ (len ?l) /\ _ => remember l as line eqn:Eline
  end.
  assert (Hline : exists bar,
             all_printable bar = true
             /\ line = slice_to bar i ++ BRIGHT_YELLOW ++ label ++ ENDC ++ slice_from bar j
                         ++ build_count_str count total ++ postpend_str).
  { exists ("[" ++ str_mul completed_char filled ++ str_mul empty_char unfilled ++ "]").
    split; [| rewrite Eline; reflexivity].
    rewrite !all_printable_append, (all_printable_str_mul _ filled Hcc),
      (all_printable_str_mul _ unfilled Hec). reflexivity. }
  clear Eline. destruct Hline as [bar [Hbar Eline]].
  pose proof (progress_line_columns (slice_to bar i) label (slice_from bar j) count total
                postpend_str (all_printable_slice_to bar i Hbar)
                (all_printable_percent_str percent label Hlabel)
                (all_printable_slice_from bar j Hbar) Hpost) as Hcols.
  cbv zeta in Hcols. rewrite <- Eline in Hcols. destruct Hcols as [Hlen Hrun].
  clear Eline.
  assert (Hback : String.length (str_mul (chr BS) (len line)) = String.length line).
  { rewrite length_str_mul_char. unfold len. lia. }
  split; [reflexivity |]. split; [exact Hback |].
  split; [rewrite Hback; exact Hlen |].
  intros col.
  assert (Hcur : cursor_after (TText, col)
                   [Write line; Flush; Write (str_mul (chr BS) (len line))]
                 = (TText, (col - 27)%nat)).
  { cbn [cursor_after]. rewrite Hrun. unfold str_mul. rewrite term_run_backspaces.
    f_equal. unfold len. lia. }
  split; [cbn [cursor_after]; apply Hrun |]. split; [exact Hcur |].
  rewrite Hcur. split.
  - intros E. injection E as E. lia.
  - intros ->. reflexivity.
Qed.

Lemma display_progress_backspaces_witness :
  str_mul (chr BS) 51 = str_mul (chr BS) (len line_50_of_100)
  /\ String.length (str_mul (chr BS) 51) = String.length line_50_of_100
  /\ String.length (str_mul (chr BS) 51) = (visible_length line_50_of_100 + 27)%nat
  /\ forall col,
       cursor_after (TText, col) [Write line_50_of_100]
       = (TText, (col + visible_length line_50_of_100)%nat)
       /\ cursor_after (TText, col)
            [Write line_50_of_100; Flush; Write (str_mul (chr BS) 51)]
          = (TText, (col - 27)%nat)
       /\ (cursor_after (TText, col)
             [Write line_50_of_100; Flush; Write (str_mul (chr BS) 51)] = (TText, col)
           <-> col = O).
Proof.
  apply (display_progress_backspaces 50 100 None 10 "#" "." "" (Fin false 50)
           line_50_of_100 (str_mul (chr BS) 51)).
  - vm_compute. reflexivity.
  - reflexivity.
  - reflexivity.
  - reflexivity.
Defined.

(** ** The line drawn at zero percent *)

Local Open Scope Q_scope.

Lemma half_label_9 :
  exists q, py_int_truediv 9 2 = Ok (Fin false q)
            /\ Qfloor q = 4%Z /\ Qceiling q = 5%Z.
Proof.
  eexists. split; [vm_compute; reflexivity |].
  split; vm_compute; reflexivity.
Qed.

Lemma py_float_5 : py_float 5 = Ok (Fin false 5).
Proof. vm_compute. reflexivity. Qed.

(** The two slices around a label of 9 characters, for a bar of [2 * h]
    characters. *)
Lemma build_progress_left_value_9 :
  forall bar label h,
    len bar = (2 * h)%Z -> (0 <= h < 2 ^ 52)%Z -> len label = 9%Z ->
    build_progress_left bar label = Ok (slice_to bar (h - 2)).
Proof.
  intros bar label h Hbar Hh Hlabel. unfold build_progress_left.
  rewrite Hbar, Hlabel.
  destruct (half_even_len h Hh) as [H [Hdiv HH]].
  destruct half_label_9 as [q [Hq [Hfloor _]]].
  rewrite (bind_Ok_eq _ _ _ _ _ Hdiv). cbv beta.
  rewrite (bind_Ok_eq _ _ _ _ _ Hq). cbv beta.
  rewrite (bind_Ok_eq _ _ _ _ _ (math_floor_fin q)). cbv beta.
  rewrite Hfloor.
  rewrite (bind_Ok_eq _ _ _ _ _ py_float_4). cbv beta.
  rewrite (bind_Ok_eq _ _ _ _ _ (py_int_fsub_small h 4 H 4 HH ltac:(reflexivity)
                                     Hh ltac:(lia))).
  cbv beta. f_equal. f_equal. lia.
Qed.

Lemma build_progress_right_value_9 :
  forall bar label h,
    len bar = (2 * h)%Z -> (0 <= h < 2 ^ 52)%Z -> len label = 9%Z ->
    build_progress_right bar label = Ok (slice_from bar (h + 7)).
Proof.
  intros bar label h Hbar Hh Hlabel. unfold build_progress_right.
  rewrite Hbar, Hlabel.
  destruct (half_even_len h Hh) as [H [Hdiv HH]].
  destruct half_label_9 as [q [Hq [_ Hceil]]].
  rewrite (bind_Ok_eq _ _ _ _ _ Hdiv). cbv beta.
  rewrite (bind_Ok_eq _ _ _ _ _ Hq). cbv beta.
  assert (Hce : math_ceil (Fin false q) = Ok (Qceiling q)) by reflexivity.
  rewrite (bind_Ok_eq _ _ _ _ _ Hce). cbv beta.
  rewrite Hceil.
  rewrite (bind_Ok_eq _ _ _ _ _ py_float_5). cbv beta.
  rewrite (bind_Ok_eq _ _ _ _ _ (py_int_fadd_small h 5 H 5 HH ltac:(reflexivity)
                                     Hh ltac:(lia))).
  cbv beta. f_equal. f_equal. lia.
Qed.

Local Close Scope Q_scope.
Local Open Scope Z_scope.

(** A call at zero percent draws the empty bar, with the label of zero over
    its middle. *)
Lemma display_progress_zero_line :
  forall count total old_percent width completed_char empty_char postpend_str percent,
    compute_percent count total = Ok percent ->
    float_eqb percent (Fin false 0) = true ->
    (2 <= width < 2 ^ 52)%Z ->
    String.length empty_char = 1%nat ->
    exists negative : bool,
      let w := even_width width in
      let bar := "[" ++ str_mul empty_char w ++ "]" in
      let label := "   " ++ (if negative then "-" else "") ++ "0.0% " in
      let line := slice_to bar (w / 2 - 1) ++ BRIGHT_YELLOW ++ label ++ ENDC
                    ++ slice_from bar (w / 2 + (if negative then 8 else 7))
                    ++ build_count_str count total ++ postpend_str in
      str_of_float percent = (if negative then "-" else "") ++ "0.0"
      /\ display_progress count total old_percent width
           completed_char empty_char postpend_str
         = Ok (percent, [Write line; Flush; Write (str_mul (chr BS) (len line))]).
Proof.
  intros count total old_percent width completed_char empty_char postpend_str percent
         Hpercent Hzero Hw Hec.
  destruct (float_eqb_zero percent Hzero) as [s [p [-> Hp]]].
  pose proof (even_width_range width Hw) as Hw'.
  pose proof (even_width_is_even width) as Heven.
  destruct (zero_percent_segments s p (even_width width) Hp Hw') as [Hdone Hempty].
  pose proof (zero_percent_label s p Hp) as Hlabel.
  exists s. cbv zeta. split.
  { unfold str_of_float.
    assert (Hb : Qeq_bool p 0 = true) by (apply Qeq_bool_iff; exact Hp).
    rewrite Hb. reflexivity. }
  unfold display_progress.
  remember (even_width width) as w eqn:Heqw.
  rewrite (bind_Ok_eq _ _ _ _ _ Hpercent). cbv beta.
  rewrite Hzero. change (negb true) with false. rewrite andb_false_r.
  rewrite (bind_Ok_eq _ _ _ _ _ (Hdone completed_char)). cbv beta.
  rewrite (bind_Ok_eq _ _ _ _ _ (Hempty empty_char)). cbv beta.
  rewrite (bind_Ok_eq _ _ _ _ _ Hlabel). cbv beta.
  change ("[" ++ "" ++ str_mul empty_char w ++ "]")
    with ("[" ++ str_mul empty_char w ++ "]").
  assert (Hhalf : exists h, w = (2 * h)%Z).
  { exists (w / 2)%Z. apply Zeven_bool_iff in Heven. apply Zeven_div2 in Heven.
    rewrite Z.div2_div in Heven. exact Heven. }
  destruct Hhalf as [h Eh].
  assert (Hbar : len ("[" ++ str_mul empty_char w ++ "]") = (2 * (h + 1))%Z).
  { rewrite !len_append, !len_str_mul, (len_one_char _ Hec).
    change (len "[") with 1%Z. change (len "]") with 1%Z. lia. }
  assert (E1 : (h + 1 - 2 = w / 2 - 1)%Z).
  { rewrite Eh, Z.mul_comm, Z.div_mul by lia. lia. }
  destruct s.
  - assert (Hl9 : len ("   " ++ "-" ++ "0.0% ") = 9%Z) by reflexivity.
    rewrite (bind_Ok_eq _ _ _ _ _
               (build_progress_left_value_9 _ _ (h + 1) Hbar ltac:(lia) Hl9)).
    cbv beta.
    rewrite (bind_Ok_eq _ _ _ _ _
               (build_progress_right_value_9 _ _ (h + 1) Hbar ltac:(lia) Hl9)).
    cbv beta zeta.
    assert (E2 : (h + 1 + 7 = w / 2 + 8)%Z).
    { rewrite Eh, Z.mul_comm, Z.div_mul by lia. lia. }
    rewrite E1, E2. rewrite !append_assoc. reflexivity.
  - assert (Hl8 : len ("   " ++ "" ++ "0.0% ") = 8%Z) by reflexivity.
    rewrite (bind_Ok_eq _ _ _ _ _
               (build_progress_left_value _ _ (h + 1) Hbar ltac:(lia) Hl8)).
    cbv beta.
    rewrite (bind_Ok_eq _ _ _ _ _
               (build_progress_right_value _ _ (h + 1) Hbar ltac:(lia) Hl8)).
    cbv beta zeta.
    assert (E2 : (h + 1 + 6 = w / 2 + 7)%Z).
    { rewrite Eh, Z.mul_comm, Z.div_mul by lia. lia. }
    rewrite E1, E2. rewrite !append_assoc. reflexivity.
Qed.

(** C5: when the newly computed percent equals the previous percent and is
    not 0, the progress renderer writes nothing and returns that percent;
    when the percent is 0 it draws the bar whatever the previous percent is,
    also when that is 0 too: it writes the line of the empty bar with the
    label of zero ([0.0], or [-0.0] for a negative zero) over its middle, the
    count and the suffix, and one backspace per character of that line.
    (The drawing needs a width from 2 on, below [2^52], and a one-character
    empty segment.) *)
Theorem display_progress_suppression :
  forall count total old_percent width completed_char empty_char postpend_str percent,
    (0 < total)%Z ->
    compute_percent count total = Ok percent ->
    (forall old,
        old_percent = Some old ->
        float_eqb percent old = true ->
        float_eqb percent (Fin false 0) = false ->
        display_progress count total old_percent width
          completed_char empty_char postpend_str
        = Ok (percent, []))
    /\ (float_eqb percent (Fin false 0) = true ->
        (2 <= width < 2 ^ 52)%Z ->
        String.length empty_char = 1%nat ->
        exists negative : bool,
          let w := even_width width in
          let bar := "[" ++ str_mul empty_char w ++ "]" in
          let label := "   " ++ (if negative then "-" else "") ++ "0.0% " in
          let line := slice_to bar (w / 2 - 1) ++ BRIGHT_YELLOW ++ label ++ ENDC
                        ++ slice_from bar (w / 2 + (if negative then 8 else 7))
                        ++ build_count_str count total ++ postpend_str in
          str_of_float percent = (if negative then "-" else "") ++ "0.0"
          /\ display_progress count total old_percent width
               completed_char empty_char postpend_str
             = Ok (percent, [Write line; Flush; Write (str_mul (chr BS) (len line))])).
Proof.
  intros count total old_percent width completed_char empty_char postpend_str percent
         Htotal Hpercent.
  split.
  - intros old -> Hsame Hnonzero. unfold display_progress.
    rewrite (bind_Ok_eq _ _ _ _ _ Hpercent). cbv beta.
    rewrite Hsame, Hnonzero. reflexivity.
  - intros Hzero Hw Hec.
    apply display_progress_zero_line; assumption.
Qed.

Lemma display_progress_suppression_witness :
  display_progress 50 100 (Some (Fin false 50)) 50 "#" "." "" = Ok (Fin false 50, [])
  /\ exists negative : bool,
      let w := even_width 50 in
      let bar := "[" ++ str_mul "." w ++ "]" in
      let label := "   " ++ (if negative then "-" else "") ++ "0.0% " in
      let line := slice_to bar (w / 2 - 1) ++ BRIGHT_YELLOW ++ label ++ ENDC
                    ++ slice_from bar (w / 2 + (if negative then 8 else 7))
                    ++ build_count_str 0 100 ++ "" in
      str_of_float (Fin false 0) = (if negative then "-" else "") ++ "0.0"
      /\ display_progress 0 100 (Some (Fin false 0)) 50 "#" "." ""
         = Ok (Fin false 0, [Write line; Flush; Write (str_mul (chr BS) (len line))]).
Proof.
  split.
  - apply (proj1 (display_progress_suppression 50 100 (Some (Fin false 50)) 50
                    "#" "." "" (Fin false 50) eq_refl compute_percent_50_of_100)
             (Fin false 50) eq_refl eq_refl eq_refl).
  - apply (proj2 (display_progress_suppression 0 100 (Some (Fin false 0)) 50
                    "#" "." "" (Fin false 0) eq_refl eq_refl)).
    + reflexivity.
    + split; [discriminate | reflexivity].
    + reflexivity.
Defined.

(** At 0 of 100 and width 50 the line drawn is the opening bracket, 23
    empty segments, the label, 19 empty segments, the closing bracket and
    the count, whatever the previous percent is; 90 backspaces follow. *)
Lemma display_progress_zero_of_100 :
  forall old_percent,
    display_progress 0 100 old_percent 50 "#" "." ""
    = Ok (Fin false 0,
          [Write ("[......................." ++ BRIGHT_YELLOW ++ "   0.0% " ++ ENDC
                    ++ "...................]" ++ build_count_str 0 100);
           Flush; Write (str_mul (chr BS) 90)]).
Proof.
  intros old_percent.
  destruct (display_progress_zero_line 0 100 old_percent 50 "#" "." "" (Fin false 0)
              eq_refl eq_refl ltac:(split; [discriminate | reflexivity]) eq_refl)
    as [negative [Hs Hcall]].
  destruct negative; [discriminate Hs |].
  rewrite Hcall. vm_compute. reflexivity.
Qed.

(** ** The width of the label, by tenths *)

(** C2 (as the code has it): for every percent value from 0.0 to 999.9,
    that is, with [t] tenths for [t] from 0 to 9999, the integer part is
    [t / 10], of 1, 2 or 3 digits, and the label (the padding of 4 minus
    that number of digits, the number with its point and its decimal, the
    percent sign and the space) has exactly 8 characters, not 6. *)
Theorem percent_str_width :
  forall t, (0 <= t <= 9999)%Z ->
    math_floor (percent_of_tenths t) = Ok (t / 10)%Z
    /\ (0 <= t / 10 <= 999)%Z
    /\ exists label,
         build_percent_str (percent_of_tenths t) = Ok label
         /\ String.length label = 8%nat.
Proof.
  intros t Ht. split; [| split].
  - unfold percent_of_tenths. rewrite math_floor_fin, (tenths_floor t Ht). reflexivity.
  - pose proof (Z.div_mod t 10 ltac:(lia)). pose proof (Z.mod_pos_bound t 10 ltac:(lia)).
    lia.
  - apply label_width_tenths. exact Ht.
Qed.

Lemma percent_str_width_witness :
  math_floor (percent_of_tenths 333) = Ok (333 / 10)%Z
  /\ (0 <= 333 / 10 <= 999)%Z
  /\ exists label,
       build_percent_str (percent_of_tenths 333) = Ok label
       /\ String.length label = 8%nat.
Proof.
  apply (percent_str_width 333). split; [discriminate | apply Z.leb_le; reflexivity].
Defined.

Local Close Scope Z_scope.
